(** * NAS recommendation pipeline: a shallow embedding and its properties

    The development follows the Python modules of the repository:
    [modules/player_context.py], [modules/new_modules/vacuum_matrix.py],
    [modules/new_modules/pace_adjuster.py],
    [modules/new_modules/thesis_engine.py],
    [modules/new_modules/strategy_engine.py],
    [modules/new_modules/daily_multiple.py] and
    [modules/new_modules/multipla_do_dia.py].

    Conventions.
    - Python floats are read as exact rationals ([Q]); [round(x, n)] is
      rounding to [n] decimals with ties to even.  Two things are lost:
      NaN, which passes every gate of the form [if x < t: return], and the
      error of the binary operations, which decides the way a decimal tie
      is rounded (the code stores 30.1 for [round(30.0 * 1.005, 1)], the
      exact product 30.15 rounds to 30.2).  Where that matters a statement
      is an inequality that rounding respects, or says rounded with
      [Num.rounds_to], which admits both neighbours of a tie; where a
      statement needs its numbers not to be NaN it says so.
    - A Python dict used as a record becomes a Rocq record; a key that the
      code reads with [.get(k, default)] or tests with [k in d] is an
      [option] field.  Dicts that are used as maps (counters, the vacuum
      table) are [gmap]s, sets are [gset]s.
    - Code that can raise returns in the [result] type below. *)

From Stdlib Require Import QArith Qround Lqa Lia String Ascii.
From stdpp Require Import gmap strings list.
From Equations Require Import Equations.

Local Open Scope string_scope.

(** ** Numbers *)

Module Num.

Local Open Scope Q_scope.

(** Python's [min]/[max] on two numbers. *)
Definition qmax (a b : Q) : Q := if Qlt_le_dec a b then b else a.
Definition qmin (a b : Q) : Q := if Qlt_le_dec b a then b else a.

(** [min(max(x, lo), hi)] *)
Definition clamp (x lo hi : Q) : Q := qmin (qmax x lo) hi.

Definition qabs (x : Q) : Q := if Qlt_le_dec x 0 then - x else x.

(** Boolean comparisons, for executable guards. *)
Definition qltb (a b : Q) : bool := if Qlt_le_dec a b then true else false.
Definition qleb (a b : Q) : bool := if Qlt_le_dec b a then false else true.
Definition qeqb (a b : Q) : bool := if Qeq_dec a b then true else false.

(** Nearest integer, ties to the even neighbour. *)
Definition round_half_even (x : Q) : Z :=
  let f := Qfloor x in
  match Qcompare (x - inject_Z f) (1 # 2) with
  | Lt => f
  | Gt => (f + 1)%Z
  | Eq => if Z.even f then f else (f + 1)%Z
  end.

Definition pow10 (n : nat) : Z := (10 ^ Z.of_nat n)%Z.

(** [round(x, n)] *)
Definition py_round (x : Q) (n : nat) : Q :=
  inject_Z (round_half_even (x * inject_Z (pow10 n))) / inject_Z (pow10 n).

Lemma qmax_lub a b c : a <= c -> b <= c -> qmax a b <= c.
Proof. unfold qmax. destruct (Qlt_le_dec a b); auto. Qed.

Lemma qmax_l a b : a <= qmax a b.
Proof. unfold qmax. destruct (Qlt_le_dec a b); lra. Qed.

Lemma qmax_r a b : b <= qmax a b.
Proof. unfold qmax. destruct (Qlt_le_dec a b); lra. Qed.

Lemma qmin_l a b : qmin a b <= a.
Proof. unfold qmin. destruct (Qlt_le_dec b a); lra. Qed.

Lemma qmin_r a b : qmin a b <= b.
Proof. unfold qmin. destruct (Qlt_le_dec b a); lra. Qed.

Lemma qmin_glb a b c : c <= a -> c <= b -> c <= qmin a b.
Proof. unfold qmin. destruct (Qlt_le_dec b a); auto. Qed.

Lemma clamp_bounds x lo hi : lo <= hi -> lo <= clamp x lo hi /\ clamp x lo hi <= hi.
Proof.
  intros Hlh. unfold clamp. split.
  - apply qmin_glb; [apply qmax_r | exact Hlh].
  - apply qmin_r.
Qed.

Lemma clamp_id x lo hi : lo <= x -> x <= hi -> clamp x lo hi == x.
Proof.
  intros H1 H2. unfold clamp, qmin, qmax.
  destruct (Qlt_le_dec x lo); destruct (Qlt_le_dec hi _); lra.
Qed.

Lemma clamp_proper x y lo hi : x == y -> clamp x lo hi == clamp y lo hi.
Proof.
  intros E. unfold clamp, qmin, qmax.
  destruct (Qlt_le_dec x lo), (Qlt_le_dec y lo); try lra;
    repeat match goal with
           | |- context [Qlt_le_dec ?a ?b] => destruct (Qlt_le_dec a b)
           end; lra.
Qed.

Lemma qabs_nonneg x : 0 <= qabs x.
Proof. unfold qabs. destruct (Qlt_le_dec x 0); lra. Qed.

Lemma qltb_true a b : qltb a b = true <-> a < b.
Proof. unfold qltb. destruct (Qlt_le_dec a b); split; intros; try easy; lra. Qed.

Lemma qltb_false a b : qltb a b = false <-> b <= a.
Proof. unfold qltb. destruct (Qlt_le_dec a b); split; intros; try easy; lra. Qed.

Lemma qleb_true a b : qleb a b = true <-> a <= b.
Proof. unfold qleb. destruct (Qlt_le_dec b a); split; intros; try easy; lra. Qed.

Lemma qleb_false a b : qleb a b = false <-> b < a.
Proof. unfold qleb. destruct (Qlt_le_dec b a); split; intros; try easy; lra. Qed.

Lemma qeqb_true a b : qeqb a b = true <-> a == b.
Proof. unfold qeqb. destruct (Qeq_dec a b); split; intros; easy. Qed.

(** The rounded integer is above every integer below [x] and below every
    integer above it. *)
Lemma round_half_even_ge (z : Z) (x : Q) :
  inject_Z z <= x -> (z <= round_half_even x)%Z.
Proof.
  intros Hz. assert (Hf : (z <= Qfloor x)%Z).
  { rewrite <- (Qfloor_Z z). apply Qfloor_resp_le, Hz. }
  unfold round_half_even.
  destruct (_ ?= _); [destruct (Z.even _) | |]; lia.
Qed.

Lemma round_half_even_le (z : Z) (x : Q) :
  x <= inject_Z z -> (round_half_even x <= z)%Z.
Proof.
  intros Hz.
  assert (Hf : (Qfloor x <= z)%Z).
  { rewrite <- (Qfloor_Z z). apply Qfloor_resp_le, Hz. }
  destruct (Z.eq_dec (Qfloor x) z) as [He | Hne].
  - assert (Hx : x - inject_Z (Qfloor x) == 0).
    { pose proof (Qfloor_le x) as Hl. rewrite He in *. lra. }
    unfold round_half_even. rewrite Hx. simpl. lia.
  - unfold round_half_even.
    destruct (_ ?= _); [destruct (Z.even _) | |]; lia.
Qed.

Lemma round_half_even_Z (z : Z) : round_half_even (inject_Z z) = z.
Proof.
  apply Z.le_antisymm.
  - apply round_half_even_le. lra.
  - apply round_half_even_ge. lra.
Qed.

Lemma pow10_pos n : (0 < pow10 n)%Z.
Proof. unfold pow10. apply Z.pow_pos_nonneg; lia. Qed.

Lemma inject_pow10_pos n : 0 < inject_Z (pow10 n).
Proof. change 0 with (inject_Z 0). rewrite <- Zlt_Qlt. apply pow10_pos. Qed.

(** Rounding to [n] decimals never crosses a bound that has itself at
    most [n] decimals. *)
Lemma div_pow10_le (a b : Q) (n : nat) :
  a <= b -> a / inject_Z (pow10 n) <= b / inject_Z (pow10 n).
Proof.
  intros Hab. pose proof (inject_pow10_pos n) as Hp.
  apply Qle_shift_div_r; [exact Hp |].
  assert (E : b / inject_Z (pow10 n) * inject_Z (pow10 n) == b) by (field; lra).
  rewrite E. exact Hab.
Qed.

Lemma py_round_ge (z : Z) (x : Q) (n : nat) :
  inject_Z z / inject_Z (pow10 n) <= x ->
  inject_Z z / inject_Z (pow10 n) <= py_round x n.
Proof.
  intros Hx. pose proof (inject_pow10_pos n) as Hp. unfold py_round.
  apply div_pow10_le. rewrite <- Zle_Qle. apply round_half_even_ge.
  apply Qmult_le_compat_r with (z := inject_Z (pow10 n)) in Hx; [| lra].
  assert (E : inject_Z z / inject_Z (pow10 n) * inject_Z (pow10 n) == inject_Z z)
    by (field; lra).
  rewrite E in Hx. exact Hx.
Qed.

Lemma py_round_le (z : Z) (x : Q) (n : nat) :
  x <= inject_Z z / inject_Z (pow10 n) ->
  py_round x n <= inject_Z z / inject_Z (pow10 n).
Proof.
  intros Hx. pose proof (inject_pow10_pos n) as Hp. unfold py_round.
  apply div_pow10_le. rewrite <- Zle_Qle. apply round_half_even_le.
  apply Qmult_le_compat_r with (z := inject_Z (pow10 n)) in Hx; [| lra].
  assert (E : inject_Z z / inject_Z (pow10 n) * inject_Z (pow10 n) == inject_Z z)
    by (field; lra).
  rewrite E in Hx. exact Hx.
Qed.

(** A number with at most [n] decimals is its own rounding. *)
Lemma py_round_exact (z : Z) (x : Q) (n : nat) :
  x == inject_Z z / inject_Z (pow10 n) -> py_round x n == x.
Proof.
  intros Hx. apply Qle_antisym.
  - apply Qle_trans with (inject_Z z / inject_Z (pow10 n));
      [apply py_round_le | ]; lra.
  - apply Qle_trans with (inject_Z z / inject_Z (pow10 n));
      [| apply py_round_ge]; lra.
Qed.

Lemma py_round_unit x n : 0 <= x -> x <= 1 -> 0 <= py_round x n /\ py_round x n <= 1.
Proof.
  intros H0 H1. pose proof (inject_pow10_pos n) as Hp. split.
  - assert (E : 0 == inject_Z 0 / inject_Z (pow10 n)) by (field; lra).
    apply Qle_trans with (inject_Z 0 / inject_Z (pow10 n));
      [| apply py_round_ge]; lra.
  - assert (E : 1 == inject_Z (pow10 n) / inject_Z (pow10 n)) by (field; lra).
    apply Qle_trans with (inject_Z (pow10 n) / inject_Z (pow10 n));
      [apply py_round_le |]; lra.
Qed.

Lemma round_half_even_proper x y : x == y -> round_half_even x = round_half_even y.
Proof.
  intros E. unfold round_half_even.
  assert (Ef : Qfloor x = Qfloor y) by (now rewrite E).
  rewrite Ef. now rewrite E.
Qed.

Lemma py_round_proper x y n : x == y -> py_round x n == py_round y n.
Proof.
  intros E. unfold py_round.
  rewrite (round_half_even_proper (x * inject_Z (pow10 n)) (y * inject_Z (pow10 n))).
  - reflexivity.
  - now rewrite E.
Qed.

(** [y] is [x] rounded to [n] decimals, in a form that does not depend on
    the binary representation of [x]: [y] has at most [n] decimals and lies
    within six tenths of a unit of the [n]-th decimal of [x].  Half a unit
    is the rounding itself; the remaining tenth is room for the error of
    the floating-point operations that produce [x], which decides the way
    a decimal tie falls (at the magnitudes of the statistics and
    confidences of this program that error is many orders smaller). *)
Definition rounds_to (n : nat) (x y : Q) : Prop :=
  (exists z : Z, y == inject_Z z / inject_Z (pow10 n)) /\
  x - (6 # 10) / inject_Z (pow10 n) <= y /\
  y <= x + (6 # 10) / inject_Z (pow10 n).

(** The nearest integer is within a half. *)
Lemma round_half_even_near (x : Q) :
  x - (1 # 2) <= inject_Z (round_half_even x) /\
  inject_Z (round_half_even x) <= x + (1 # 2).
Proof.
  pose proof (Qfloor_le x) as Hl. pose proof (Qlt_floor x) as Hu.
  rewrite inject_Z_plus in Hu. change (inject_Z 1) with 1 in Hu.
  unfold round_half_even.
  destruct (Qcompare (x - inject_Z (Qfloor x)) (1 # 2)) eqn:E.
  - apply Qeq_alt in E. destruct (Z.even (Qfloor x)).
    + split; lra.
    + rewrite inject_Z_plus. change (inject_Z 1) with 1. split; lra.
  - apply Qlt_alt in E. split; lra.
  - apply Qgt_alt in E. rewrite inject_Z_plus. change (inject_Z 1) with 1.
    split; lra.
Qed.

Lemma py_round_near (x : Q) (n : nat) :
  x - (1 # 2) / inject_Z (pow10 n) <= py_round x n /\
  py_round x n <= x + (1 # 2) / inject_Z (pow10 n).
Proof.
  pose proof (inject_pow10_pos n) as Hp.
  destruct (round_half_even_near (x * inject_Z (pow10 n))) as [Hl Hu].
  unfold py_round. split.
  - apply Qle_shift_div_l; [exact Hp |].
    assert (E : (x - (1 # 2) / inject_Z (pow10 n)) * inject_Z (pow10 n)
                == x * inject_Z (pow10 n) - (1 # 2)) by (field; lra).
    rewrite E. exact Hl.
  - apply Qle_shift_div_r; [exact Hp |].
    assert (E : (x + (1 # 2) / inject_Z (pow10 n)) * inject_Z (pow10 n)
                == x * inject_Z (pow10 n) + (1 # 2)) by (field; lra).
    rewrite E. exact Hu.
Qed.

Lemma py_round_rounds_to (x x' : Q) (n : nat) :
  x == x' -> rounds_to n x (py_round x' n).
Proof.
  intros E. pose proof (inject_pow10_pos n) as Hp.
  destruct (py_round_near x' n) as [Hl Hu].
  assert (Ht : (1 # 2) / inject_Z (pow10 n) <= (6 # 10) / inject_Z (pow10 n)).
  { apply div_pow10_le. lra. }
  split; [| split].
  - exists (round_half_even (x' * inject_Z (pow10 n))). reflexivity.
  - rewrite E. lra.
  - rewrite E. lra.
Qed.

End Num.

(** ** Strings *)

Module Str.

(** [str.lower()] and [str.upper()] on ASCII letters. *)
Definition lower_ascii (c : ascii) : ascii :=
  let n := nat_of_ascii c in
  if (65 <=? n)%nat && (n <=? 90)%nat then ascii_of_nat (n + 32) else c.

Definition upper_ascii (c : ascii) : ascii :=
  let n := nat_of_ascii c in
  if (97 <=? n)%nat && (n <=? 122)%nat then ascii_of_nat (n - 32) else c.

Fixpoint lower (s : string) : string :=
  match s with
  | EmptyString => EmptyString
  | String c s' => String (lower_ascii c) (lower s')
  end.

Fixpoint upper (s : string) : string :=
  match s with
  | EmptyString => EmptyString
  | String c s' => String (upper_ascii c) (upper s')
  end.

(** [k in s] for strings: [k] occurs in [s] as a substring. *)
Fixpoint contains (k s : string) : bool :=
  String.prefix k s ||
  match s with
  | EmptyString => false
  | String _ s' => contains k s'
  end.

(** [any(k in s for k in ks)] *)
Definition contains_any (ks : list string) (s : string) : bool :=
  existsb (fun k => contains k s) ks.

(** [x in [..]] for a list of strings. *)
Definition mem (x : string) (l : list string) : bool :=
  existsb (String.eqb x) l.

Lemma mem_In x l : mem x l = true <-> In x l.
Proof.
  unfold mem. rewrite existsb_exists. split.
  - intros [y [Hy He]]. apply String.eqb_eq in He. now subst.
  - intros Hin. exists x. split; [exact Hin | apply String.eqb_refl].
Qed.

(** Truthiness of a string. *)
Definition nonempty (s : string) : bool :=
  match s with EmptyString => false | _ => true end.

End Str.

(** ** Exceptions *)

Inductive exn : Type :=
| KeyError (key : string)
| TypeError (what : string).

Inductive result (A : Type) : Type :=
| Ok (a : A)
| Raise (e : exn).

Arguments Ok {A} a.
Arguments Raise {A} e.

Definition bind {A B : Type} (m : result A) (k : A -> result B) : result B :=
  match m with
  | Ok a => k a
  | Raise e => Raise e
  end.

Notation "x <- m ;; k" := (bind m (fun x => k))
  (at level 100, m at next level, right associativity).

(** [d[key]] on an optional field. *)
Definition index {A : Type} (key : string) (o : option A) : result A :=
  match o with
  | Some a => Ok a
  | None => Raise (KeyError key)
  end.

(** A loop body run over a list, stopping at the first exception. *)
Fixpoint foldM {A S : Type} (f : S -> A -> result S) (l : list A) (s : S) : result S :=
  match l with
  | [] => Ok s
  | a :: l' => s' <- f s a ;; foldM f l' s'
  end.

(** An invariant of the loop body holds after a loop that ends normally. *)
Lemma foldM_invariant {A S : Type} (f : S -> A -> result S) (I : S -> Prop)
    (l : list A) :
  (forall s a s', In a l -> I s -> f s a = Ok s' -> I s') ->
  forall s s', I s -> foldM f l s = Ok s' -> I s'.
Proof.
  induction l as [| a l IH]; intros Hstep s s' Hs Hrun; cbn in Hrun.
  - injection Hrun as <-. exact Hs.
  - destruct (f s a) as [s1 |] eqn:E; cbn in Hrun; [| discriminate].
    apply (IH (fun s0 b s0' Hb => Hstep s0 b s0' (or_intror Hb)) s1 s');
      [| exact Hrun].
    apply (Hstep s a s1); auto. now left.
Qed.

(** A loop ends normally when its body does under the invariant. *)
Lemma foldM_total {A S : Type} (f : S -> A -> result S) (I : S -> Prop)
    (l : list A) :
  (forall s a, In a l -> I s -> exists s', f s a = Ok s' /\ I s') ->
  forall s, I s -> exists s', foldM f l s = Ok s' /\ I s'.
Proof.
  induction l as [| a l IH]; intros Hstep s Hs; cbn.
  - eauto.
  - destruct (Hstep s a (or_introl eq_refl) Hs) as (s1 & E & H1).
    rewrite E. cbn. apply IH; [| exact H1].
    intros s0 b Hb. apply Hstep. now right.
Qed.

(** ** Roster entries, shared by the context builder and the vacuum
    analyzer: [{PLAYER, POSITION, STARTER, STATUS}]. *)

Record roster_entry : Type := {
  PLAYER : option string;
  POSITION : string;
  STARTER : bool;
  STATUS : option string
}.

(** ** modules/player_context.py *)

Module PlayerContext.

Import Num.
Local Open Scope Q_scope.

(** The recent-performance row ([df_l5_row]); every key is read with
    [.get(key, default)]. *)
Record l5_row : Type := {
  PLAYER_ID : option Z;
  MIN_AVG : option Q;
  LAST_MIN : option Q;
  REB_AVG : option Q;
  AST_AVG : option Q;
  PTS_AVG : option Q;
  PRA_AVG : option Q;
  REB_CV : option Q;
  AST_CV : option Q;
  PTS_CV : option Q;
  MIN_CV : option Q;
  EXP : option Z
}.

Record derived : Type := {
  availability : string;
  expected_minutes : Q
}.

Definition out_keywords : list string := ["out"; "ir"; "injur"].

Definition derive_availability_and_expected_minutes
    (entry : roster_entry) (df_l5_row : option l5_row)
    (treat_unknown_as_available : bool) : derived :=
  let status := Str.lower (default "" (STATUS entry)) in
  let starter := STARTER entry in
  let min_avg := match df_l5_row with
                 | Some row => default 0 (MIN_AVG row) | None => 0 end in
  let last_min := match df_l5_row with
                  | Some row => default 0 (LAST_MIN row) | None => 0 end in
  let '(availability, expected_minutes) :=
    if Str.contains_any out_keywords status then
      ("out", 0)
    else if starter then
      ("available", qmax (qmax min_avg last_min) 28)
    else if Str.nonempty status && Str.contains_any ["active"; "available"] status then
      ("available", qmax (min_avg * (8 # 10)) (last_min * (9 # 10)))
    else
      ("probable",
       if treat_unknown_as_available
       then qmax (min_avg * (8 # 10)) (last_min * (6 # 10))
       else min_avg * (6 # 10)) in
  {| availability := availability;
     expected_minutes := qmax 0 expected_minutes |}.

(** The context built by [build_player_ctx].  The fields copied verbatim
    from [team_context] and [opponent_context], and the defence-vs-position
    lookup of the external analyzer, are not part of the record.  The
    [except] branch, which returns a minimal dict without [role], is taken
    only on values of the wrong type, which the typed row excludes. *)
Record player_ctx : Type := {
  player_id : option Z;
  name : string;
  team : option string;
  position : string;
  is_starter : bool;
  status : string;
  min_L5 : Q;
  ctx_expected_minutes : Q;
  pts_L5 : Q;
  reb_L5 : Q;
  ast_L5 : Q;
  pra_L5 : Q;
  reb_per_min : Q;
  ast_per_min : Q;
  reb_cv : Q;
  ast_cv : Q;
  pts_cv : Q;
  min_cv : Q;
  exp : Z;
  is_young : bool;
  is_veteran : bool;
  usage : string;
  volatility : string;
  role : string;
  style : string;
  garbage_time_profile : string
}.

Definition classify_usage (pra : Q) : string :=
  if qleb 30 pra then "high" else if qleb 18 pra then "medium" else "low".

Definition classify_volatility (pts_cv min_cv : Q) : string :=
  let vol_score := (pts_cv + min_cv) / 2 in
  if qleb (8 # 10) vol_score then "high"
  else if qleb (5 # 10) vol_score then "medium" else "low".

Definition classify_role (starter : bool) (usage : string) : string :=
  if starter && String.eqb usage "high" then "star"
  else if starter && negb (String.eqb usage "low") then "starter"
  else if negb starter && String.eqb usage "high" then "bench_scorer"
  else if negb starter && String.eqb usage "medium" then "rotation"
  else "deep_bench".

Definition classify_style (reb_per_min ast_per_min pts : Q) : string :=
  if qleb (22 # 100) reb_per_min && qltb pts 16 then "rebounder"
  else if qleb (18 # 100) ast_per_min then "playmaker"
  else if qleb 18 pts then "scorer"
  else if qleb (18 # 100) reb_per_min && qleb 12 pts then "hustle"
  else "role".

Definition build_player_ctx (entry : roster_entry) (df_l5_row : option l5_row)
    (team_abbr : option string) : player_ctx :=
  let name := default "" (PLAYER entry) in
  let pos := Str.upper (POSITION entry) in
  let starter := STARTER entry in
  let status := default "" (STATUS entry) in
  let min_L5 := match df_l5_row with Some r => default 0 (MIN_AVG r) | None => 0 end in
  let reb_L5 := match df_l5_row with Some r => default 0 (REB_AVG r) | None => 0 end in
  let ast_L5 := match df_l5_row with Some r => default 0 (AST_AVG r) | None => 0 end in
  let pts_L5 := match df_l5_row with Some r => default 0 (PTS_AVG r) | None => 0 end in
  let pra_L5 := match df_l5_row with
                | Some r => default (pts_L5 + reb_L5 + ast_L5) (PRA_AVG r)
                | None => 0 end in
  let reb_per_min := if qltb 0 min_L5 then reb_L5 / min_L5 else 0 in
  let ast_per_min := if qltb 0 min_L5 then ast_L5 / min_L5 else 0 in
  let reb_cv := match df_l5_row with Some r => default 1 (REB_CV r) | None => 1 end in
  let ast_cv := match df_l5_row with Some r => default 1 (AST_CV r) | None => 1 end in
  let pts_cv := match df_l5_row with Some r => default 1 (PTS_CV r) | None => 1 end in
  let min_cv := match df_l5_row with Some r => default 1 (MIN_CV r) | None => 1 end in
  let exp := match df_l5_row with Some r => default 99%Z (EXP r) | None => 99%Z end in
  let derived := derive_availability_and_expected_minutes entry df_l5_row true in
  let is_young := (exp <=? 3)%Z in
  let is_veteran := (8 <=? exp)%Z in
  let usage := classify_usage pra_L5 in
  let volatility := classify_volatility pts_cv min_cv in
  let role := classify_role starter usage in
  let style := classify_style reb_per_min ast_per_min pts_L5 in
  let garbage_profile :=
    if negb starter && is_young && negb (String.eqb volatility "low") then "high"
    else if negb starter && String.eqb volatility "medium" then "medium"
    else "low" in
  {| player_id := match df_l5_row with Some r => PLAYER_ID r | None => None end;
     name := name; team := team_abbr; position := pos;
     is_starter := starter; status := status;
     min_L5 := min_L5; ctx_expected_minutes := expected_minutes derived;
     pts_L5 := pts_L5; reb_L5 := reb_L5; ast_L5 := ast_L5; pra_L5 := pra_L5;
     reb_per_min := reb_per_min; ast_per_min := ast_per_min;
     reb_cv := reb_cv; ast_cv := ast_cv; pts_cv := pts_cv; min_cv := min_cv;
     exp := exp; is_young := is_young; is_veteran := is_veteran;
     usage := usage; volatility := volatility; role := role; style := style;
     garbage_time_profile := garbage_profile |}.

(** The five roles of the context builder. *)
Definition builder_roles : list string :=
  ["star"; "starter"; "bench_scorer"; "rotation"; "deep_bench"].

Lemma classify_role_in starter usage : In (classify_role starter usage) builder_roles.
Proof.
  unfold classify_role, builder_roles.
  repeat match goal with
         | |- context [if ?b then _ else _] => destruct b
         end; simpl; tauto.
Qed.

Lemma build_player_ctx_role_in entry row t :
  In (role (build_player_ctx entry row t)) builder_roles.
Proof. apply classify_role_in. Qed.

Example derive_out_example :
  derive_availability_and_expected_minutes
    {| PLAYER := Some "A"; POSITION := "C"; STARTER := true;
       STATUS := Some "Out (rest)" |} None true
  = {| availability := "out"; expected_minutes := qmax 0 0 |}.
Proof. reflexivity. Qed.

(** C6.  The derived record always has [expected_minutes >= 0]; its
    availability is ["out"] exactly when the lower-cased status contains
    one of [out], [ir], [injur], and then [expected_minutes] is [0]. *)
Theorem derive_expected_minutes_nonneg_out_zero
    (entry : roster_entry) (row : option l5_row) (treat : bool) :
  let d := derive_availability_and_expected_minutes entry row treat in
  0 <= expected_minutes d /\
  (availability d = "out" <->
   Str.contains_any ["out"; "ir"; "injur"]
     (Str.lower (default "" (STATUS entry))) = true) /\
  (availability d = "out" -> expected_minutes d == 0).
Proof.
  unfold derive_availability_and_expected_minutes, out_keywords.
  destruct (Str.contains_any _ _) eqn:Hout; cbn zeta.
  - cbn. repeat split; easy.
  - destruct (STARTER entry); [| destruct (_ && _)]; cbn;
      (split; [apply qmax_l | split; [split; discriminate | discriminate]]).
Qed.

End PlayerContext.

(** ** Player-context dicts as the enhancers see them

    The pace adjuster and the vacuum analyzer test their argument for
    emptiness and its keys for presence, so here the context is a finite
    map from keys to Python values. *)

Record boost_meta : Type := {
  active : bool;
  boost_factor : Q;
  meta_reason : string;
  replaces : option string
}.

Inductive pyval : Type :=
| VNum (q : Q)
| VBool (b : bool)
| VStr (s : string)
| VNone
| VBoost (m : boost_meta).

Abbreviation dict := (gmap string pyval).

(** [not d] for a dict. *)
Definition dict_empty (d : dict) : bool :=
  match map_to_list d with
  | [] => true
  | _ :: _ => false
  end.

(** The operand of an arithmetic operation or of a comparison with a
    number: numbers and booleans are accepted, anything else raises. *)
Definition num_of (v : pyval) : result Q :=
  match v with
  | VNum q => Ok q
  | VBool b => Ok (if b then 1%Q else 0%Q)
  | _ => Raise (TypeError "unsupported operand")
  end.

(** One turn of the loops
    [for stat in stats: if stat in d (and guard d[stat]):
       d[stat] = round(d[stat] * factor, 1)]. *)
Definition scale_stat (guard : Q -> bool) (factor : Q) (d : dict) (stat : string)
  : result dict :=
  match d !! stat with
  | None => Ok d
  | Some v =>
      q <- num_of v ;;
      if guard q
      then Ok (<[stat := VNum (Num.py_round (q * factor) 1)]> d)
      else Ok d
  end.

Definition volume_stats : list string := ["pts_L5"; "reb_L5"; "ast_L5"; "pra_L5"].

Lemma dict_empty_true (d : dict) : dict_empty d = true <-> d = ∅.
Proof.
  unfold dict_empty. destruct (map_to_list d) eqn:E.
  - apply map_to_list_empty_iff in E. split; auto.
  - split; [discriminate |]. intros ->. rewrite map_to_list_empty in E. discriminate.
Qed.

Lemma dict_empty_false (d : dict) : d ≠ ∅ -> dict_empty d = false.
Proof.
  intros Hne. destruct (dict_empty d) eqn:E; [| reflexivity].
  apply dict_empty_true in E. contradiction.
Qed.

(** What the scaling loop leaves in the dict: keys outside [stats] are
    untouched, a numeric stat that passes the guard is replaced by its
    scaled and rounded value, the others stay as they are. *)
Definition scaled (guard : Q -> bool) (factor : Q) (o : option pyval) : option pyval :=
  match o with
  | Some (VNum q) =>
      if guard q then Some (VNum (Num.py_round (q * factor) 1)) else Some (VNum q)
  | _ => o
  end.

Definition numeric_or_absent (d : dict) (k : string) : Prop :=
  d !! k = None \/ exists q, d !! k = Some (VNum q).

(** The same, without fixing the way a decimal tie falls: [o'] is what
    the loop leaves where it found [o]. *)
Definition scaled_to (guard : Q -> bool) (factor : Q) (o o' : option pyval) : Prop :=
  match o with
  | Some (VNum q) =>
      if guard q
      then exists y, o' = Some (VNum y) /\ Num.rounds_to 1 (q * factor) y
      else o' = o
  | _ => o' = o
  end.

Lemma scaled_scaled_to guard (factor factor' : Q) (o : option pyval) :
  (factor == factor')%Q -> scaled_to guard factor o (scaled guard factor' o).
Proof.
  intros E. unfold scaled_to, scaled. destruct o as [[q | | | |] |]; try reflexivity.
  destruct (guard q); [| reflexivity].
  eexists. split; [reflexivity |]. apply Num.py_round_rounds_to.
  now rewrite E.
Qed.

Lemma scale_stat_ok guard factor (d : dict) stat :
  numeric_or_absent d stat ->
  exists d', scale_stat guard factor d stat = Ok d' /\
             d' !! stat = scaled guard factor (d !! stat) /\
             forall k, k ≠ stat -> d' !! k = d !! k.
Proof.
  intros [Hn | [q Hq]]; unfold scale_stat, scaled.
  - rewrite Hn. exists d. rewrite Hn. auto.
  - rewrite Hq. cbn. destruct (guard q) eqn:G.
    + eexists. split; [reflexivity |]. split.
      * now rewrite lookup_insert_eq.
      * intros k Hk. now rewrite lookup_insert_ne.
    + exists d. rewrite Hq. auto.
Qed.

Lemma scale_stats_ok guard factor (stats : list string) :
  forall d : dict,
  NoDup stats ->
  (forall k, In k stats -> numeric_or_absent d k) ->
  exists d', foldM (scale_stat guard factor) stats d = Ok d' /\
             (forall k, In k stats -> d' !! k = scaled guard factor (d !! k)) /\
             (forall k, ~ In k stats -> d' !! k = d !! k).
Proof.
  induction stats as [| s stats IH]; intros d Hnd Hnum.
  - exists d. cbn. split; [reflexivity |]. split; [intros k [] | auto].
  - apply NoDup_cons in Hnd as [Hs Hnd].
    destruct (scale_stat_ok guard factor d s) as (d1 & E1 & Hs1 & Ho1).
    { apply Hnum. now left. }
    destruct (IH d1 Hnd) as (d2 & E2 & Hin2 & Hout2).
    { intros k Hk. unfold numeric_or_absent.
      assert (k ≠ s) by (intros ->; apply Hs; now apply list_elem_of_In).
      rewrite (Ho1 k) by assumption. apply Hnum. now right. }
    exists d2. cbn. rewrite E1. cbn. split; [exact E2 |]. split.
    + intros k [-> | Hk].
      * rewrite Hout2; [exact Hs1 |]. intros Hk. apply Hs. now apply list_elem_of_In.
      * rewrite (Hin2 k Hk).
        assert (k ≠ s) by (intros ->; apply Hs; now apply list_elem_of_In).
        now rewrite Ho1.
    + intros k Hk. rewrite Hout2 by (intros H; apply Hk; now right).
      apply Ho1. intros ->. apply Hk. now left.
Qed.

Lemma volume_stats_NoDup : NoDup volume_stats.
Proof. apply (bool_decide_unpack _). by vm_compute. Qed.

(** ** modules/new_modules/vacuum_matrix.py *)

Module VacuumMatrix.

Import Num.
Local Open Scope Q_scope.

(** [self._is_player_out(player)] *)
Definition _is_player_out (player : roster_entry) : bool :=
  let status := Str.lower (default "" (STATUS player)) in
  Str.contains_any ["out"; "injured"; "ir"] status.

Record absent_starter : Type := {
  as_name : option string;
  as_position : string
}.

Record boost_info : Type := {
  reason : string;
  boost : Q;
  absent_starter_name : option string;
  info_position : string
}.

(** [f"{name}"] for a name read with [.get("PLAYER")]. *)
Definition fmt_name (o : option string) : string := default "None" o.

Definition absent_starters (team_roster : list roster_entry) : list absent_starter :=
  map (fun player => {| as_name := PLAYER player;
                        as_position := Str.upper (POSITION player) |})
      (List.filter (fun player => STARTER player && _is_player_out player) team_roster).

(** The test of the inner loop: same position, not a starter, not out. *)
Definition is_substitute (position : string) (player : roster_entry) : bool :=
  String.eqb (Str.upper (POSITION player)) position &&
  negb (STARTER player) && negb (_is_player_out player).

Definition opportunity (starter : absent_starter) : boost_info :=
  {| reason := "Substituto de " ++ fmt_name (as_name starter);
     boost := 125 # 100;
     absent_starter_name := as_name starter;
     info_position := as_position starter |}.

(** The inner loop over the roster, for one absent starter. *)
Definition add_substitutes (team_roster : list roster_entry)
    (vacuum_opportunities : gmap (option string) boost_info)
    (starter : absent_starter) : gmap (option string) boost_info :=
  fold_left
    (fun acc player =>
       if is_substitute (as_position starter) player then
         match acc !! PLAYER player with
         | Some _ => acc
         | None => <[PLAYER player := opportunity starter]> acc
         end
       else acc)
    team_roster vacuum_opportunities.

Definition analyze_team_vacuum (team_roster : list roster_entry)
  : gmap (option string) boost_info :=
  match team_roster with
  | [] => ∅
  | _ =>
      match absent_starters team_roster with
      | [] => ∅
      | starters => fold_left (add_substitutes team_roster) starters ∅
      end
  end.

Definition stats_to_boost : list string := ["pts_L5"; "reb_L5"; "ast_L5"; "pra_L5"].

(** [player_ctx.get("name")] as a key of the vacuum table, whose keys are
    strings or [None]: a number is never among them, a dict is not
    hashable. *)
Definition name_key (player_ctx : dict) : result (option (option string)) :=
  match player_ctx !! "name" with
  | None | Some VNone => Ok (Some None)
  | Some (VStr s) => Ok (Some (Some s))
  | Some (VNum _) | Some (VBool _) => Ok None
  | Some (VBoost _) => Raise (TypeError "unhashable type: 'dict'")
  end.

Definition apply_vacuum_boost (player_ctx : dict)
    (vacuum_data : gmap (option string) boost_info) : result dict :=
  if dict_empty player_ctx || bool_decide (dom vacuum_data = ∅) then Ok player_ctx
  else
    key <- name_key player_ctx ;;
    match key ≫= (fun k => vacuum_data !! k) with
    | Some boost_info =>
        boosted <- foldM (scale_stat (fun _ => true) (boost boost_info))
                         stats_to_boost player_ctx ;;
        Ok (<["vacuum_boost" :=
               VBoost {| active := true;
                         boost_factor := boost boost_info;
                         meta_reason := reason boost_info;
                         replaces := absent_starter_name boost_info |}]> boosted)
    | None => Ok player_ctx
    end.

(** Every entry of the table comes from an absent starter and a
    substitute of that name at the starter's position. *)
Definition justified (team_roster : list roster_entry) (starters : list absent_starter)
    (t : gmap (option string) boost_info) : Prop :=
  forall k v, t !! k = Some v ->
    exists st p, In st starters /\ In p team_roster /\
                 is_substitute (as_position st) p = true /\
                 PLAYER p = k /\ v = opportunity st.

Lemma add_substitutes_spec (roster : list roster_entry) (st : absent_starter) :
  forall t : gmap (option string) boost_info,
  let t' := add_substitutes roster t st in
  (forall k v, t !! k = Some v -> t' !! k = Some v) /\
  (forall k v, t' !! k = Some v ->
     t !! k = Some v \/
     (v = opportunity st /\
      exists p, In p roster /\ is_substitute (as_position st) p = true /\ PLAYER p = k)) /\
  (forall p, In p roster -> is_substitute (as_position st) p = true ->
     is_Some (t' !! PLAYER p)).
Proof.
  unfold add_substitutes. induction roster as [| q roster IH]; intros t; cbn.
  - repeat split; auto. intros p [].
  - set (t1 := if is_substitute (as_position st) q
               then match t !! PLAYER q with
                    | Some _ => t | None => <[PLAYER q := opportunity st]> t end
               else t).
    destruct (IH t1) as (Hkeep & Hfrom & Hall).
    assert (Hk1 : forall k v, t !! k = Some v -> t1 !! k = Some v).
    { intros k v Hkv. subst t1. destruct (is_substitute _ q); [| exact Hkv].
      destruct (t !! PLAYER q) eqn:E; [exact Hkv |].
      rewrite lookup_insert_ne; [exact Hkv | congruence]. }
    assert (Hf1 : forall k v, t1 !! k = Some v ->
              t !! k = Some v \/
              (v = opportunity st /\ is_substitute (as_position st) q = true /\ PLAYER q = k)).
    { intros k v Hkv. subst t1. destruct (is_substitute _ q) eqn:Es; [| now left].
      destruct (t !! PLAYER q) eqn:E; [now left |].
      destruct (decide (PLAYER q = k)) as [<- | Hne].
      - rewrite lookup_insert_eq in Hkv. right. split; [congruence | auto].
      - rewrite lookup_insert_ne in Hkv by exact Hne. now left. }
    assert (Hq1 : is_substitute (as_position st) q = true -> is_Some (t1 !! PLAYER q)).
    { intros Es. subst t1. rewrite Es. destruct (t !! PLAYER q) eqn:E.
      - rewrite E. eauto.
      - rewrite lookup_insert_eq. eauto. }
    split; [| split].
    + intros k v Hkv. apply Hkeep, Hk1, Hkv.
    + intros k v Hkv. destruct (Hfrom k v Hkv) as [H1 | (-> & p & Hp & Hs & Hn)].
      * destruct (Hf1 k v H1) as [? | (-> & Hs & Hn)]; [now left |].
        right. split; [reflexivity |]. exists q. auto.
      * right. split; [reflexivity |]. exists p. auto.
    + intros p [<- | Hp] Hs.
      * destruct (Hq1 Hs) as [v Hv]. exists v. now apply Hkeep.
      * now apply Hall.
Qed.

Lemma fold_add_substitutes_spec (roster : list roster_entry) :
  forall (starters all : list absent_starter) (t : gmap (option string) boost_info),
  (forall st, In st starters -> In st all) ->
  justified roster all t ->
  let t' := fold_left (add_substitutes roster) starters t in
  justified roster all t' /\
  (forall k v, t !! k = Some v -> t' !! k = Some v) /\
  (forall st p, In st starters -> In p roster ->
     is_substitute (as_position st) p = true -> is_Some (t' !! PLAYER p)).
Proof.
  induction starters as [| st starters IH]; intros all t Hsub Hj; cbn.
  - repeat split; auto. intros st p [].
  - destruct (add_substitutes_spec roster st t) as (Hkeep & Hfrom & Hall).
    destruct (IH all (add_substitutes roster t st)) as (Hj' & Hkeep' & Hall').
    { intros s Hs. apply Hsub. now right. }
    { intros k v Hkv. destruct (Hfrom k v Hkv) as [H1 | (-> & p & Hp & Hs & Hn)].
      - now apply Hj.
      - exists st, p. repeat split; auto. apply Hsub. now left. }
    split; [exact Hj' | split].
    + intros k v Hkv. apply Hkeep', Hkeep, Hkv.
    + intros s p [<- | Hs] Hp Hsb.
      * destruct (Hall p Hp Hsb) as [v Hv]. exists v. now apply Hkeep'.
      * now apply (Hall' s p).
Qed.

(** The table of [analyze_team_vacuum]: its entries are justified, and
    every substitute of an absent starter has an entry. *)
Lemma analyze_team_vacuum_spec (roster : list roster_entry) :
  justified roster (absent_starters roster) (analyze_team_vacuum roster) /\
  (forall st p, In st (absent_starters roster) -> In p roster ->
     is_substitute (as_position st) p = true ->
     is_Some (analyze_team_vacuum roster !! PLAYER p)).
Proof.
  unfold analyze_team_vacuum. destruct roster as [| r0 roster].
  - split; [intros k v Hkv; now rewrite lookup_empty in Hkv | intros st p _ []].
  - set (R := r0 :: roster). destruct (absent_starters R) as [| s0 ss] eqn:E.
    + split; [intros k v Hkv; now rewrite lookup_empty in Hkv | intros st p []].
    + destruct (fold_add_substitutes_spec R (s0 :: ss) (s0 :: ss) ∅) as (Hj & _ & Hall).
      * auto.
      * intros k v Hkv. now rewrite lookup_empty in Hkv.
      * split; [exact Hj | exact Hall].
Qed.

Example status_injury_is_out_for_builder :
  PlayerContext.availability
    (PlayerContext.derive_availability_and_expected_minutes
       {| PLAYER := Some "A"; POSITION := "C"; STARTER := true;
          STATUS := Some "Injury" |} None true) = "out".
Proof. reflexivity. Qed.

(** C9.  A status that contains [injur] but none of [out], [injured],
    [ir] (here ["Injury"]) is classified ["out"] by the context builder and
    not out by the vacuum analyzer's test, which looks for the keyword
    [injured]. *)
Theorem vacuum_is_player_out_misses_injur :
  let entry := {| PLAYER := Some "A"; POSITION := "C"; STARTER := true;
                  STATUS := Some "Injury" |} in
  Str.contains_any ["out"; "ir"; "injur"] (Str.lower (default "" (STATUS entry))) = true /\
  PlayerContext.availability
    (PlayerContext.derive_availability_and_expected_minutes entry None true) = "out" /\
  _is_player_out entry = false /\
  absent_starters [entry] = [].
Proof. repeat split. Qed.


Lemma is_substitute_position position player :
  is_substitute position player = true -> Str.upper (POSITION player) = position.
Proof.
  unfold is_substitute. intros H.
  apply andb_prop in H as [H _]. apply andb_prop in H as [H _].
  now apply String.eqb_eq.
Qed.








(** A starting center listed with the status [Injury] is not out for the
    analyzer (C9), and the bench center gets nothing. *)
Example injury_starter_gets_no_boost :
  analyze_team_vacuum
    [ {| PLAYER := Some "Starter Center"; POSITION := "C"; STARTER := true;
         STATUS := Some "Injury" |};
      {| PLAYER := Some "Bench Center"; POSITION := "C"; STARTER := false;
         STATUS := Some "Active" |} ] = ∅.
Proof. reflexivity. Qed.

End VacuumMatrix.

(** ** modules/new_modules/pace_adjuster.py *)

Module PaceAdjuster.

Import Num.
Local Open Scope Q_scope.

(** [modules.config.TEAM_PACE_DATA] *)
Definition TEAM_PACE_DATA : gmap string Q :=
  list_to_map
    [ ("ATL", 1012 # 10); ("BOS", 998 # 10); ("BKN", 985 # 10); ("CHA", 1005 # 10);
      ("CHI", 992 # 10); ("CLE", 980 # 10); ("DAL", 1008 # 10); ("DEN", 1021 # 10);
      ("DET", 1003 # 10); ("GSW", 1025 # 10); ("HOU", 1017 # 10); ("IND", 1032 # 10);
      ("LAC", 1009 # 10); ("LAL", 1013 # 10); ("MEM", 995 # 10); ("MIA", 988 # 10);
      ("MIL", 1010 # 10); ("MIN", 1002 # 10); ("NOP", 1014 # 10); ("NYK", 991 # 10);
      ("OKC", 1023 # 10); ("ORL", 994 # 10); ("PHI", 1007 # 10); ("PHX", 1016 # 10);
      ("POR", 1020 # 10); ("SAC", 1031 # 10); ("SAS", 1001 # 10); ("TOR", 1019 # 10);
      ("UTA", 1015 # 10); ("WAS", 1022 # 10) ].

(** [self.pace_data.get(team, 100.0)]; the team may be [None]. *)
Definition team_pace (pace_data : gmap string Q) (team : option string) : Q :=
  match team with
  | Some t => default 100 (pace_data !! t)
  | None => 100
  end.

Definition calculate_game_pace (pace_data : gmap string Q)
    (home_team away_team : option string) : Q :=
  (team_pace pace_data home_team + team_pace pace_data away_team) / 2.

(** Truthiness of a team argument: [None] and [""] are falsy. *)
Definition truthy (team : option string) : bool :=
  match team with
  | Some t => Str.nonempty t
  | None => false
  end.

Definition adjust_player_stats (pace_data : gmap string Q) (player_stats : dict)
    (home_team away_team : option string) : result dict :=
  if dict_empty player_stats || negb (truthy home_team) || negb (truthy away_team)
  then Ok player_stats
  else
    let game_pace := calculate_game_pace pace_data home_team away_team in
    let pace_factor := game_pace / 100 in
    adjusted <- foldM (scale_stat (fun v => qltb 0 v) pace_factor)
                      volume_stats player_stats ;;
    Ok (<["pace_factor" := VNum (py_round pace_factor 3)]>
          (<["game_pace" := VNum (py_round game_pace 1)]>
             (<["pace_adjusted" := VBool true]> adjusted))).

(** [adjust_team_context]: the pace category. *)
Definition pace_category (game_pace : Q) : string :=
  if qleb 102 game_pace then "FAST"
  else if qleb game_pace 98 then "SLOW"
  else "AVERAGE".

Example neutral_pace_example :
  match adjust_player_stats TEAM_PACE_DATA
          (<["pts_L5" := VNum (2004 # 100)]> ∅) (Some "XXX") (Some "YYY") with
  | Ok adjusted =>
      match adjusted !! "pts_L5", adjusted !! "pace_factor" with
      | Some (VNum r), Some (VNum f) => r == 20 /\ f == 1
      | _, _ => False
      end
  | Raise _ => False
  end.
Proof. vm_compute. split; reflexivity. Qed.




End PaceAdjuster.

(** ** Stable sorting, as Python's [sorted] with a key

    [before y x] says that [y] must come strictly before [x]; elements
    that compare equal keep their original order. *)

Section Sorting.

Context {A : Type} (before : A -> A -> bool).

Fixpoint insert_sorted (x : A) (l : list A) : list A :=
  match l with
  | [] => [x]
  | y :: l' => if before y x then y :: insert_sorted x l' else x :: l
  end.

Fixpoint sort_by (l : list A) : list A :=
  match l with
  | [] => []
  | x :: l' => insert_sorted x (sort_by l')
  end.

Lemma insert_sorted_perm x l : insert_sorted x l ≡ₚ x :: l.
Proof.
  induction l as [| y l IH]; cbn; [reflexivity |].
  destruct (before y x); [| reflexivity].
  rewrite IH. apply Permutation_swap.
Qed.

Lemma sort_by_perm l : sort_by l ≡ₚ l.
Proof.
  induction l as [| x l IH]; cbn; [reflexivity |].
  rewrite insert_sorted_perm. now rewrite IH.
Qed.

Lemma sort_by_In l x : In x (sort_by l) <-> In x l.
Proof.
  rewrite <- !list_elem_of_In. now rewrite sort_by_perm.
Qed.

Lemma sort_by_length l : length (sort_by l) = length l.
Proof. now rewrite sort_by_perm. Qed.

End Sorting.

(** [sorted(l, key=key, reverse=True)] and [sorted(l, key=key)] *)
Definition sorted_desc {A} (key : A -> Q) (l : list A) : list A :=
  sort_by (fun y x => Num.qltb (key x) (key y)) l.

Definition sorted_asc {A} (key : A -> Q) (l : list A) : list A :=
  sort_by (fun y x => Num.qltb (key y) (key x)) l.

(** ** The dicts exchanged by the thesis and strategy engines *)

Module Data.

(** The player context read by the thesis engine; every key but [name]
    is read with [.get(key, default)]. *)
Record thesis_ctx : Type := {
  name : option string;
  id : option string;
  pos : option string;
  player_class : option string;
  role : option string;
  team : option string;
  dvp_reb : option Q;
  dvp_ast : option Q;
  dvp_pts : option Q;
  usg : option Q;
  ast_pct : option Q;
  ppg : option Q;
  rpg : option Q;
  apg : option Q;
  pra : option Q;
  min_avg : option Q;
  last_5_ppg : option Q;
  last_5_rpg : option Q;
  last_5_apg : option Q;
  last_5_pra : option Q;
  last_5_min_avg : option Q
}.

Record game_ctx : Type := {
  home_team : option string;
  away_team : option string;
  spread : option Q;
  total : option Q;
  pace : option Q
}.

(** An evidence line: the text of the f-string and the values it
    formats (accents are dropped from the text). *)
Inductive fmt_arg : Type :=
| ArgNum (q : Q)
| ArgStr (s : string).

Record evidence : Type := {
  template : string;
  args : list fmt_arg
}.

(** A thesis dict, with the keys that the strategy engine and the ticket
    builder add to it or read from it ([th_player_id] is the key
    [player_id], [th_team] the key [team]).  The free-text key [reason] is
    left out. *)
Record thesis : Type := {
  player : option string;
  th_player_id : option string;
  market : option string;
  confidence : option Q;
  evidences : list evidence;
  weights : list (string * Q);
  thesis_type : option string;
  suggested_line : option Q;
  is_risk : option bool;
  player_ctx : option thesis_ctx;
  player_position : option string;
  th_team : option string;
  strategy : option string;
  (* added by categorize_theses *)
  category : option string;
  player_team : option string;
  player_role : option string;
  (* added by select_for_category *)
  strategy_category : option string;
  selection_score : option Q;
  (* added by apply_correlation_adjustments *)
  adjusted_confidence : option Q;
  score_adjustment : option Q;
  adjustments : option (list string);
  (* added by compose_recommendations *)
  identified_strategy : option string;
  strategy_description : option string
}.

End Data.

(** ** modules/new_modules/thesis_engine.py *)

Module ThesisEngine.

Import Num Data.
Local Open Scope Q_scope.

Definition confidence_multipliers (thesis_type : string) : Q :=
  if String.eqb thesis_type "ValueHunter" then 9 # 10
  else if String.eqb thesis_type "PaceBoost" then 85 # 100
  else if String.eqb thesis_type "BlowoutRisk" then 8 # 10
  else 1.

(** [self.weights] *)
Definition weight_table : list (string * Q) :=
  [("DvP", 3 # 10); ("Pace", 2 # 10); ("Role", 15 # 100);
   ("PlayerClass", 2 # 10); ("Usage", 15 # 100)].

Fixpoint assoc (k : string) (l : list (string * Q)) : option Q :=
  match l with
  | [] => None
  | (k', v) :: l' => if String.eqb k k' then Some v else assoc k l'
  end.

Definition position_overrides : list (string * string) :=
  [("LeBron James", "SF"); ("Nikola Jokic", "C"); ("Luka Doncic", "PG");
   ("Giannis Antetokounmpo", "PF")].

Definition high_pace : Q := 100.
Definition big_spread : Q := 12.
Definition min_usage : Q := 18.

Fixpoint get_player_position_in (table : list (string * string))
    (player_name default_pos : string) : string :=
  match table with
  | [] => default_pos
  | (k, v) :: table' =>
      if String.eqb player_name k then v
      else get_player_position_in table' player_name default_pos
  end.

Definition get_player_position : string -> string -> string :=
  get_player_position_in position_overrides.

(** [calculate_dvp_factor]; both settings of [is_favorable] compute the
    same value.  A NaN argument is not represented: the callers treat it
    like a value that is not above 1.0 (no factor, no evidence). *)
Definition calculate_dvp_factor (dvp_value : Q) (is_favorable : bool) : Q :=
  if is_favorable then
    if qltb 1 dvp_value then 1 + (dvp_value - 1) * (3 # 10)
    else (7 # 10) + dvp_value * (3 # 10)
  else
    if qltb dvp_value 1 then (7 # 10) + dvp_value * (3 # 10)
    else 1 + (dvp_value - 1) * (3 # 10).

(** The shared ending of the line suggestions. *)
Definition role_multiplier (role : string) : Q :=
  if String.eqb role "starter" then 1
  else if String.eqb role "rotation" then 9 # 10
  else 8 # 10.

Definition suggest_line (season last_5 : option Q) (ctx : thesis_ctx) : Q :=
  let season_avg := default 0 season in
  let last_5_avg := default season_avg last_5 in
  let recent_form := qmax season_avg last_5_avg in
  py_round (recent_form * role_multiplier (default "bench" (role ctx))) 1.

Definition suggest_points_line (ctx : thesis_ctx) : Q :=
  suggest_line (ppg ctx) (last_5_ppg ctx) ctx.
Definition suggest_rebound_line (ctx : thesis_ctx) : Q :=
  suggest_line (rpg ctx) (last_5_rpg ctx) ctx.
Definition suggest_assist_line (ctx : thesis_ctx) : Q :=
  suggest_line (apg ctx) (last_5_apg ctx) ctx.
Definition suggest_pra_line (ctx : thesis_ctx) : Q :=
  suggest_line (pra ctx) (last_5_pra ctx) ctx.

(** [base += (value - 1.0) * self.weights[type]] over the factors whose
    type is in the weight table. *)
Definition weighted_confidence (base : Q) (factors : list (string * Q)) : Q :=
  fold_left (fun acc f =>
               match assoc (fst f) weight_table with
               | Some w => acc + (snd f - 1) * w
               | None => acc
               end) factors base.

(** [base += (value - 1.0) * w] over all factors. *)
Definition flat_confidence (base w : Q) (factors : list (string * Q)) : Q :=
  fold_left (fun acc f => acc + (snd f - 1) * w) factors base.

(** The dict literal returned by a generator. *)
Definition mk_thesis (ctx : thesis_ctx) (player_name market : string) (conf : Q)
    (evid : list evidence) (factors : list (string * Q)) (thesis_type : string)
    (line : option Q) (risk : option bool) : thesis :=
  {| player := Some player_name; th_player_id := Some (default "" (id ctx));
     market := Some market; confidence := Some (py_round conf 2);
     evidences := evid; weights := factors; thesis_type := Some thesis_type;
     suggested_line := line; is_risk := risk;
     player_ctx := None; player_position := None;
     th_team := None; strategy := None;
     category := None; player_team := None; player_role := None;
     strategy_category := None; selection_score := None;
     adjusted_confidence := None; score_adjustment := None; adjustments := None;
     identified_strategy := None; strategy_description := None |}.

Definition ev (template : string) (args : list fmt_arg) : evidence :=
  {| template := template; args := args |}.

Definition when {A} (b : bool) (l : list A) : list A := if b then l else [].

Definition generate_big_rebound_thesis (ctx : thesis_ctx) (game : game_ctx)
  : result (option thesis) :=
  player_name <- index "name" (name ctx) ;;
  let pos := get_player_position player_name (default "" (pos ctx)) in
  if negb (Str.mem pos ["PF"; "C"]) then Ok None else
  let player_class := default "" (player_class ctx) in
  if negb (Str.contains "GLASS_BANGER" player_class) &&
     negb (Str.contains "REBOUNDER" player_class) then Ok None else
  let dvp_reb := default 1 (dvp_reb ctx) in
  let dvp_factor := calculate_dvp_factor dvp_reb true in
  let pace := default 100 (pace game) in
  let pace_factor := 1 + (pace - 100) * (1 # 100) in
  let role := default "bench" (role ctx) in
  let role_factor := if String.eqb role "starter" then 1 else 9 # 10 in
  let class_factor := if Str.contains "GLASS_BANGER" player_class then 12 # 10 else 1 in
  let usage := default 0 (usg ctx) in
  let usage_factor := 1 + (usage - 18) * (1 # 100) in
  let evidences :=
    (when (qltb 1 dvp_reb) [ev "DvP REB favoravel: {:.2f}" [ArgNum dvp_reb]] ++
    when (qltb high_pace pace) [ev "Pace alto: {:.1f}" [ArgNum pace]] ++
    [ev "Role: {}" [ArgStr role]] ++
    when (qltb min_usage usage) [ev "USG% adequado: {:.1f}%" [ArgNum usage]])%list in
  let confidence_factors :=
    (when (qltb 1 dvp_reb) [("DvP", dvp_factor)] ++
    when (qltb high_pace pace) [("Pace", qmin pace_factor (13 # 10))] ++
    [("Role", role_factor)] ++
    [("PlayerClass", class_factor)] ++
    when (qltb min_usage usage) [("Usage", qmin usage_factor (12 # 10))])%list in
  match confidence_factors with
  | [] => Ok None
  | _ =>
      let base_confidence := weighted_confidence (5 # 10) confidence_factors in
      let confidence :=
        clamp (base_confidence * confidence_multipliers "BigRebound") 0 1 in
      Ok (Some (mk_thesis ctx player_name "REB" confidence evidences
                  confidence_factors "BigRebound"
                  (Some (suggest_rebound_line ctx)) None))
  end.

Definition generate_assist_matchup_thesis (ctx : thesis_ctx) (game : game_ctx)
  : result (option thesis) :=
  player_name <- index "name" (name ctx) ;;
  let pos := get_player_position player_name (default "" (pos ctx)) in
  if negb (Str.mem pos ["PG"; "SG"]) then Ok None else
  let player_class := default "" (player_class ctx) in
  if negb (Str.contains "FLOOR_GENERAL" player_class) &&
     negb (Str.contains "PLAYMAKER" player_class) then Ok None else
  let spread := qabs (default 0 (spread game)) in
  let spread_factor :=
    if qleb spread 5 then 12 # 10 else if qleb spread 8 then 1 else 8 # 10 in
  let spread_evidence :=
    if qleb spread 5 then ev "Jogo parelho (spread: {})" [ArgNum spread]
    else if qleb spread 8 then ev "Spread moderado: {}" [ArgNum spread]
    else ev "Spread alto: {}" [ArgNum spread] in
  let ast_pct := default 0 (ast_pct ctx) in
  let ast_factor := 1 + (ast_pct - 20) * (1 # 100) in
  let dvp_ast := default 1 (dvp_ast ctx) in
  let dvp_factor := calculate_dvp_factor dvp_ast true in
  let role := default "bench" (role ctx) in
  let role_factor := if String.eqb role "starter" then 11 # 10 else 9 # 10 in
  let evidences :=
    ([spread_evidence] ++
    when (qltb 20 ast_pct) [ev "AST% alto: {:.1f}%" [ArgNum ast_pct]] ++
    when (qltb 1 dvp_ast) [ev "DvP AST favoravel: {:.2f}" [ArgNum dvp_ast]])%list in
  let confidence_factors :=
    ([("GameContext", spread_factor)] ++
    when (qltb 20 ast_pct) [("PlayerClass", qmin ast_factor (13 # 10))] ++
    when (qltb 1 dvp_ast) [("DvP", dvp_factor)] ++
    [("Role", role_factor)])%list in
  match confidence_factors with
  | [] => Ok None
  | _ =>
      let base_confidence := weighted_confidence (5 # 10) confidence_factors in
      let confidence :=
        clamp (base_confidence * confidence_multipliers "AssistMatchup") 0 1 in
      Ok (Some (mk_thesis ctx player_name "AST" confidence evidences
                  confidence_factors "AssistMatchup"
                  (Some (suggest_assist_line ctx)) None))
  end.

Definition generate_scorer_line_thesis (ctx : thesis_ctx) (game : game_ctx)
  : result (option thesis) :=
  player_name <- index "name" (name ctx) ;;
  let pos := get_player_position player_name (default "" (pos ctx)) in
  if negb (Str.mem pos ["SG"; "SF"]) then Ok None else
  let player_class := default "" (player_class ctx) in
  if negb (Str.contains "SCORER" player_class) &&
     negb (Str.contains "SHOOTER" player_class) &&
     negb (Str.contains "VOLUME" player_class) then Ok None else
  let dvp_pts := default 1 (dvp_pts ctx) in
  let dvp_factor := calculate_dvp_factor dvp_pts true in
  let usage := default 0 (usg ctx) in
  let usage_factor := 1 + (usage - 22) * (15 # 1000) in
  let class_factor := if Str.contains "SCORER" player_class then 12 # 10 else 1 in
  let total := default 220 (total game) in
  let total_factor := if qltb 225 total then 11 # 10 else 1 in
  let season_ppg := default 0 (ppg ctx) in
  let recent_ppg := default season_ppg (last_5_ppg ctx) in
  let momentum := qltb (season_ppg * (11 # 10)) recent_ppg in
  let form_factor := if momentum then 115 # 100 else 1 in
  let evidences :=
    (when (qltb 1 dvp_pts) [ev "DvP PTS favoravel: {:.2f}" [ArgNum dvp_pts]] ++
    when (qltb 22 usage) [ev "USG% alto: {:.1f}%" [ArgNum usage]] ++
    when (qltb 225 total) [ev "Total alto: {}" [ArgNum total]] ++
    when momentum [ev "Momentum positivo: {:.1f} PPG ultimos 5 jogos" [ArgNum recent_ppg]])%list in
  let confidence_factors :=
    (when (qltb 1 dvp_pts) [("DvP", dvp_factor)] ++
    when (qltb 22 usage) [("Usage", qmin usage_factor (13 # 10))] ++
    [("PlayerClass", class_factor)] ++
    [("GameContext", total_factor)] ++
    [("Form", form_factor)])%list in
  let base_confidence := weighted_confidence (55 # 100) confidence_factors in
  let confidence :=
    clamp (base_confidence * confidence_multipliers "ScorerLine") 0 1 in
  Ok (Some (mk_thesis ctx player_name "PTS" confidence evidences
              confidence_factors "ScorerLine"
              (Some (suggest_points_line ctx)) None)).

Definition generate_value_hunter_thesis (ctx : thesis_ctx) (game : game_ctx)
  : result (option thesis) :=
  let role := default "bench" (role ctx) in
  if negb (Str.mem role ["bench"; "rotation"]) then Ok None else
  let min_avg := default 0 (min_avg ctx) in
  if qltb min_avg 15 then Ok None else
  let pra := default 0 (pra ctx) in
  let pra_per_min := if qltb 0 min_avg then pra / min_avg else 0 in
  let pra_factor := 1 + (pra_per_min - (8 # 10)) * (5 # 10) in
  let last_5_min := default min_avg (last_5_min_avg ctx) in
  let rising := qltb (min_avg * (11 # 10)) last_5_min in
  let trend_factor := if rising then 12 # 10 else 1 in
  let spread := qabs (default 0 (spread game)) in
  let garbage := qltb big_spread spread in
  let garbage_factor := if garbage then 115 # 100 else 1 in
  let player_class := default "" (player_class ctx) in
  let specialist := Str.contains "BENCH" player_class || Str.contains "SPARK" player_class in
  let class_factor := if specialist then 115 # 100 else 1 in
  let evidences :=
    (when (qltb (8 # 10) pra_per_min) [ev "PRA/min alto: {:.2f}" [ArgNum pra_per_min]] ++
     when rising [ev "Minutos crescentes: {:.1f} ultimos 5 jogos" [ArgNum last_5_min]] ++
     when garbage [ev "Spread alto pode gerar garbage time: {}" [ArgNum spread]] ++
     when specialist [ev "Perfil de bench specialist" []])%list in
  let confidence_factors :=
    (when (qltb (8 # 10) pra_per_min) [("Efficiency", qmin pra_factor (13 # 10))] ++
     [("Trend", trend_factor)] ++
     [("GameContext", garbage_factor)] ++
     [("PlayerClass", class_factor)])%list in
  let base_confidence := flat_confidence (45 # 100) (2 # 10) confidence_factors in
  let confidence :=
    clamp (base_confidence * confidence_multipliers "ValueHunter") 0 1 in
  player_name <- index "name" (name ctx) ;;
  Ok (Some (mk_thesis ctx player_name "PRA" confidence evidences
              confidence_factors "ValueHunter"
              (Some (suggest_pra_line ctx)) None)).

Definition pace_benefited : list string := ["RUNNER"; "TRANSITION"; "ATHLETIC"; "YOUNG"].

Definition generate_pace_boost_thesis (ctx : thesis_ctx) (game : game_ctx)
  : result (option thesis) :=
  let pace := default 100 (pace game) in
  if qltb pace high_pace then Ok None else
  let player_class := default "" (player_class ctx) in
  if negb (Str.contains_any pace_benefited player_class) then Ok None else
  let pace_factor := 1 + (pace - 100) * (1 # 100) in
  let pace_matchup_factor := 11 # 10 in
  player_name <- index "name" (name ctx) ;;
  let pos := get_player_position player_name (default "" (pos ctx)) in
  let pos_factor :=
    if Str.mem pos ["PG"; "SG"] then 11 # 10
    else if Str.mem pos ["SF"] then 105 # 100
    else 1 in
  let evidences :=
    [ev "Pace muito alto: {:.1f}" [ArgNum pace];
     ev "Perfil beneficiado por jogo rapido" []] in
  let confidence_factors :=
    [("Pace", qmin pace_factor (13 # 10));
     ("Matchup", pace_matchup_factor);
     ("Position", pos_factor)] in
  let '(market, suggested_line) :=
    if Str.contains "PASS" player_class || Str.contains "PLAYMAKER" player_class
    then ("AST", suggest_assist_line ctx)
    else if Str.contains "SCORER" player_class
    then ("PTS", suggest_points_line ctx)
    else ("PRA", suggest_pra_line ctx) in
  let base_confidence := flat_confidence (5 # 10) (25 # 100) confidence_factors in
  let confidence :=
    clamp (base_confidence * confidence_multipliers "PaceBoost") 0 1 in
  Ok (Some (mk_thesis ctx player_name market confidence evidences
              confidence_factors "PaceBoost" (Some suggested_line) None)).

Definition generate_blowout_risk_thesis (ctx : thesis_ctx) (game : game_ctx)
  : result (option thesis) :=
  let signed_spread := default 0 (spread game) in
  let spread := qabs signed_spread in
  if qltb spread big_spread then Ok None else
  let player_team := default "" (team ctx) in
  let home := default "" (home_team game) in
  let away := default "" (away_team game) in
  let is_underdog :=
    if String.eqb player_team home && qltb 0 signed_spread then true
    else if String.eqb player_team away && qltb signed_spread 0 then true
    else false in
  let role := default "bench" (role ctx) in
  let '(risk_factor, role_evidence) :=
    if String.eqb role "starter" && is_underdog then
      (7 # 10, [ev "Starter em time underdog com spread alto" []])
    else if String.eqb role "starter" then
      (85 # 100, [ev "Starter em jogo com blowout esperado" []])
    else if Str.mem role ["bench"; "rotation"] && negb is_underdog then
      (11 # 10, [ev "Bench em time favorito pode ter garbage time" []])
    else (1, []) in
  let confidence_factors := [("BlowoutRisk", risk_factor)] in
  let evidences := (role_evidence ++ [ev "Spread muito alto: {}" [ArgNum spread]])%list in
  let confidence := 3 # 10 in
  player_name <- index "name" (name ctx) ;;
  Ok (Some (mk_thesis ctx player_name "RISK" confidence evidences
              confidence_factors "BlowoutRisk" None (Some true))).

Definition thesis_generators : list (thesis_ctx -> game_ctx -> result (option thesis)) :=
  [generate_big_rebound_thesis; generate_assist_matchup_thesis;
   generate_scorer_line_thesis; generate_value_hunter_thesis;
   generate_pace_boost_thesis; generate_blowout_risk_thesis].

(** The filter of [generate_all_theses]. *)
Definition keeps (t : thesis) : bool :=
  qltb (4 # 10) (default 0 (confidence t)) ||
  match thesis_type t with
  | Some ty => String.eqb ty "BlowoutRisk"
  | None => false
  end.

Definition generate_all_theses (ctx : thesis_ctx) (game : game_ctx)
  : result (list thesis) :=
  theses <- foldM (fun theses generator =>
                     o <- generator ctx game ;;
                     match o with
                     | Some t => if keeps t then Ok (theses ++ [t])%list else Ok theses
                     | None => Ok theses
                     end) thesis_generators [] ;;
  Ok (take 3 (sorted_desc (fun t => default 0 (confidence t)) theses)).

(** What every generated thesis satisfies, before the filter. *)
Definition generated (t : thesis) : Prop :=
  exists c, confidence t = Some c /\ 0 <= c /\ c <= 1 /\
    (thesis_type t = Some "BlowoutRisk" ->
     c == 3 # 10 /\ market t = Some "RISK" /\ is_risk t = Some true).

(** The invariant of the returned list. *)
Definition kept (t : thesis) : Prop :=
  exists c, confidence t = Some c /\
    ((4 # 10 < c /\ c <= 1) \/
     (thesis_type t = Some "BlowoutRisk" /\ c == 3 # 10 /\
      market t = Some "RISK" /\ is_risk t = Some true)).

(** A generator either declines, or returns a thesis with the property,
    or raises because the context has no [name]. *)
Definition yields (P : thesis -> Prop) (ctx : thesis_ctx)
    (r : result (option thesis)) : Prop :=
  match r with
  | Ok (Some t) => P t
  | Ok None => True
  | Raise _ => name ctx = None
  end.

Lemma mk_thesis_generated ctx n m x e f ty l r :
  ty ≠ "BlowoutRisk" ->
  generated (mk_thesis ctx n m (clamp x 0 1) e f ty l r).
Proof.
  intros Hty. exists (py_round (clamp x 0 1) 2). cbn.
  destruct (clamp_bounds x 0 1) as [H0 H1]; [lra |].
  destruct (py_round_unit _ 2 H0 H1) as [R0 R1].
  split; [reflexivity |]. split; [exact R0 |]. split; [exact R1 |].
  intros [= E]. contradiction.
Qed.

Lemma mk_thesis_risk_generated ctx n e f :
  generated (mk_thesis ctx n "RISK" (3 # 10) e f "BlowoutRisk" None (Some true)).
Proof.
  exists (py_round (3 # 10) 2). cbn.
  split; [reflexivity |]. split; [discriminate |]. split; [discriminate |].
  intros _. repeat split.
Qed.

Ltac gate :=
  lazymatch goal with
  | |- yields _ _ (if ?b then _ else _) => destruct b; [exact I |]
  | |- yields _ _ (bind (index _ ?o) _) =>
      destruct o eqn:?; [cbn [bind index] | assumption]
  | |- yields _ _ (match ?l with [] => _ | _ :: _ => _ end) => destruct l; [exact I |]
  | |- yields _ _ (let '(_, _) := ?p in _) => destruct p
  end.

Lemma generate_big_rebound_generated ctx game :
  yields generated ctx (generate_big_rebound_thesis ctx game).
Proof.
  unfold generate_big_rebound_thesis. cbv zeta. repeat gate.
  apply mk_thesis_generated. discriminate.
Qed.

Lemma generate_assist_matchup_generated ctx game :
  yields generated ctx (generate_assist_matchup_thesis ctx game).
Proof.
  unfold generate_assist_matchup_thesis. cbv zeta. repeat gate.
  apply mk_thesis_generated. discriminate.
Qed.

Lemma generate_scorer_line_generated ctx game :
  yields generated ctx (generate_scorer_line_thesis ctx game).
Proof.
  unfold generate_scorer_line_thesis. cbv zeta. repeat gate.
  apply mk_thesis_generated. discriminate.
Qed.

Lemma generate_value_hunter_generated ctx game :
  yields generated ctx (generate_value_hunter_thesis ctx game).
Proof.
  unfold generate_value_hunter_thesis. cbv zeta. repeat gate.
  apply mk_thesis_generated. discriminate.
Qed.

Lemma generate_pace_boost_generated ctx game :
  yields generated ctx (generate_pace_boost_thesis ctx game).
Proof.
  unfold generate_pace_boost_thesis. cbv zeta. repeat gate.
  apply mk_thesis_generated. discriminate.
Qed.

Lemma generate_blowout_risk_generated ctx game :
  yields generated ctx (generate_blowout_risk_thesis ctx game).
Proof.
  unfold generate_blowout_risk_thesis. cbv zeta. repeat gate.
  apply mk_thesis_risk_generated.
Qed.

Lemma generated_kept t : generated t -> keeps t = true -> kept t.
Proof.
  intros (c & Hc & H0 & H1 & Hrisk) Hk. exists c. split; [exact Hc |].
  unfold keeps in Hk. rewrite Hc in Hk. cbn in Hk.
  apply orb_prop in Hk as [Hk | Hk].
  - left. apply qltb_true in Hk. split; assumption.
  - right. destruct (thesis_type t) as [ty |]; [| discriminate].
    apply String.eqb_eq in Hk. subst ty. destruct (Hrisk eq_refl) as (? & ? & ?).
    auto.
Qed.

Lemma thesis_generators_generated ctx game :
  Forall (fun generator => yields generated ctx (generator ctx game)) thesis_generators.
Proof.
  unfold thesis_generators. repeat constructor.
  - apply generate_big_rebound_generated.
  - apply generate_assist_matchup_generated.
  - apply generate_scorer_line_generated.
  - apply generate_value_hunter_generated.
  - apply generate_pace_boost_generated.
  - apply generate_blowout_risk_generated.
Qed.

Lemma collect_kept ctx game (generators : list (thesis_ctx -> game_ctx -> result (option thesis))) :
  Forall (fun generator => yields generated ctx (generator ctx game)) generators ->
  forall theses, Forall kept theses ->
  match foldM (fun theses generator =>
                 o <- generator ctx game ;;
                 match o with
                 | Some t => if keeps t then Ok (theses ++ [t])%list else Ok theses
                 | None => Ok theses
                 end) generators theses with
  | Ok theses' => Forall kept theses'
  | Raise _ => name ctx = None
  end.
Proof.
  induction 1 as [| g gs Hg _ IH]; intros theses Hth; cbn [foldM]; [exact Hth |].
  unfold yields in Hg. destruct (g ctx game) as [[t |] | e]; cbn [bind].
  - destruct (keeps t) eqn:Hk; cbn [bind].
    + apply IH. apply Forall_app. split; [exact Hth |].
      constructor; [| constructor]. now apply generated_kept.
    + now apply IH.
  - now apply IH.
  - exact Hg.
Qed.

Example all_theses_example :
  match generate_all_theses
          {| name := Some "X"; id := None; pos := Some "PF";
             player_class := Some "GLASS_BANGER"; role := Some "starter";
             team := Some "MIA"; dvp_reb := Some (12 # 10); dvp_ast := None;
             dvp_pts := None; usg := None; ast_pct := None; ppg := None;
             rpg := Some (92 # 10); apg := None; pra := None; min_avg := None;
             last_5_ppg := None; last_5_rpg := None; last_5_apg := None;
             last_5_pra := None; last_5_min_avg := None |}
          {| home_team := Some "MIA"; away_team := Some "BOS";
             spread := Some (- (3)); total := None; pace := Some 105 |} with
  | Ok [t] =>
      market t = Some "REB" /\ thesis_type t = Some "BigRebound" /\
      match confidence t with Some c => c == 57 # 100 | None => False end /\
      map template (evidences t) =
        ["DvP REB favoravel: {:.2f}"; "Pace alto: {:.1f}"; "Role: {}"]
  | _ => False
  end.
Proof. vm_compute. repeat split. Qed.

(** C2.  Every thesis returned by [generate_all_theses] has a confidence
    above 0.4 and at most 1.0, or is the BlowoutRisk signal with
    confidence 0.3, market RISK and [is_risk] true; at most three theses
    are returned, and the only exception is the [KeyError] of a context
    without [name]. *)
Theorem generate_all_theses_confidence (ctx : thesis_ctx) (game : game_ctx) :
  match generate_all_theses ctx game with
  | Ok theses =>
      (length theses <= 3)%nat /\
      forall t, In t theses ->
        exists c, confidence t = Some c /\
          ((4 # 10 < c /\ c <= 1) \/
           (thesis_type t = Some "BlowoutRisk" /\ c == 3 # 10 /\
            market t = Some "RISK" /\ is_risk t = Some true))
  | Raise _ => name ctx = None
  end.
Proof.
  unfold generate_all_theses.
  pose proof (collect_kept ctx game thesis_generators
                (thesis_generators_generated ctx game) [] (Forall_nil_2 _)) as H.
  destruct (foldM _ thesis_generators []) as [theses | e]; cbn [bind]; [| exact H].
  split.
  - rewrite length_take. lia.
  - intros t Ht. apply list_elem_of_In in Ht. apply elem_of_take in Ht as (i & Ht & _).
    apply list_elem_of_lookup_2 in Ht. apply list_elem_of_In in Ht.
    apply sort_by_In in Ht. rewrite Forall_forall in H.
    apply H. now apply list_elem_of_In.
Qed.

End ThesisEngine.

(** ** modules/new_modules/strategy_engine.py *)

Module StrategyEngine.

Import Num Data.
Local Open Scope Q_scope.

Inductive category_name : Type := conservadora | ousada | banco | explosao.

Global Instance category_name_eq_dec : EqDecision category_name.
Proof. solve_decision. Defined.

Definition category_key (c : category_name) : string :=
  match c with
  | conservadora => "conservadora"
  | ousada => "ousada"
  | banco => "banco"
  | explosao => "explosao"
  end.

(** The order in which the four keys are inserted into, and so iterated
    from, the result dict. *)
Definition all_categories : list category_name :=
  [conservadora; ousada; banco; explosao].

Record category_config : Type := {
  min_confidence : Q;
  max_players : nat;
  allowed_markets : list string;
  allowed_roles : list string;
  priority_theses : list string
}.

(** [self.category_configs] *)
Definition category_configs (c : category_name) : category_config :=
  match c with
  | conservadora =>
      {| min_confidence := 65 # 100; max_players := 4;
         allowed_markets := ["PTS"; "REB"];
         allowed_roles := ["starter"];
         priority_theses := ["BigRebound"; "ScorerLine"] |}
  | ousada =>
      {| min_confidence := 6 # 10; max_players := 3;
         allowed_markets := ["PRA"; "REB+AST"; "PTS+REB"];
         allowed_roles := ["starter"; "rotation"];
         priority_theses := ["AssistMatchup"; "PaceBoost"] |}
  | banco =>
      {| min_confidence := 55 # 100; max_players := 3;
         allowed_markets := ["PRA"; "PTS"; "REB"];
         allowed_roles := ["bench"; "rotation"];
         priority_theses := ["ValueHunter"] |}
  | explosao =>
      {| min_confidence := 6 # 10; max_players := 2;
         allowed_markets := ["AST"; "PTS"; "REB"];
         allowed_roles := ["starter"; "rotation"; "bench"];
         priority_theses := ["PaceBoost"; "AssistMatchup"; "ScorerLine"] |}
  end.

(** [self.strategy_templates.get(name, {}).get('description', '')],
    accents dropped. *)
Definition strategy_description_of (strategy_name : string) : string :=
  if String.eqb strategy_name "GLASS_BANGERS_TRIO"
  then "Tripla de jogadores dominantes no garrafao"
  else if String.eqb strategy_name "THE_BATTERY"
  then "Armador + Scorer do mesmo time"
  else if String.eqb strategy_name "BENCH_MOB"
  then "Reservas com alto upside em garbage time"
  else if String.eqb strategy_name "SHOOTOUT_PAIR"
  then "Scorers de times opostos em jogo rapido"
  else if String.eqb strategy_name "BLOWOUT_SPECIAL"
  then "Jogadores beneficiados por blowout/garbage time"
  else "".

(** The selection state of the engine instance.  The two counters are
    [defaultdict(int)]: reading a missing key stores 0 under it. *)
Record selection : Type := {
  used_players : gset string;
  used_teams : gmap string nat;
  used_markets : gmap string nat
}.

Definition reset_selection : selection :=
  {| used_players := ∅; used_teams := ∅; used_markets := ∅ |}.

(** [d[k]] on a [defaultdict(int)]: the value and the dict afterwards. *)
Definition read_counter (d : gmap string nat) (k : string) : nat * gmap string nat :=
  match d !! k with
  | Some n => (n, d)
  | None => (0%nat, <[k := 0%nat]> d)
  end.

(** [d[k] += 1] *)
Definition bump_counter (d : gmap string nat) (k : string) : gmap string nat :=
  <[k := S (fst (read_counter d k))]> d.

(** Copies of a thesis dict with keys added. *)
Definition with_category (t : thesis) (cat team role : string) : thesis :=
  {| player := player t; th_player_id := th_player_id t; market := market t;
     confidence := confidence t; evidences := evidences t; weights := weights t;
     thesis_type := thesis_type t; suggested_line := suggested_line t;
     is_risk := is_risk t; player_ctx := player_ctx t;
     player_position := player_position t;
     th_team := th_team t; strategy := strategy t;
     category := Some cat; player_team := Some team; player_role := Some role;
     strategy_category := strategy_category t; selection_score := selection_score t;
     adjusted_confidence := adjusted_confidence t;
     score_adjustment := score_adjustment t; adjustments := adjustments t;
     identified_strategy := identified_strategy t;
     strategy_description := strategy_description t |}.

Definition with_selection (t : thesis) (cat : string) (score : Q) : thesis :=
  {| player := player t; th_player_id := th_player_id t; market := market t;
     confidence := confidence t; evidences := evidences t; weights := weights t;
     thesis_type := thesis_type t; suggested_line := suggested_line t;
     is_risk := is_risk t; player_ctx := player_ctx t;
     player_position := player_position t;
     th_team := th_team t; strategy := strategy t;
     category := category t; player_team := player_team t;
     player_role := player_role t;
     strategy_category := Some cat; selection_score := Some score;
     adjusted_confidence := adjusted_confidence t;
     score_adjustment := score_adjustment t; adjustments := adjustments t;
     identified_strategy := identified_strategy t;
     strategy_description := strategy_description t |}.

Definition with_adjustment (t : thesis) (adjusted score_adj : Q)
    (notes : list string) : thesis :=
  {| player := player t; th_player_id := th_player_id t; market := market t;
     confidence := confidence t; evidences := evidences t; weights := weights t;
     thesis_type := thesis_type t; suggested_line := suggested_line t;
     is_risk := is_risk t; player_ctx := player_ctx t;
     player_position := player_position t;
     th_team := th_team t; strategy := strategy t;
     category := category t; player_team := player_team t;
     player_role := player_role t;
     strategy_category := strategy_category t; selection_score := selection_score t;
     adjusted_confidence := Some adjusted;
     score_adjustment := Some score_adj; adjustments := Some notes;
     identified_strategy := identified_strategy t;
     strategy_description := strategy_description t |}.

Definition with_strategy (t : thesis) (strategy_name description : string) : thesis :=
  {| player := player t; th_player_id := th_player_id t; market := market t;
     confidence := confidence t; evidences := evidences t; weights := weights t;
     thesis_type := thesis_type t; suggested_line := suggested_line t;
     is_risk := is_risk t; player_ctx := player_ctx t;
     player_position := player_position t;
     th_team := th_team t; strategy := strategy t;
     category := category t; player_team := player_team t;
     player_role := player_role t;
     strategy_category := strategy_category t; selection_score := selection_score t;
     adjusted_confidence := adjusted_confidence t;
     score_adjustment := score_adjustment t; adjustments := adjustments t;
     identified_strategy := Some strategy_name;
     strategy_description := Some description |}.

(** [thesis.get('player_ctx', {}).get(key, '')] *)
Definition ctx_field (t : thesis) (field : thesis_ctx -> option string) : string :=
  match player_ctx t with
  | Some ctx => default "" (field ctx)
  | None => ""
  end.

Definition _determine_category (t : thesis) (game : game_ctx) : option category_name :=
  let thesis_type := default "" (thesis_type t) in
  let market := default "" (market t) in
  let confidence := default 0 (confidence t) in
  let role := ctx_field t role in
  if qleb (65 # 100) confidence && String.eqb role "starter" &&
     Str.mem market ["PTS"; "REB"] &&
     Str.mem thesis_type ["BigRebound"; "ScorerLine"]
  then Some conservadora
  else if qleb (6 # 10) confidence && Str.mem role ["starter"; "rotation"] &&
          Str.mem market ["PRA"; "REB+AST"; "PTS+REB"] &&
          Str.mem thesis_type ["AssistMatchup"; "PaceBoost"]
  then Some ousada
  else if qleb (55 # 100) confidence && Str.mem role ["bench"; "rotation"] &&
          String.eqb thesis_type "ValueHunter"
  then Some banco
  else if qleb (6 # 10) confidence &&
          Str.mem thesis_type ["PaceBoost"; "AssistMatchup"]
  then Some explosao
  else if qleb (7 # 10) confidence then
    if String.eqb role "starter" then Some conservadora
    else if Str.mem role ["rotation"; "bench"] then Some banco
    else None
  else None.

(** A dict with one list per category. *)
Definition buckets : Type := category_name -> list thesis.

Definition set_bucket (b : buckets) (c : category_name) (l : list thesis) : buckets :=
  fun c' => if decide (c' = c) then l else b c'.

Definition empty_buckets : buckets := fun _ => [].

(** The loop body of [categorize_theses], for one thesis. *)
Definition categorize_one (game : game_ctx) (categorized : buckets) (t : thesis)
  : buckets :=
  if String.eqb (default "" (thesis_type t)) "BlowoutRisk" then categorized
  else
    let player_team := ctx_field t team in
    let player_role := ctx_field t role in
    match _determine_category t game with
    | Some c =>
        let enhanced_thesis :=
          with_category t (category_key c) player_team player_role in
        set_bucket categorized c (categorized c ++ [enhanced_thesis])%list
    | None => categorized
    end.

Definition categorize_theses (all_theses : list (string * list thesis))
    (game : game_ctx) : buckets :=
  fold_left (fun categorized entry =>
               fold_left (categorize_one game) (snd entry) categorized)
            all_theses empty_buckets.

(** [x in l] when [l] is a config list that is only consulted when it
    is non-empty. *)
Definition allowed (l : list string) (x : string) : bool :=
  match l with
  | [] => true
  | _ => Str.mem x l
  end.

(** The filter loop of [select_for_category], for one candidate: the
    pairs kept so far and the last [priority_boost] computed. *)
Definition filter_one (st : selection) (config : category_config)
    (acc : list (thesis * Q) * option Q) (t : thesis)
  : result (list (thesis * Q) * option Q) :=
  p <- index "player" (player t) ;;
  if bool_decide (p ∈ used_players st) then Ok acc else
  c <- index "confidence" (confidence t) ;;
  if qltb c (min_confidence config) then Ok acc else
  if negb (allowed (allowed_roles config) (default "" (player_role t))) then Ok acc else
  match allowed_markets config with
  | [] =>
      ty <- index "thesis_type" (thesis_type t) ;;
      let priority_boost := if Str.mem ty (priority_theses config) then 12 # 10 else 1 in
      Ok ((fst acc ++ [(t, priority_boost)])%list, Some priority_boost)
  | markets =>
      m <- index "market" (market t) ;;
      if negb (Str.mem m markets) then Ok acc else
      ty <- index "thesis_type" (thesis_type t) ;;
      let priority_boost := if Str.mem ty (priority_theses config) then 12 # 10 else 1 in
      Ok ((fst acc ++ [(t, priority_boost)])%list, Some priority_boost)
  end.

(** The selection loop, for one sorted candidate. *)
Definition select_one (c : category_name) (priority_boost : Q)
    (acc : selection * list thesis) (t : thesis) : result (selection * list thesis) :=
  let st := fst acc in
  p <- index "player" (player t) ;;
  m <- index "market" (market t) ;;
  conf <- index "confidence" (confidence t) ;;
  let st' :=
    {| used_players := {[p]} ∪ used_players st;
       used_teams := bump_counter (used_teams st) (default "" (player_team t));
       used_markets := bump_counter (used_markets st) m |} in
  let enhanced := with_selection t (category_key c) (conf * priority_boost) in
  Ok (st', (snd acc ++ [enhanced])%list).

Definition select_for_category (st : selection) (candidates : list thesis)
    (c : category_name) (game : game_ctx) (num_selections : nat)
  : result (selection * list thesis) :=
  let config := category_configs c in
  filtered <- foldM (filter_one st config) candidates ([], None) ;;
  match fst filtered, snd filtered with
  | [], _ | _, None => Ok (st, [])
  | pairs, Some priority_boost =>
      let sorted_candidates :=
        sorted_desc (fun x => default 0 (confidence (fst x)) * snd x) pairs in
      foldM (select_one c priority_boost)
            (map fst (take num_selections sorted_candidates)) (st, [])
  end.

(** [len(set(teams))] *)
Definition distinct_count (l : list string) : nat :=
  size (list_to_set l : gset string).

Definition identify_strategy (recommendations : list thesis) (game : game_ctx)
  : result string :=
  match recommendations with
  | [] => Ok "INDIVIDUAL_PLAY"
  | _ =>
      players <- foldM (fun acc r => p <- index "player" (player r) ;;
                                     Ok (acc ++ [p])%list) recommendations [] ;;
      markets <- foldM (fun acc r => m <- index "market" (market r) ;;
                                     Ok (acc ++ [m])%list) recommendations [] ;;
      let teams := map (fun r => default "" (player_team r)) recommendations in
      let n := length recommendations in
      let big_men_count :=
        length (List.filter
                  (fun r => Str.mem (default "" (player_position r)) ["C"; "PF"] &&
                            String.eqb (default "" (market r)) "REB")
                  recommendations) in
      if (2 <=? n)%nat && (2 <=? big_men_count)%nat then
        Ok (if (3 <=? big_men_count)%nat then "GLASS_BANGERS_TRIO" else "GLASS_BANGER_PAIR")
      else
        let positions := map (fun r => default "" (player_position r)) recommendations in
        if (n =? 2)%nat && Str.mem "PG" positions &&
           existsb (fun p => Str.mem p ["SG"; "SF"]) positions &&
           (distinct_count teams =? 1)%nat
        then Ok "THE_BATTERY"
        else
          let roles := map (fun r => default "" (player_role r)) recommendations in
          if forallb (fun role => Str.mem role ["bench"; "rotation"]) roles
          then Ok "BENCH_MOB"
          else if (n =? 2)%nat && (distinct_count teams =? 2)%nat &&
                  forallb (fun m => String.eqb m "PTS") markets &&
                  qltb 100 (default 0 (pace game))
          then Ok "SHOOTOUT_PAIR"
          else if qltb 12 (qabs (default 0 (spread game))) &&
                  existsb (fun r => match thesis_type r with
                                    | Some ty => String.eqb ty "ValueHunter"
                                    | None => false end) recommendations
          then Ok "BLOWOUT_SPECIAL"
          else Ok "CURATED_COMBO"
  end.

(** The net adjustment before clamping: penalties and bonuses, in the
    order of the source. *)
Definition raw_adjustment (team_count market_count unique_teams unique_markets : nat)
    (spread : Q) (is_starter is_pts : bool) : Q :=
  (if (2 <? team_count)%nat then - (15 # 100) else 0) +
  (if (2 <? market_count)%nat then - (1 # 10) else 0) +
  (if qltb 10 spread && is_starter then - (1 # 10) else 0) +
  (if (3 <=? unique_teams)%nat then 1 # 10 else 0) +
  (if (3 <=? unique_markets)%nat then 8 # 100 else 0) +
  (if qleb spread 5 && is_pts then 5 # 100 else 0).

Definition when_note (b : bool) (note : string) : list string :=
  if b then [note] else [].

(** The [adjustments] list; the interpolated team, market and counts are
    left out of the texts. *)
Definition adjustment_notes (team_count market_count unique_teams unique_markets : nat)
    (spread : Q) (is_starter is_pts : bool) : list string :=
  (when_note (2 <? team_count)%nat "Penalidade: -15% (muitos jogadores do time)" ++
   when_note (2 <? market_count)%nat "Penalidade: -10% (excesso de mercado)" ++
   when_note (qltb 10 spread && is_starter)
     "Penalidade: -10% (starter em jogo com spread alto)" ++
   when_note (3 <=? unique_teams)%nat "Bonus: +10% (diversidade de times)" ++
   when_note (3 <=? unique_markets)%nat "Bonus: +8% (diversidade de mercados)" ++
   when_note (qleb spread 5 && is_pts) "Bonus: +5% (jogo parelho bom para volume)")%list.

(** [max(min(score_adjustment, 0.3), -0.3)] *)
Definition clamp_adjustment (x : Q) : Q := qmax (qmin x (3 # 10)) (- (3 # 10)).

Definition apply_correlation_adjustments (st : selection) (recommendation : thesis)
    (game : game_ctx) : result (selection * thesis) :=
  let player_team := default "" (player_team recommendation) in
  market <- index "market" (market recommendation) ;;
  let '(team_count, teams) := read_counter (used_teams st) player_team in
  let '(market_count, markets) := read_counter (used_markets st) market in
  let spread := qabs (default 0 (spread game)) in
  let is_starter :=
    match player_role recommendation with
    | Some role => String.eqb role "starter"
    | None => false
    end in
  let unique_teams := size teams in
  let unique_markets := size markets in
  let is_pts := String.eqb market "PTS" in
  let score_adjustment :=
    clamp_adjustment (raw_adjustment team_count market_count unique_teams
                        unique_markets spread is_starter is_pts) in
  original_confidence <- index "confidence" (confidence recommendation) ;;
  let adjusted_confidence :=
    qmin (qmax (original_confidence * (1 + score_adjustment)) 0) 1 in
  let st' := {| used_players := used_players st;
                used_teams := teams; used_markets := markets |} in
  Ok (st', with_adjustment recommendation
             (py_round adjusted_confidence 3) (py_round score_adjustment 3)
             (adjustment_notes team_count market_count unique_teams unique_markets
                spread is_starter is_pts)).

(** [[self.apply_correlation_adjustments(r, game_ctx) for r in recs]] *)
Definition adjust_all (game : game_ctx) (st : selection) (recs : list thesis)
  : result (selection * list thesis) :=
  foldM (fun acc r =>
           res <- apply_correlation_adjustments (fst acc) r game ;;
           Ok (fst res, (snd acc ++ [snd res])%list))
        recs (st, []).

(** The [num_selections] argument and the slice bound of each block of
    [compose_recommendations]. *)
Definition num_selections (c : category_name) : nat :=
  match c with
  | conservadora => 4
  | ousada => 3
  | banco => 3
  | explosao => 2
  end.

(** One of the four numbered blocks of [compose_recommendations]. *)
Definition compose_category (game : game_ctx) (categorized : buckets)
    (acc : selection * buckets) (c : category_name) : result (selection * buckets) :=
  let n := num_selections c in
  sel <- select_for_category (fst acc) (categorized c) c game n ;;
  adj <- adjust_all game (fst sel) (snd sel) ;;
  recs <- match snd adj with
          | [] => Ok []
          | recs =>
              strategy_name <- identify_strategy recs game ;;
              Ok (map (fun r => with_strategy r strategy_name
                                  (strategy_description_of strategy_name)) recs)
          end ;;
  Ok (fst adj, set_bucket (snd acc) c (take n recs)).

(** [[r for r in recs if r['player'] != player]] *)
Definition without_player (p : string) (recs : list thesis) : result (list thesis) :=
  foldM (fun acc r =>
           q <- index "player" (player r) ;;
           if String.eqb q p then Ok acc else Ok (acc ++ [r])%list)
        recs [].

Record diversity : Type := {
  recommendations : buckets;
  player_to_category : gmap string category_name;
  player_to_score : gmap string Q
}.

(** The body of the inner loop of [_ensure_cross_category_diversity]. *)
Definition diversity_step (c : category_name) (d : diversity) (rec : thesis)
  : result diversity :=
  p <- index "player" (player rec) ;;
  conf <- index "confidence" (confidence rec) ;;
  let score := default conf (adjusted_confidence rec) in
  match player_to_score d !! p with
  | Some old_score =>
      if qltb old_score score then
        old_category <- index p (player_to_category d !! p) ;;
        kept <- without_player p (recommendations d old_category) ;;
        Ok {| recommendations := set_bucket (recommendations d) old_category kept;
              player_to_category := <[p := c]> (player_to_category d);
              player_to_score := <[p := score]> (player_to_score d) |}
      else
        kept <- without_player p (recommendations d c) ;;
        Ok {| recommendations := set_bucket (recommendations d) c kept;
              player_to_category := player_to_category d;
              player_to_score := player_to_score d |}
  | None =>
      Ok {| recommendations := recommendations d;
            player_to_category := <[p := c]> (player_to_category d);
            player_to_score := <[p := score]> (player_to_score d) |}
  end.

(** The outer loop iterates over the list that the category holds when
    its turn comes. *)
Definition _ensure_cross_category_diversity (recs : buckets) : result buckets :=
  d <- foldM (fun d c => foldM (diversity_step c) (recommendations d c) d)
             all_categories
             {| recommendations := recs; player_to_category := ∅;
                player_to_score := ∅ |} ;;
  Ok (recommendations d).

Definition compose_recommendations (all_theses : list (string * list thesis))
    (game : game_ctx) : result buckets :=
  let st := reset_selection in
  let categorized := categorize_theses all_theses game in
  composed <- foldM (compose_category game categorized) all_categories
                    (st, empty_buckets) ;;
  _ensure_cross_category_diversity (snd composed).

(** *** The correlation adjustment *)


(** The net adjustment has at most two decimals, so rounding it to three
    changes nothing. *)
Lemma raw_adjustment_round tc mc ut um spread st pts :
  py_round (clamp_adjustment (raw_adjustment tc mc ut um spread st pts)) 3
  == clamp_adjustment (raw_adjustment tc mc ut um spread st pts).
Proof.
  unfold raw_adjustment.
  destruct (2 <? tc)%nat, (2 <? mc)%nat, (qltb 10 spread && st),
           (3 <=? ut)%nat, (3 <=? um)%nat, (qleb spread 5 && pts);
    vm_compute; reflexivity.
Qed.

Lemma py_round_between (lo hi x : Q) (zl zh : Z) (n : nat) :
  lo == inject_Z zl / inject_Z (pow10 n) ->
  hi == inject_Z zh / inject_Z (pow10 n) ->
  lo <= x -> x <= hi -> lo <= py_round x n /\ py_round x n <= hi.
Proof.
  intros El Eh Hl Hh. split.
  - rewrite El. apply py_round_ge. now rewrite <- El.
  - rewrite Eh. apply py_round_le. now rewrite <- Eh.
Qed.

Example correlation_adjustment_example :
  match apply_correlation_adjustments reset_selection
          {| player := Some "X"; th_player_id := None; market := Some "PTS";
             confidence := Some (67 # 100); evidences := []; weights := [];
             thesis_type := Some "ScorerLine"; suggested_line := None;
             is_risk := None; player_ctx := None; player_position := None;
     th_team := None; strategy := None;
             category := None; player_team := Some "MIA";
             player_role := Some "starter"; strategy_category := None;
             selection_score := None; adjusted_confidence := None;
             score_adjustment := None; adjustments := None;
             identified_strategy := None; strategy_description := None |}
          {| home_team := None; away_team := None; spread := Some (- (3));
             total := None; pace := None |} with
  | Ok (st, r) =>
      size (used_teams st) = 1%nat /\ adjustments r = Some ["Bonus: +5% (jogo parelho bom para volume)"]
  | Raise _ => False
  end.
Proof. vm_compute. split; reflexivity. Qed.



(** *** Selection invariants *)

(** The keys that the composition reads with [d[key]]. *)
Definition complete (t : thesis) : Prop :=
  is_Some (player t) /\ is_Some (confidence t) /\
  is_Some (market t) /\ is_Some (thesis_type t).

(** Two dicts that agree on those keys. *)
Definition same_keys (t x : thesis) : Prop :=
  player x = player t /\ confidence x = confidence t /\
  market x = market t /\ thesis_type x = thesis_type t.

Lemma same_keys_complete t x : same_keys t x -> complete t -> complete x.
Proof.
  intros (Hp & Hc & Hm & Hty) (? & ? & ? & ?). unfold complete.
  rewrite Hp, Hc, Hm, Hty. auto.
Qed.

Definition input_theses (all_theses : list (string * list thesis)) : list thesis :=
  concat (map snd all_theses).

(** Every candidate is a copy of an input thesis and carries the role of
    that thesis' player context as [player_role]. *)
Definition candidate_of (inputs : list thesis) (x : thesis) : Prop :=
  exists t, In t inputs /\ same_keys t x /\
            player_role x = Some (ctx_field t role).

Lemma categorize_one_candidates game inputs (b : buckets) t :
  In t inputs ->
  (forall c x, In x (b c) -> candidate_of inputs x) ->
  forall c x, In x (categorize_one game b t c) -> candidate_of inputs x.
Proof.
  intros Ht Hb c x. unfold categorize_one.
  destruct (String.eqb _ "BlowoutRisk"); [apply Hb |].
  destruct (_determine_category t game) as [c' |]; [| apply Hb].
  unfold set_bucket. destruct (decide (c = c')) as [-> | Hne]; [| apply Hb].
  intros Hx. apply in_app_or in Hx as [Hx | [<- | []]]; [now apply (Hb c') |].
  exists t. split; [exact Ht |]. split; [now repeat split | reflexivity].
Qed.

Lemma categorize_theses_candidates all_theses game c x :
  In x (categorize_theses all_theses game c) ->
  candidate_of (input_theses all_theses) x.
Proof.
  unfold categorize_theses, input_theses.
  assert (G : forall (rest : list (string * list thesis)) (inputs : list thesis) (b : buckets),
             (forall t, In t (concat (map snd rest)) -> In t inputs) ->
             (forall c x, In x (b c) -> candidate_of inputs x) ->
             forall c x,
               In x (fold_left (fun categorized entry =>
                                  fold_left (categorize_one game) (snd entry) categorized)
                               rest b c) ->
               candidate_of inputs x).
  { induction rest as [| [nm ts] rest IH]; intros inputs b Hin Hb c0 x0; cbn.
    - apply Hb.
    - apply IH.
      + intros t Ht. apply Hin. cbn. apply in_or_app. now right.
      + assert (Hts : forall t, In t ts -> In t inputs).
        { intros t Ht. apply Hin. cbn. apply in_or_app. now left. }
        clear IH Hin. revert b Hb.
        induction ts as [| t ts IHts]; intros b Hb; cbn; [exact Hb |].
        apply IHts.
        * intros t' Ht'. apply Hts. now right.
        * apply categorize_one_candidates; [| exact Hb]. apply Hts. now left. }
  apply G; [auto | intros c0 x0 []].
Qed.

(** What the filter loop of [select_for_category] has checked of a
    candidate it keeps. *)
Definition passes (st : selection) (config : category_config) (t : thesis) : Prop :=
  (exists p, player t = Some p /\ p ∉ used_players st) /\
  is_Some (confidence t) /\ is_Some (thesis_type t) /\
  allowed (allowed_roles config) (default "" (player_role t)) = true.

Lemma filter_one_spec st config acc t acc' :
  filter_one st config acc t = Ok acc' ->
  acc' = acc \/
  exists b, acc' = ((fst acc ++ [(t, b)])%list, Some b) /\ passes st config t.
Proof.
  unfold filter_one, passes. intros H.
  destruct (player t) as [p |]; cbn in H; [| discriminate].
  destruct (bool_decide (p ∈ used_players st)) eqn:Hp;
    [left; injection H as <-; reflexivity |].
  apply bool_decide_eq_false in Hp.
  destruct (confidence t) as [c |]; cbn in H; [| discriminate].
  destruct (qltb c (min_confidence config));
    [left; injection H as <-; reflexivity |].
  destruct (allowed (allowed_roles config) _) eqn:Hr; cbn [negb] in H;
    [| left; congruence].
  destruct (allowed_markets config) as [| m0 ms].
  - destruct (thesis_type t) as [ty |]; cbn in H; [| discriminate].
    right. eexists. split; [symmetry; injection H as <-; reflexivity |].
    repeat split; eauto.
  - destruct (market t) as [m |]; cbn [bind index] in H; [| discriminate].
    match type of H with
    | (if ?b then _ else _) = _ => destruct b; [left; congruence |]
    end.
    destruct (thesis_type t) as [ty |]; cbn in H; [| discriminate].
    right. eexists. split; [symmetry; injection H as <-; reflexivity |].
    repeat split; eauto.
Qed.

Lemma filter_one_total st config acc t :
  complete t -> exists acc', filter_one st config acc t = Ok acc'.
Proof.
  intros ([p Hp] & [c Hc] & [m Hm] & [ty Hty]). unfold filter_one.
  rewrite Hp, Hc, Hm, Hty. cbn [bind index].
  repeat match goal with
         | |- exists _, Ok _ = Ok _ => eexists; reflexivity
         | |- exists _, (if ?b then _ else _) = _ => destruct b
         | |- exists _, match ?l with [] => _ | _ :: _ => _ end = _ => destruct l
         | |- _ => progress cbn [bind index]
         end.
Qed.

Definition filtered_ok (st : selection) (config : category_config)
    (candidates : list thesis) (acc : list (thesis * Q) * option Q) : Prop :=
  (forall x, In x (fst acc) -> In (fst x) candidates /\ passes st config (fst x)) /\
  (fst acc ≠ [] -> is_Some (snd acc)).

Lemma filter_loop_spec st config candidates acc :
  foldM (filter_one st config) candidates ([], None) = Ok acc ->
  filtered_ok st config candidates acc.
Proof.
  apply (foldM_invariant (filter_one st config) (filtered_ok st config candidates)).
  - intros s a s' Ha [Hs1 Hs2] Hstep.
    apply filter_one_spec in Hstep as [-> | (b & -> & Hpass)]; [split; assumption |].
    split; cbn.
    + intros x Hx. apply in_app_or in Hx as [Hx | [<- | []]]; [now apply Hs1 |].
      split; assumption.
    + eauto.
  - split; [intros x [] | intros H; now contradiction H].
Qed.

Lemma filter_loop_total st config candidates :
  Forall complete candidates ->
  exists acc, foldM (filter_one st config) candidates ([], None) = Ok acc.
Proof.
  intros Hc.
  destruct (foldM_total (filter_one st config) (fun _ => True) candidates)
    with (s := (@nil (thesis * Q), @None Q)) as (acc & E & _); [| exact I | eauto].
  intros s a Ha _. rewrite Forall_forall in Hc.
  destruct (filter_one_total st config s a) as [acc' E].
  - apply Hc. now apply list_elem_of_In.
  - eauto.
Qed.

(** The selection loop. *)
Definition picked (l : list thesis) (st1 : selection) (r : thesis) : Prop :=
  exists t p, In t l /\ same_keys t r /\ player_role r = player_role t /\
              player t = Some p /\ p ∈ used_players st1 /\ is_Some (market t).

Lemma select_loop_spec c pb :
  forall l st0 sel0 st1 sel1,
  foldM (select_one c pb) l (st0, sel0) = Ok (st1, sel1) ->
  used_players st0 ⊆ used_players st1 /\
  length sel1 = (length sel0 + length l)%nat /\
  (forall r, In r sel1 -> In r sel0 \/ picked l st1 r).
Proof.
  induction l as [| t l IH]; intros st0 sel0 st1 sel1 H; cbn in H.
  - injection H as <- <-. split; [reflexivity |]. split; [cbn; lia | auto].
  - unfold select_one at 1 in H. cbn [fst snd] in H.
    destruct (player t) as [p |] eqn:Hp; cbn in H; [| discriminate].
    destruct (market t) as [m |] eqn:Hm; cbn in H; [| discriminate].
    destruct (confidence t) as [cf |] eqn:Hcf; cbn in H; [| discriminate].
    apply IH in H as (Hsub & Hlen & Hsel). cbn [used_players] in Hsub.
    assert (Hp1 : p ∈ used_players st1).
    { apply Hsub, elem_of_union. left. now apply elem_of_singleton. }
    split; [intros q Hq; apply Hsub, elem_of_union; now right |].
    split; [rewrite Hlen, length_app; cbn; lia |].
    intros r Hr. destruct (Hsel r Hr) as [Hr0 | (t' & p' & Ht' & Hrest)].
    + apply in_app_or in Hr0 as [Hr0 | [<- | []]]; [now left |].
      right. exists t, p. split; [now left |]. split; [now repeat split |].
      split; [reflexivity |]. split; [exact Hp |]. split; [exact Hp1 | eauto].
    + right. exists t', p'. split; [now right | exact Hrest].
Qed.

Lemma select_loop_total c pb :
  forall l acc, Forall complete l ->
  exists res, foldM (select_one c pb) l acc = Ok res.
Proof.
  induction l as [| t l IH]; intros acc Hl; cbn; [eauto |].
  apply Forall_cons in Hl as [([p Hp] & [cf Hc] & [m Hm] & _) Hl].
  unfold select_one at 1. rewrite Hp, Hm, Hc. cbn. now apply IH.
Qed.

Lemma allowed_In c x :
  allowed (allowed_roles (category_configs c)) x = true ->
  In x (allowed_roles (category_configs c)).
Proof. destruct c; intros H; apply Str.mem_In; exact H. Qed.

(** The picks of [select_for_category]. *)
Definition selected_from (st st' : selection) (c : category_name)
    (candidates : list thesis) (r : thesis) : Prop :=
  exists t p, In t candidates /\ same_keys t r /\ player_role r = player_role t /\
    player r = Some p /\ (p ∉ used_players st) /\ (p ∈ used_players st') /\
    complete r /\
    In (default "" (player_role r)) (allowed_roles (category_configs c)).

Lemma select_for_category_spec st candidates c game n st' sel :
  select_for_category st candidates c game n = Ok (st', sel) ->
  used_players st ⊆ used_players st' /\
  (length sel <= n)%nat /\
  forall r, In r sel -> selected_from st st' c candidates r.
Proof.
  unfold select_for_category. intros H.
  destruct (foldM (filter_one st _) candidates _) as [[pairs last] |] eqn:Ef;
    cbn [bind fst snd] in H; [| discriminate].
  apply filter_loop_spec in Ef as [Hpairs _]. cbn [fst snd] in Hpairs.
  destruct pairs as [| x pairs].
  { injection H as <- <-. split; [reflexivity |]. split; [cbn; lia | intros r []]. }
  destruct last as [pb |].
  2: { injection H as <- <-. split; [reflexivity |]. split; [cbn; lia | intros r []]. }
  set (sorted := sorted_desc _ (x :: pairs)) in H.
  apply select_loop_spec in H as (Hsub & Hlen & Hsel).
  split; [exact Hsub |]. split.
  - rewrite Hlen, length_map, length_take. cbn. lia.
  - intros r Hr. destruct (Hsel r Hr) as [[] | (t & p & Ht & Hk & Hrole & Hp & Hused & Hm)].
    apply in_map_iff in Ht as (y & <- & Hy).
    apply list_elem_of_In, elem_of_take in Hy as (i & Hy & _).
    apply list_elem_of_lookup_2, list_elem_of_In in Hy.
    unfold sorted, sorted_desc in Hy. apply sort_by_In in Hy.
    destruct (Hpairs y Hy) as (Hcand & (p' & Hp' & Hfresh) & Hconf & Hty & Hal).
    assert (p' = p) by congruence. subst p'.
    destruct Hk as (Kp & Kc & Km & Kty).
    exists (fst y), p. split; [exact Hcand |]. split; [now repeat split |].
    split; [exact Hrole |]. split; [congruence |]. split; [exact Hfresh |].
    split; [exact Hused |]. split.
    + unfold complete. rewrite Kp, Kc, Km, Kty. rewrite Hp. eauto.
    + rewrite Hrole. now apply allowed_In.
Qed.

Lemma select_for_category_total st candidates c game n :
  Forall complete candidates ->
  exists res, select_for_category st candidates c game n = Ok res.
Proof.
  intros Hc. unfold select_for_category.
  destruct (filter_loop_total st (category_configs c) candidates Hc) as [[pairs last] E].
  rewrite E. cbn [bind fst snd].
  apply filter_loop_spec in E as [Hpairs _]. cbn [fst] in Hpairs.
  destruct pairs as [| x pairs]; [eauto |]. destruct last as [pb |]; [| eauto].
  apply select_loop_total. rewrite Forall_forall. intros t Ht.
  apply list_elem_of_In, in_map_iff in Ht as (y & <- & Hy).
  apply list_elem_of_In, elem_of_take in Hy as (i & Hy & _).
  apply list_elem_of_lookup_2, list_elem_of_In in Hy.
  unfold sorted_desc in Hy. apply sort_by_In in Hy.
  destruct (Hpairs y Hy) as [Hcand _]. rewrite Forall_forall in Hc.
  apply Hc. now apply list_elem_of_In.
Qed.

(** The other stages keep the player, the role and the list length. *)
Definition same_player (r r' : thesis) : Prop :=
  same_keys r r' /\ player_role r' = player_role r.

Lemma apply_correlation_adjustments_spec st r game st' r' :
  apply_correlation_adjustments st r game = Ok (st', r') ->
  used_players st' = used_players st /\ same_player r r'.
Proof.
  unfold apply_correlation_adjustments. intros H.
  destruct (market r); cbn [bind index] in H; [| discriminate].
  destruct (read_counter (used_teams st) _), (read_counter (used_markets st) _).
  destruct (confidence r); cbn [bind index] in H; [| discriminate].
  injection H as <- <-. split; [reflexivity | now repeat split].
Qed.

Lemma apply_correlation_adjustments_total st r game :
  complete r -> exists res, apply_correlation_adjustments st r game = Ok res.
Proof.
  intros (_ & [c Hc] & [m Hm] & _). unfold apply_correlation_adjustments.
  rewrite Hm, Hc. cbn [bind index].
  destruct (read_counter (used_teams st) _), (read_counter (used_markets st) _).
  eauto.
Qed.

Lemma adjust_all_spec game :
  forall recs st st' recs',
  adjust_all game st recs = Ok (st', recs') ->
  used_players st' = used_players st /\
  length recs' = length recs /\
  forall r', In r' recs' -> exists r, In r recs /\ same_player r r'.
Proof.
  unfold adjust_all.
  assert (G : forall recs st acc st' recs',
             foldM (fun acc r =>
                      res <- apply_correlation_adjustments (fst acc) r game ;;
                      Ok (fst res, (snd acc ++ [snd res])%list)) recs (st, acc)
             = Ok (st', recs') ->
             used_players st' = used_players st /\
             length recs' = (length acc + length recs)%nat /\
             forall r', In r' recs' ->
               In r' acc \/ exists r, In r recs /\ same_player r r').
  { induction recs as [| r recs IH]; intros st acc st' recs' H; cbn [foldM] in H.
    - injection H as <- <-. split; [reflexivity |]. split; [cbn; lia | auto].
    - cbn [fst snd] in H.
      destruct (apply_correlation_adjustments st r game) as [[st1 r1] |] eqn:E;
        cbn [bind fst snd] in H; [| discriminate].
      apply apply_correlation_adjustments_spec in E as [Eu Er].
      apply IH in H as (Hu & Hl & Hin). split; [congruence |]. split.
      + rewrite Hl, length_app. cbn. lia.
      + intros r' Hr'. destruct (Hin r' Hr') as [Ha | (r0 & Hr0 & Hs)].
        * apply in_app_or in Ha as [Ha | [<- | []]]; [now left |].
          right. exists r. split; [now left | exact Er].
        * right. exists r0. split; [now right | exact Hs]. }
  intros recs st st' recs' H. apply G in H as (Hu & Hl & Hin).
  split; [exact Hu |]. split; [exact Hl |].
  intros r' Hr'. destruct (Hin r' Hr') as [[] | Hex]. exact Hex.
Qed.

Lemma adjust_all_total game :
  forall recs st, Forall complete recs ->
  exists res, adjust_all game st recs = Ok res.
Proof.
  unfold adjust_all.
  assert (G : forall recs acc, Forall complete recs ->
             exists res,
               foldM (fun acc r =>
                        res <- apply_correlation_adjustments (fst acc) r game ;;
                        Ok (fst res, (snd acc ++ [snd res])%list)) recs acc
               = Ok res).
  { induction recs as [| r recs IH]; intros acc Hc; cbn [foldM]; [eauto |].
    apply Forall_cons in Hc as [Hr Hc].
    destruct (apply_correlation_adjustments_total (fst acc) r game Hr) as [res E].
    rewrite E. cbn [bind]. now apply IH. }
  intros recs st. apply G.
Qed.

Lemma collect_keys_total (key : string) (field : thesis -> option string) :
  forall recs acc, (forall r, In r recs -> is_Some (field r)) ->
  exists l, foldM (fun acc r => x <- index key (field r) ;; Ok (acc ++ [x])%list)
                  recs acc = Ok l.
Proof.
  induction recs as [| r recs IH]; intros acc H; cbn [foldM]; [eauto |].
  destruct (H r (or_introl eq_refl)) as [x Hx]. rewrite Hx. cbn [bind index].
  apply IH. intros r' Hr'. apply H. now right.
Qed.

Lemma identify_strategy_total recs game :
  Forall complete recs -> exists s, identify_strategy recs game = Ok s.
Proof.
  intros Hc. unfold identify_strategy. destruct recs as [| r0 recs]; [eauto |].
  set (R := r0 :: recs) in *. rewrite Forall_forall in Hc.
  destruct (collect_keys_total "player" player R []) as [players Ep].
  { intros r Hr. apply list_elem_of_In, Hc in Hr. apply Hr. }
  destruct (collect_keys_total "market" market R []) as [markets Em].
  { intros r Hr. apply list_elem_of_In, Hc in Hr. apply Hr. }
  rewrite Ep. cbn [bind]. rewrite Em. cbn [bind].
  repeat match goal with
         | |- exists _, Ok _ = Ok _ => eexists; reflexivity
         | |- exists _, (if ?b then _ else _) = _ => destruct b
         end.
Qed.

(** One block of [compose_recommendations]. *)
Definition chosen (st st' : selection) (c : category_name)
    (candidates : list thesis) (r : thesis) : Prop :=
  exists t p, In t candidates /\ same_keys t r /\
    player_role r = player_role t /\
    player r = Some p /\ (p ∉ used_players st) /\ (p ∈ used_players st') /\
    In (default "" (player_role r)) (allowed_roles (category_configs c)).

Lemma same_keys_trans a b c : same_keys a b -> same_keys b c -> same_keys a c.
Proof.
  intros (? & ? & ? & ?) (? & ? & ? & ?). repeat split; congruence.
Qed.

Lemma compose_category_spec game categorized st b c st' b' :
  compose_category game categorized (st, b) c = Ok (st', b') ->
  used_players st ⊆ used_players st' /\
  exists recs, b' = set_bucket b c recs /\
    (length recs <= num_selections c)%nat /\
    forall r, In r recs -> chosen st st' c (categorized c) r.
Proof.
  unfold compose_category. cbn [fst snd]. intros H.
  destruct (select_for_category st _ c game _) as [[st1 sel] |] eqn:Es;
    cbn [bind fst snd] in H; [| discriminate].
  destruct (adjust_all game st1 sel) as [[st2 adj] |] eqn:Ea;
    cbn [bind fst snd] in H; [| discriminate].
  apply select_for_category_spec in Es as (Hsub & Hlen & Hsel).
  apply adjust_all_spec in Ea as (Hu & Hl & Hadj).
  assert (Hadj' : forall r, In r adj -> chosen st st2 c (categorized c) r).
  { intros r Hr. destruct (Hadj r Hr) as (r0 & Hr0 & Hk & Hrole).
    destruct (Hsel r0 Hr0) as (t & p & Ht & Hkt & Hrt & Hp & Hfresh & Hused & _ & Hal).
    exists t, p. split; [exact Ht |]. split; [eapply same_keys_trans; eauto |].
    split; [congruence |].
    destruct Hk as (Kp & _). split; [congruence |]. split; [exact Hfresh |].
    split; [now rewrite Hu |]. now rewrite Hrole. }
  destruct adj as [| a adj].
  - cbn [bind] in H. injection H as <- <-. split; [now rewrite Hu |].
    exists []. split; [now rewrite take_nil |]. split; [cbn; lia | intros r []].
  - destruct (identify_strategy (a :: adj) game) as [sname |];
      cbn [bind] in H; [| discriminate].
    injection H as <- <-. split; [now rewrite Hu |].
    eexists. split; [reflexivity |]. split; [rewrite length_take; lia |].
    intros r Hr. apply list_elem_of_In, elem_of_take in Hr as (i & Hr & _).
    apply list_elem_of_lookup_2, list_elem_of_In in Hr.
    change (In r (map (fun r => with_strategy r sname (strategy_description_of sname))
                      (a :: adj))) in Hr.
    apply in_map_iff in Hr as (r1 & <- & Hr1).
    destruct (Hadj' r1 Hr1) as (t & p & Ht & Hk & Hrt & Hp & Hrest).
    exists t, p. split; [exact Ht |]. split; [exact Hk |]. split; [exact Hrt |].
    split; [exact Hp | exact Hrest].
Qed.

Lemma compose_category_total game categorized st b c :
  Forall complete (categorized c) ->
  exists res, compose_category game categorized (st, b) c = Ok res.
Proof.
  intros Hc. unfold compose_category. cbn [fst snd].
  destruct (select_for_category_total st (categorized c) c game (num_selections c) Hc)
    as [[st1 sel] Es].
  rewrite Es. cbn [bind fst snd].
  apply select_for_category_spec in Es as (_ & _ & Hsel).
  assert (Hsc : Forall complete sel).
  { rewrite Forall_forall. intros r Hr. apply list_elem_of_In in Hr.
    destruct (Hsel r Hr) as (t & p & _ & _ & _ & _ & _ & _ & Hcr & _). exact Hcr. }
  destruct (adjust_all_total game sel st1 Hsc) as [[st2 adj] Ea].
  rewrite Ea. cbn [bind fst snd].
  apply adjust_all_spec in Ea as (_ & _ & Hadj).
  destruct adj as [| a adj]; [cbn [bind]; eauto |].
  destruct (identify_strategy_total (a :: adj) game) as [sname En].
  { rewrite Forall_forall. intros r Hr. apply list_elem_of_In in Hr.
    destruct (Hadj r Hr) as (r0 & Hr0 & Hk & _).
    apply (same_keys_complete r0 r Hk). rewrite Forall_forall in Hsc.
    apply Hsc. now apply list_elem_of_In. }
  rewrite En. cbn [bind]. eauto.
Qed.

(** *** The four blocks together *)

Definition composed_ok (categorized : buckets) (acc : selection * buckets) : Prop :=
  (forall c r, In r (snd acc c) ->
     exists t p, In t (categorized c) /\ same_keys t r /\
       player_role r = player_role t /\
       player r = Some p /\ (p ∈ used_players (fst acc)) /\
       In (default "" (player_role r)) (allowed_roles (category_configs c))) /\
  (forall c1 c2 r1 r2, c1 ≠ c2 -> In r1 (snd acc c1) -> In r2 (snd acc c2) ->
     player r1 ≠ player r2) /\
  (forall c, (length (snd acc c) <= num_selections c)%nat).

Lemma compose_category_preserves game categorized acc c acc' :
  composed_ok categorized acc ->
  compose_category game categorized acc c = Ok acc' ->
  composed_ok categorized acc'.
Proof.
  destruct acc as [st b], acc' as [st' b']. intros (Hin & Hdis & Hlen) H.
  apply compose_category_spec in H as (Hsub & recs & -> & Hn & Hrecs).
  cbn [fst snd] in *. unfold composed_ok, set_bucket. cbn [fst snd].
  split; [| split].
  - intros c0 r Hr. destruct (decide (c0 = c)) as [-> | Hne].
    + destruct (Hrecs r Hr) as (t & p & Ht & Hk & Hrt & Hp & _ & Hused & Hal).
      eauto 10.
    + destruct (Hin c0 r Hr) as (t & p & Ht & Hk & Hrt & Hp & Hused & Hal).
      exists t, p. repeat split; try assumption; try apply Hk. now apply Hsub.
  - intros c1 c2 r1 r2 Hne H1 H2.
    destruct (decide (c1 = c)) as [-> | N1], (decide (c2 = c)) as [-> | N2].
    + contradiction.
    + destruct (Hrecs r1 H1) as (_ & p1 & _ & _ & _ & Hp1 & Hfresh & _).
      destruct (Hin c2 r2 H2) as (_ & p2 & _ & _ & _ & Hp2 & Hused & _).
      rewrite Hp1, Hp2. intros [= ->]. contradiction.
    + destruct (Hrecs r2 H2) as (_ & p2 & _ & _ & _ & Hp2 & Hfresh & _).
      destruct (Hin c1 r1 H1) as (_ & p1 & _ & _ & _ & Hp1 & Hused & _).
      rewrite Hp1, Hp2. intros [= ->]. contradiction.
    + now apply (Hdis c1 c2).
  - intros c0. destruct (decide (c0 = c)) as [-> | Hne]; [exact Hn | apply Hlen].
Qed.

Lemma compose_blocks_spec game categorized acc :
  foldM (compose_category game categorized) all_categories
        (reset_selection, empty_buckets) = Ok acc ->
  composed_ok categorized acc.
Proof.
  apply (foldM_invariant (compose_category game categorized) (composed_ok categorized)).
  - intros s a s' _ Hs Hstep. now apply (compose_category_preserves game categorized s a).
  - split; [intros c r [] | split; [intros c1 c2 r1 r2 _ [] | intros c; cbn; lia]].
Qed.

Lemma compose_blocks_total game categorized :
  (forall c, Forall complete (categorized c)) ->
  exists acc, foldM (compose_category game categorized) all_categories
                    (reset_selection, empty_buckets) = Ok acc.
Proof.
  intros Hc.
  destruct (foldM_total (compose_category game categorized) (fun _ => True)
              all_categories) with (s := (reset_selection, empty_buckets))
    as (acc & E & _); [| exact I | eauto].
  intros [st b] c _ _.
  destruct (compose_category_total game categorized st b c (Hc c)) as [res E]. eauto.
Qed.

(** *** Cross-category de-duplication *)

Lemma without_player_spec p :
  forall recs kept,
  without_player p recs = Ok kept ->
  (length kept <= length recs)%nat /\ forall r, In r kept -> In r recs.
Proof.
  unfold without_player.
  assert (G : forall recs acc kept,
             foldM (fun acc r =>
                      q <- index "player" (player r) ;;
                      if String.eqb q p then Ok acc else Ok (acc ++ [r])%list)
                   recs acc = Ok kept ->
             (length kept <= length acc + length recs)%nat /\
             forall r, In r kept -> In r acc \/ In r recs).
  { induction recs as [| r recs IH]; intros acc kept H; cbn [foldM] in H.
    - injection H as <-. split; [cbn; lia | auto].
    - destruct (player r) as [q |]; cbn [bind index] in H; [| discriminate].
      destruct (String.eqb q p); cbn [bind] in H; apply IH in H as [Hl Hin].
      + split; [cbn; lia |]. intros r' Hr'. destruct (Hin r' Hr'); [now left |].
        right. now right.
      + rewrite length_app in Hl. split; [cbn in *; lia |].
        intros r' Hr'. destruct (Hin r' Hr') as [Ha | Hb].
        * apply in_app_or in Ha as [Ha | [<- | []]]; [now left | right; now left].
        * right. now right. }
  intros recs kept H. apply G in H as [Hl Hin]. split; [exact Hl |].
  intros r Hr. destruct (Hin r Hr) as [[] | ?]. assumption.
Qed.

Lemma without_player_total p recs :
  (forall r, In r recs -> is_Some (player r)) ->
  exists kept, without_player p recs = Ok kept.
Proof.
  unfold without_player. intros H.
  assert (G : forall acc, exists kept,
             foldM (fun acc r =>
                      q <- index "player" (player r) ;;
                      if String.eqb q p then Ok acc else Ok (acc ++ [r])%list)
                   recs acc = Ok kept); [| apply G].
  induction recs as [| r recs IH]; intros acc; cbn [foldM]; [eauto |].
  destruct (H r (or_introl eq_refl)) as [q Hq]. rewrite Hq. cbn [bind index].
  destruct (String.eqb q p); cbn [bind]; apply IH; intros r' Hr'; apply H; now right.
Qed.

(** The de-duplication only removes entries, and its two tables have the
    same keys. *)
Definition shrunk (b0 : buckets) (d : diversity) : Prop :=
  (forall c r, In r (recommendations d c) -> In r (b0 c)) /\
  (forall c, (length (recommendations d c) <= length (b0 c))%nat) /\
  (forall p, is_Some (player_to_score d !! p) -> is_Some (player_to_category d !! p)).

Lemma set_bucket_shrunk b0 (b : buckets) c kept :
  (forall c r, In r (b c) -> In r (b0 c)) ->
  (forall c, (length (b c) <= length (b0 c))%nat) ->
  (length kept <= length (b c))%nat -> (forall r, In r kept -> In r (b c)) ->
  (forall c' r, In r (set_bucket b c kept c') -> In r (b0 c')) /\
  (forall c', (length (set_bucket b c kept c') <= length (b0 c'))%nat).
Proof.
  intros Hin Hlen Hk Hkin. unfold set_bucket. split.
  - intros c' r. destruct (decide (c' = c)) as [-> | _]; [| apply Hin].
    intros Hr. apply Hin, Hkin, Hr.
  - intros c'. destruct (decide (c' = c)) as [-> | _]; [| apply Hlen].
    specialize (Hlen c). lia.
Qed.

Lemma diversity_step_shrunk b0 c d rec d' :
  shrunk b0 d -> diversity_step c d rec = Ok d' -> shrunk b0 d'.
Proof.
  intros (Hin & Hlen & Hdom) H. unfold diversity_step in H.
  destruct (player rec) as [p |]; cbn [bind index] in H; [| discriminate].
  destruct (confidence rec) as [cf |]; cbn [bind index] in H; [| discriminate].
  destruct (player_to_score d !! p) as [old |] eqn:Eold.
  - destruct (qltb old _).
    + destruct (player_to_category d !! p) as [oc |]; cbn [bind index] in H;
        [| discriminate].
      destruct (without_player p _) as [kept |] eqn:Ew; cbn [bind] in H;
        [| discriminate].
      injection H as <-. apply without_player_spec in Ew as [Hk Hkin].
      destruct (set_bucket_shrunk b0 (recommendations d) oc kept Hin Hlen Hk Hkin)
        as [S1 S2].
      split; [exact S1 | split; [exact S2 |]]. cbn. intros q Hq.
      destruct (decide (p = q)) as [<- | Hne].
      * rewrite lookup_insert_eq. eauto.
      * rewrite lookup_insert_ne in Hq by exact Hne.
        rewrite lookup_insert_ne by exact Hne. now apply Hdom.
    + destruct (without_player p _) as [kept |] eqn:Ew; cbn [bind] in H;
        [| discriminate].
      injection H as <-. apply without_player_spec in Ew as [Hk Hkin].
      destruct (set_bucket_shrunk b0 (recommendations d) c kept Hin Hlen Hk Hkin)
        as [S1 S2].
      split; [exact S1 | split; [exact S2 | exact Hdom]].
  - injection H as <-. split; [exact Hin | split; [exact Hlen |]]. cbn.
    intros q Hq. destruct (decide (p = q)) as [<- | Hne].
    + rewrite lookup_insert_eq. eauto.
    + rewrite lookup_insert_ne in Hq by exact Hne.
      rewrite lookup_insert_ne by exact Hne. now apply Hdom.
Qed.

Lemma diversity_step_total b0 c d rec :
  (forall c r, In r (b0 c) -> complete r) ->
  shrunk b0 d -> complete rec ->
  exists d', diversity_step c d rec = Ok d'.
Proof.
  intros Hb0 (Hin & _ & Hdom) ([p Hp] & [cf Hc] & _). unfold diversity_step.
  rewrite Hp, Hc. cbn [bind index].
  assert (Hw : forall c', exists kept, without_player p (recommendations d c') = Ok kept).
  { intros c'. apply without_player_total. intros r Hr. apply (Hb0 c'), Hin, Hr. }
  destruct (player_to_score d !! p) as [old |] eqn:Eold; [| eauto].
  destruct (qltb old _).
  - destruct (Hdom p) as [oc Hoc]; [eauto |]. rewrite Hoc. cbn [bind index].
    destruct (Hw oc) as [kept ->]. cbn [bind]. eauto.
  - destruct (Hw c) as [kept ->]. cbn [bind]. eauto.
Qed.

Lemma ensure_diversity_spec b0 b :
  _ensure_cross_category_diversity b0 = Ok b ->
  (forall c r, In r (b c) -> In r (b0 c)) /\
  (forall c, (length (b c) <= length (b0 c))%nat).
Proof.
  unfold _ensure_cross_category_diversity. intros H.
  destruct (foldM _ all_categories _) as [d |] eqn:E; cbn [bind] in H; [| discriminate].
  injection H as <-.
  assert (Hd : shrunk b0 d).
  { revert E. apply foldM_invariant.
    - intros s c s' _ Hs. apply foldM_invariant; [| exact Hs].
      intros s0 rec s0' _ Hs0. now apply diversity_step_shrunk.
    - split; [auto | split; [auto |]]. cbn. intros p [x Hx].
      now rewrite lookup_empty in Hx. }
  destruct Hd as (Hin & Hlen & _). split; assumption.
Qed.

Lemma ensure_diversity_total b0 :
  (forall c r, In r (b0 c) -> complete r) ->
  exists b, _ensure_cross_category_diversity b0 = Ok b.
Proof.
  intros Hb0. unfold _ensure_cross_category_diversity.
  destruct (foldM_total
              (fun d c => foldM (diversity_step c) (recommendations d c) d)
              (shrunk b0) all_categories)
    with (s := {| recommendations := b0; player_to_category := ∅;
                  player_to_score := ∅ |}) as (d & E & _).
  - intros d c _ Hd.
    apply (foldM_total (diversity_step c) (shrunk b0)); [| exact Hd].
    intros d1 rec Hrec Hd1.
    destruct (diversity_step_total b0 c d1 rec Hb0 Hd1) as [d2 E2].
    + destruct Hd as (Hin & _). apply (Hb0 c), Hin, Hrec.
    + exists d2. split; [exact E2 |]. now apply (diversity_step_shrunk b0 c d1 rec).
  - split; [auto | split; [auto |]]. cbn. intros p [x Hx].
    now rewrite lookup_empty in Hx.
  - rewrite E. cbn [bind]. eauto.
Qed.

(** *** The composition as a whole *)

Lemma compose_recommendations_spec all_theses game recs :
  compose_recommendations all_theses game = Ok recs ->
  exists acc,
    composed_ok (categorize_theses all_theses game) acc /\
    (forall c r, In r (recs c) -> In r (snd acc c)) /\
    (forall c, (length (recs c) <= length (snd acc c))%nat).
Proof.
  unfold compose_recommendations. intros H.
  destruct (foldM _ all_categories _) as [acc |] eqn:E; cbn [bind] in H;
    [| discriminate].
  apply compose_blocks_spec in E. apply ensure_diversity_spec in H as [Hin Hlen].
  exists acc. auto.
Qed.

Lemma categorize_theses_complete all_theses game :
  Forall complete (input_theses all_theses) ->
  forall c, Forall complete (categorize_theses all_theses game c).
Proof.
  intros Hc c. rewrite Forall_forall. intros x Hx. apply list_elem_of_In in Hx.
  destruct (categorize_theses_candidates all_theses game c x Hx) as (t & Ht & Hk & _).
  apply (same_keys_complete t x Hk). rewrite Forall_forall in Hc.
  apply Hc. now apply list_elem_of_In.
Qed.

Lemma compose_recommendations_total all_theses game :
  Forall complete (input_theses all_theses) ->
  exists recs, compose_recommendations all_theses game = Ok recs.
Proof.
  intros Hc. unfold compose_recommendations.
  pose proof (categorize_theses_complete all_theses game Hc) as Hcat.
  destruct (compose_blocks_total game _ Hcat) as [acc E]. rewrite E. cbn [bind].
  apply ensure_diversity_total. intros c r Hr.
  apply compose_blocks_spec in E as (Hin & _).
  destruct (Hin c r Hr) as (t & p & Ht & Hk & _).
  apply (same_keys_complete t r Hk). specialize (Hcat c).
  rewrite Forall_forall in Hcat. apply Hcat. now apply list_elem_of_In.
Qed.

Definition example_thesis (who ty mkt role_ : string) (conf : Q) : thesis :=
  {| player := Some who; th_player_id := None; market := Some mkt;
     confidence := Some conf; evidences := []; weights := [];
     thesis_type := Some ty; suggested_line := None; is_risk := None;
     player_ctx :=
       Some {| name := Some who; id := None; pos := None; player_class := None;
               role := Some role_; team := Some "MIA"; dvp_reb := None;
               dvp_ast := None; dvp_pts := None; usg := None; ast_pct := None;
               ppg := None; rpg := None; apg := None; pra := None;
               min_avg := None; last_5_ppg := None; last_5_rpg := None;
               last_5_apg := None; last_5_pra := None; last_5_min_avg := None |};
     player_position := None;
     th_team := None; strategy := None;
     category := None; player_team := None; player_role := None;
     strategy_category := None; selection_score := None;
     adjusted_confidence := None; score_adjustment := None; adjustments := None;
     identified_strategy := None; strategy_description := None |}.

Definition example_game : game_ctx :=
  {| home_team := Some "MIA"; away_team := Some "BOS"; spread := Some (- (35 # 10));
     total := Some (2255 # 10); pace := Some (1025 # 10) |}.

Definition example_theses : list (string * list thesis) :=
  [ ("A", [example_thesis "A" "BigRebound" "REB" "starter" (8 # 10);
           example_thesis "A" "ScorerLine" "PTS" "starter" (7 # 10)]);
    ("B", [example_thesis "B" "ValueHunter" "PRA" "rotation" (7 # 10)]);
    ("C", [example_thesis "C" "AssistMatchup" "AST" "star" (9 # 10)]);
    ("D", [example_thesis "D" "PaceBoost" "PTS" "rotation" (65 # 100)]) ].

(** Both theses of A are picked into the first bucket and the
    de-duplication then removes A altogether; the star C is a candidate
    of the last bucket and is skipped there. *)
Example compose_example :
  match compose_recommendations example_theses example_game with
  | Ok recs =>
      map player (recs conservadora) = [] /\
      map player (recs ousada) = [] /\
      map player (recs banco) = [Some "B"] /\
      map player (recs explosao) = [Some "D"] /\
      map player (categorize_theses example_theses example_game explosao)
        = [Some "C"; Some "D"]
  | Raise _ => False
  end.
Proof. vm_compute. repeat split. Qed.

(** C1.  In the mapping returned by [compose_recommendations] no player
    appears in two buckets, and the buckets hold at most 4, 3, 3 and 2
    entries.  The call returns whenever every input thesis has the keys
    [player], [confidence], [market] and [thesis_type]. *)
Theorem compose_recommendations_disjoint_bounded
    (all_theses : list (string * list thesis)) (game : game_ctx) :
  match compose_recommendations all_theses game with
  | Ok recs =>
      (forall c1 c2 r1 r2, c1 ≠ c2 -> In r1 (recs c1) -> In r2 (recs c2) ->
         is_Some (player r1) /\ player r1 ≠ player r2) /\
      (length (recs conservadora) <= 4)%nat /\
      (length (recs ousada) <= 3)%nat /\
      (length (recs banco) <= 3)%nat /\
      (length (recs explosao) <= 2)%nat
  | Raise _ => ~ Forall complete (input_theses all_theses)
  end.
Proof.
  destruct (compose_recommendations all_theses game) as [recs | e] eqn:E.
  - apply compose_recommendations_spec in E as (acc & (Hin & Hdis & Hcap) & Hsub & Hlen).
    split.
    + intros c1 c2 r1 r2 Hne H1 H2. split.
      * destruct (Hin c1 r1 (Hsub c1 r1 H1)) as (_ & p & _ & _ & _ & Hp & _).
        rewrite Hp. eauto.
      * apply (Hdis c1 c2); auto.
    + pose proof (Hlen conservadora). pose proof (Hcap conservadora).
      pose proof (Hlen ousada). pose proof (Hcap ousada).
      pose proof (Hlen banco). pose proof (Hcap banco).
      pose proof (Hlen explosao). pose proof (Hcap explosao).
      cbn [num_selections] in *. repeat split; lia.
  - intros Hc. destruct (compose_recommendations_total all_theses game Hc) as [recs E'].
    congruence.
Qed.

Definition role_set : list string := ["starter"; "rotation"; "bench"].

Lemma allowed_roles_subset c role_ :
  In role_ (allowed_roles (category_configs c)) -> In role_ role_set.
Proof. destruct c; cbn; intuition. Qed.

(** C10.  Every bucket's [allowed_roles] lies within starter, rotation,
    bench; [select_for_category] returns only theses whose [player_role] is
    among the bucket's allowed roles; every entry of a bucket returned by
    [compose_recommendations] is a copy of an input thesis whose
    player-context role is one of the bucket's allowed roles, hence never
    star, bench_scorer or deep_bench, the other roles that
    [build_player_ctx] produces. *)
Theorem compose_recommendations_roles
    (all_theses : list (string * list thesis)) (game : game_ctx) :
  (forall c role_, In role_ (allowed_roles (category_configs c)) ->
     In role_ ["starter"; "rotation"; "bench"]) /\
  (forall entry row team_abbr,
     In (PlayerContext.role (PlayerContext.build_player_ctx entry row team_abbr))
        ["star"; "starter"; "bench_scorer"; "rotation"; "deep_bench"]) /\
  (forall st candidates c n,
     match select_for_category st candidates c game n with
     | Ok (_, selected) =>
         forall r, In r selected ->
           In (default "" (player_role r)) (allowed_roles (category_configs c))
     | Raise _ => True
     end) /\
  match compose_recommendations all_theses game with
  | Ok recs =>
      forall c r, In r (recs c) ->
        exists t, In t (input_theses all_theses) /\
          player r = player t /\
          player_role r = Some (ctx_field t role) /\
          In (ctx_field t role) (allowed_roles (category_configs c)) /\
          ~ In (ctx_field t role) ["star"; "bench_scorer"; "deep_bench"]
  | Raise _ => ~ Forall complete (input_theses all_theses)
  end.
Proof.
  split; [exact allowed_roles_subset |].
  split; [exact PlayerContext.build_player_ctx_role_in |].
  split.
  { intros st candidates c n.
    destruct (select_for_category st candidates c game n) as [[st' sel] |] eqn:Es;
      [| exact I].
    intros r Hr. apply select_for_category_spec in Es as (_ & _ & Hsel).
    destruct (Hsel r Hr) as (t & p & _ & _ & _ & _ & _ & _ & _ & Hal). exact Hal. }
  destruct (compose_recommendations all_theses game) as [recs | e] eqn:E.
  - apply compose_recommendations_spec in E as (acc & (Hin & _) & Hsub & _).
    intros c r Hr.
    destruct (Hin c r (Hsub c r Hr)) as (x & p & Hx & Hk & Hrole & _ & _ & Hal).
    destruct (categorize_theses_candidates all_theses game c x Hx)
      as (t & Ht & Hkt & Hxr).
    exists t. split; [exact Ht |].
    split; [destruct Hk as [-> _]; destruct Hkt as [-> _]; reflexivity |].
    rewrite Hrole, Hxr in Hal.
    change (In (ctx_field t role) (allowed_roles (category_configs c))) in Hal.
    split; [now rewrite Hrole |]. split; [exact Hal |].
    apply allowed_roles_subset in Hal. intros Hbad.
    unfold role_set in Hal. cbn [In] in Hal, Hbad.
    destruct Hal as [Ha | [Ha | [Ha | []]]]; rewrite <- Ha in Hbad;
      destruct Hbad as [? | [? | [? | []]]]; discriminate.
  - intros Hc. destruct (compose_recommendations_total all_theses game Hc) as [recs E'].
    congruence.
Qed.

(** A thesis dict without the key [player]. *)
Definition nameless_thesis : thesis :=
  {| player := None; th_player_id := None; market := Some "PTS";
     confidence := Some (8 # 10); evidences := []; weights := [];
     thesis_type := Some "ScorerLine"; suggested_line := None;
     is_risk := None;
     player_ctx := player_ctx (example_thesis "X" "ScorerLine" "PTS"
                                 "starter" (8 # 10));
     player_position := None;
     th_team := None; strategy := None;
     category := None; player_team := None; player_role := None;
     strategy_category := None; selection_score := None;
     adjusted_confidence := None; score_adjustment := None;
     adjustments := None; identified_strategy := None;
     strategy_description := None |}.

(** C5 fails for [compose_recommendations]: it has no handler, so the
    [KeyError] of a candidate without [player] leaves the call. *)
Lemma compose_recommendations_raises :
  compose_recommendations [("X", [nameless_thesis])] example_game
  = Raise (KeyError "player").
Proof. vm_compute. reflexivity. Qed.

End StrategyEngine.

(** ** modules/new_modules/daily_multiple.py *)

Module DailyMultiple.

Import Num.
Local Open Scope Q_scope.

(** A leg of a ticket: the keys of the recommendation dict that the
    ticket builder reads. *)
Record leg : Type := {
  leg_player_id : option string;
  leg_team : option string;
  leg_market : option string;
  score_final : option Q;
  original_category : option string
}.

(** A truthy result of [validate_pair]. *)
Record violation : Type := {
  severity : option string
}.

Definition option_eqb {A} (eqb : A -> A -> bool) (a b : option A) : bool :=
  match a, b with
  | Some x, Some y => eqb x y
  | None, None => true
  | _, _ => false
  end.

(** [==] on two legs: the same keys with equal values. *)
Definition leg_eqb (a b : leg) : bool :=
  option_eqb String.eqb (leg_player_id a) (leg_player_id b) &&
  option_eqb String.eqb (leg_team a) (leg_team b) &&
  option_eqb String.eqb (leg_market a) (leg_market b) &&
  option_eqb qeqb (score_final a) (score_final b) &&
  option_eqb String.eqb (original_category a) (original_category b).

(** [x.get('score_final', 0)] *)
Definition score (x : leg) : Q := default 0 (score_final x).

(** [list.remove(x)]: drops the first element equal to [x].  (A list
    without such an element raises [ValueError]; the element removed below
    is always taken from the list itself.) *)
Fixpoint remove_first (x : leg) (l : list leg) : list leg :=
  match l with
  | [] => []
  | y :: l' => if leg_eqb y x then l' else y :: remove_first x l'
  end.

(** The pairs [(multiple[i], multiple[j])] with [i < j], in loop order. *)
Fixpoint leg_pairs (multiple : list leg) : list (leg * leg) :=
  match multiple with
  | [] => []
  | rec1 :: rest => (map (pair rec1) rest ++ leg_pairs rest)%list
  end.

Definition is_critical (v : violation) : bool :=
  match severity v with
  | Some s => String.eqb s "critical"
  | None => false
  end.

(** [multiple_sorted[0]] for a non-empty list. *)
Definition lowest_scored (first : leg) (rest : list leg) : leg :=
  hd first (sorted_asc score (first :: rest)).

Definition drop_lowest (multiple : list leg) : list leg :=
  match multiple with
  | [] => []
  | first :: rest => remove_first (lowest_scored first rest) multiple
  end.

Lemma option_eqb_refl {A} (eqb : A -> A -> bool) (o : option A) :
  (forall x, eqb x x = true) -> option_eqb eqb o o = true.
Proof. intros H. destruct o; cbn; auto. Qed.

Lemma leg_eqb_refl x : leg_eqb x x = true.
Proof.
  unfold leg_eqb.
  rewrite !(option_eqb_refl String.eqb) by apply String.eqb_refl.
  rewrite (option_eqb_refl qeqb); [reflexivity |].
  intros q. apply qeqb_true. reflexivity.
Qed.

Lemma remove_first_length x l :
  In x l -> S (length (remove_first x l)) = length l.
Proof.
  induction l as [| y l IH]; intros Hin; [destruct Hin |].
  cbn. destruct (leg_eqb y x) eqn:E; [reflexivity |].
  destruct Hin as [-> | Hin]; [rewrite leg_eqb_refl in E; discriminate |].
  cbn. now rewrite IH.
Qed.

Lemma lowest_scored_In first rest : In (lowest_scored first rest) (first :: rest).
Proof.
  unfold lowest_scored, sorted_asc.
  destruct (sort_by _ (first :: rest)) as [| x l] eqn:E.
  - cbn. now left.
  - apply (sort_by_In (fun y x => qltb (score y) (score x))). rewrite E. now left.
Qed.

(** Removing the lowest-scored leg makes a non-empty ticket one shorter. *)
Lemma drop_lowest_length first rest :
  S (length (drop_lowest (first :: rest))) = length (first :: rest).
Proof. apply remove_first_length, lowest_scored_In. Qed.

(** The pairs that the two loops visit are the pairs of legs at two
    positions of the ticket, the first before the second. *)
Lemma leg_pairs_lookup (multiple : list leg) (a b : leg) :
  In (a, b) (leg_pairs multiple) <->
  exists i j, (i < j)%nat /\ multiple !! i = Some a /\ multiple !! j = Some b.
Proof.
  induction multiple as [| r rest IH].
  - split; [intros [] |]. intros (i & j & _ & Hi & _). discriminate Hi.
  - cbn [leg_pairs]. rewrite in_app_iff, IH, in_map_iff. split.
    + intros [(x & Hx & Hin) | (i & j & Hij & Hi & Hj)].
      * injection Hx as <- <-. apply list_elem_of_In in Hin.
        apply list_elem_of_lookup in Hin as [j Hj].
        exists 0%nat, (S j). split; [lia |]. split; [reflexivity | exact Hj].
      * exists (S i), (S j). split; [lia |]. split; assumption.
    + intros (i & j & Hij & Hi & Hj). destruct i as [| i], j as [| j]; try lia.
      * left. cbn in Hi, Hj. injection Hi as <-. exists b. split; [reflexivity |].
        apply list_elem_of_In. apply list_elem_of_lookup. now exists j.
      * right. exists i, j. split; [lia |]. split; assumption.
Qed.

Section Validation.

(** [self.correlation_validator.validate_pair], a collaborator that is
    not part of the sources; [None] stands for any falsy result. *)
Variable validate_pair : leg -> leg -> option violation.

Definition violations (multiple : list leg) : list violation :=
  omap (fun p => validate_pair (fst p) (snd p)) (leg_pairs multiple).

Definition critical_violations (multiple : list leg) : list violation :=
  List.filter is_critical (violations multiple).

Equations? _validate_multiple (multiple : list leg) : list leg
  by wf (length multiple) lt :=
  _validate_multiple [] := [];
  _validate_multiple (first :: rest) with critical_violations (first :: rest) => {
    | [] := first :: rest;
    | _ :: _ := _validate_multiple (drop_lowest (first :: rest))
  }.
Proof.
  change (length (drop_lowest (first :: rest)) < length (first :: rest))%nat.
  rewrite <- (drop_lowest_length first rest). lia.
Defined.

Lemma _validate_multiple_step (multiple : list leg) :
  _validate_multiple multiple =
  match multiple, critical_violations multiple with
  | [], _ => []
  | _ :: _, [] => multiple
  | _ :: _, _ :: _ => _validate_multiple (drop_lowest multiple)
  end.
Proof.
  destruct multiple as [| first rest]; simp _validate_multiple; [reflexivity |].
  destruct (critical_violations (first :: rest)); reflexivity.
Qed.

Lemma _validate_multiple_clean (multiple : list leg) :
  critical_violations (_validate_multiple multiple) = [].
Proof.
  funelim (_validate_multiple multiple); [reflexivity | assumption | assumption].
Qed.

(** A ticket without critical violations, said without the loops: at no
    two positions, the first before the second, does the validator report
    a violation of severity [critical]. *)
Definition no_critical_pair (multiple : list leg) : Prop :=
  forall i j a b v, (i < j)%nat ->
    multiple !! i = Some a -> multiple !! j = Some b ->
    validate_pair a b = Some v -> severity v <> Some "critical".

Lemma is_critical_severity (v : violation) :
  is_critical v = true <-> severity v = Some "critical".
Proof.
  unfold is_critical. destruct (severity v) as [s |].
  - rewrite String.eqb_eq. split; congruence.
  - split; discriminate.
Qed.

Lemma critical_violations_nil (multiple : list leg) :
  critical_violations multiple = [] <-> no_critical_pair multiple.
Proof.
  unfold critical_violations, violations, no_critical_pair. split.
  - intros Hnil i j a b v Hij Hi Hj Hv Hs.
    assert (Hin : In v (List.filter is_critical
                          (omap (fun p => validate_pair (fst p) (snd p))
                                (leg_pairs multiple)))).
    { apply filter_In. split; [| now apply is_critical_severity].
      apply list_elem_of_In. apply list_elem_of_omap. exists (a, b).
      split; [| exact Hv]. apply list_elem_of_In. apply leg_pairs_lookup.
      exists i, j. auto. }
    rewrite Hnil in Hin. destruct Hin.
  - intros Hno.
    destruct (List.filter _ _) as [| v l] eqn:E; [reflexivity | exfalso].
    assert (Hin : In v (v :: l)) by now left.
    rewrite <- E in Hin. apply filter_In in Hin as [Hin Hc].
    apply list_elem_of_In in Hin. apply list_elem_of_omap in Hin as ([a b] & Hab & Hv).
    apply list_elem_of_In in Hab. apply leg_pairs_lookup in Hab as (i & j & Hij & Hi & Hj).
    apply (Hno i j a b v Hij Hi Hj Hv). now apply is_critical_severity.
Qed.

Lemma _validate_multiple_no_critical_pair (multiple : list leg) :
  no_critical_pair (_validate_multiple multiple).
Proof. apply critical_violations_nil, _validate_multiple_clean. Qed.

Lemma _validate_multiple_length (multiple : list leg) :
  (length (_validate_multiple multiple) <= length multiple)%nat.
Proof.
  funelim (_validate_multiple multiple); [reflexivity | reflexivity |].
  pose proof (drop_lowest_length first rest) as Hl.
  change (length (_validate_multiple (drop_lowest (first :: rest)))
          <= length (drop_lowest (first :: rest)))%nat in H.
  lia.
Qed.

End Validation.

(** A validator that flags two legs of the same team as critical.  In
    the example the lowest-scored leg goes first, whether or not it takes
    part in a violation: C, then B, then A. *)
Definition same_team_validator (a b : leg) : option violation :=
  if option_eqb String.eqb (leg_team a) (leg_team b)
  then Some {| severity := Some "critical" |}
  else None.

Definition example_leg (who team_ : string) (s : Q) : leg :=
  {| leg_player_id := Some who; leg_team := Some team_; leg_market := Some "PTS";
     score_final := Some s; original_category := Some "conservadora" |}.

Example validate_example :
  map leg_player_id
    (_validate_multiple same_team_validator
       [example_leg "A" "MIA" (7 # 10); example_leg "B" "MIA" (6 # 10);
        example_leg "C" "BOS" (5 # 10); example_leg "D" "MIA" (9 # 10)])
  = [Some "D"].
Proof. vm_compute. reflexivity. Qed.

(** C4.  [_validate_multiple] is a total function: on a ticket with a
    critical violation it removes one leg (the ticket gets exactly one
    shorter) and validates the rest again, otherwise it returns the ticket.
    The ticket it returns has no pair of legs with a critical violation (an
    empty ticket has no pairs): at no two positions [i < j] of it does
    [validate_pair] report severity [critical] for the leg at [i] and the
    leg at [j], the order in which the code asks; when the validator does
    not depend on the order of its arguments, the same holds for every two
    distinct positions. *)
Theorem validate_multiple_terminates_clean
    (validate_pair : leg -> leg -> option violation) (multiple : list leg) :
  critical_violations validate_pair (_validate_multiple validate_pair multiple) = [] /\
  (forall i j a b v, (i < j)%nat ->
     _validate_multiple validate_pair multiple !! i = Some a ->
     _validate_multiple validate_pair multiple !! j = Some b ->
     validate_pair a b = Some v -> severity v <> Some "critical") /\
  ((forall a b v, validate_pair a b = Some v -> severity v = Some "critical" ->
      exists v', validate_pair b a = Some v' /\ severity v' = Some "critical") ->
   forall i j a b v, i <> j ->
     _validate_multiple validate_pair multiple !! i = Some a ->
     _validate_multiple validate_pair multiple !! j = Some b ->
     validate_pair a b = Some v -> severity v <> Some "critical") /\
  (length (_validate_multiple validate_pair multiple) <= length multiple)%nat /\
  match multiple, critical_violations validate_pair multiple with
  | [], _ => _validate_multiple validate_pair multiple = []
  | _ :: _, [] => _validate_multiple validate_pair multiple = multiple
  | _ :: _, _ :: _ =>
      S (length (drop_lowest multiple)) = length multiple /\
      _validate_multiple validate_pair multiple =
        _validate_multiple validate_pair (drop_lowest multiple)
  end.
Proof.
  pose proof (_validate_multiple_no_critical_pair validate_pair multiple) as Hno.
  split; [apply _validate_multiple_clean |].
  split; [exact Hno |].
  split.
  { intros Hsym i j a b v Hij Hi Hj Hv Hs.
    destruct (Nat.lt_total i j) as [Hlt | [Heq | Hgt]]; [| contradiction |].
    - exact (Hno i j a b v Hlt Hi Hj Hv Hs).
    - destruct (Hsym a b v Hv Hs) as (v' & Hv' & Hs').
      exact (Hno j i b a v' Hgt Hj Hi Hv' Hs'). }
  split; [apply _validate_multiple_length |].
  rewrite (_validate_multiple_step validate_pair multiple).
  destruct multiple as [| first rest]; [reflexivity |].
  destruct (critical_violations validate_pair (first :: rest)); [reflexivity |].
  split; [apply drop_lowest_length | reflexivity].
Qed.

End DailyMultiple.

(** ** modules/new_modules/multipla_do_dia.py *)

Module MultiplaDoDia.

Import Num Data.
Local Open Scope Q_scope.

Record game_data : Type := {
  home : option string;
  away : option string;
  gd_spread : option Q;
  gd_total : option Q;
  gd_pace : option Q
}.

Record multipla : Type := {
  m_conservadora : list thesis;
  m_ousada : list thesis
}.

Definition empty_multipla : multipla :=
  {| m_conservadora := []; m_ousada := [] |}.

Definition max_players_per_team : nat := 4.
Definition min_legs_conservadora : nat := 3.
Definition max_legs_conservadora : nat := 6.
Definition min_legs_ousada : nat := 2.
Definition max_legs_ousada : nat := 4.

(** [matchup_context] (the key [gameId] is not part of [game_ctx]). *)
Definition matchup_context (g : game_data) : game_ctx :=
  {| home_team := home g; away_team := away g;
     spread := Some (default 0 (gd_spread g));
     total := Some (default 220 (gd_total g));
     pace := Some (default 100 (gd_pace g)) |}.

(** [rec['strategy'] = category] *)
Definition with_strategy_key (t : thesis) (cat : string) : thesis :=
  {| player := player t; th_player_id := th_player_id t; market := market t;
     confidence := confidence t; evidences := evidences t; weights := weights t;
     thesis_type := thesis_type t; suggested_line := suggested_line t;
     is_risk := is_risk t; player_ctx := player_ctx t;
     player_position := player_position t;
     th_team := th_team t; strategy := Some cat;
     category := category t; player_team := player_team t;
     player_role := player_role t;
     strategy_category := strategy_category t; selection_score := selection_score t;
     adjusted_confidence := adjusted_confidence t;
     score_adjustment := score_adjustment t; adjustments := adjustments t;
     identified_strategy := identified_strategy t;
     strategy_description := strategy_description t |}.

Definition has_strategy (cat : string) (t : thesis) : bool :=
  match strategy t with
  | Some s => String.eqb s cat
  | None => false
  end.

Definition id_eqb (a b : option string) : bool :=
  match a, b with
  | Some x, Some y => String.eqb x y
  | None, None => true
  | _, _ => false
  end.

(** The loop of [_apply_diversification], with its [break]. *)
Fixpoint diversify (max_legs : nat) (recs selected : list thesis)
    (team_counts : gmap (option string) nat) : list thesis :=
  match recs with
  | [] => selected
  | rec :: rest =>
      let player_id := th_player_id rec in
      let team := th_team rec in
      if existsb (fun r => id_eqb player_id (th_player_id r)) selected then
        diversify max_legs rest selected team_counts
      else if (max_players_per_team <=? default 0%nat (team_counts !! team))%nat then
        diversify max_legs rest selected team_counts
      else
        let selected' := (selected ++ [rec])%list in
        let team_counts' :=
          <[team := S (default 0%nat (team_counts !! team))]> team_counts in
        if (max_legs <=? length selected')%nat then selected'
        else diversify max_legs rest selected' team_counts'
  end.

Definition _apply_diversification (recs : list thesis) (max_legs : nat) : list thesis :=
  match recs with
  | [] => recs
  | _ =>
      diversify max_legs (sorted_desc (fun x => default 0 (confidence x)) recs) [] ∅
  end.

Section Engine.

(** [self.strategy_engine.compose_recommendations(pd.DataFrame(), ctx)]:
    the engine is whatever object the caller passed in. *)
Variable compose : game_ctx -> result StrategyEngine.buckets.

(** The body of the loop over the games. *)
Definition add_game (acc : list thesis * list thesis) (g : game_data)
  : result (list thesis * list thesis) :=
  recommendations_dict <- compose (matchup_context g) ;;
  let all_recommendations :=
    concat (map (fun c => map (fun rec => with_strategy_key rec
                                            (StrategyEngine.category_key c))
                              (recommendations_dict c))
                StrategyEngine.all_categories) in
  match all_recommendations with
  | [] => Ok acc
  | _ =>
      let conservadora_recs := List.filter (has_strategy "conservadora") all_recommendations in
      let ousada_recs := List.filter (has_strategy "ousada") all_recommendations in
      let banco_recs := List.filter (has_strategy "banco") all_recommendations in
      let explosao_recs := List.filter (has_strategy "explosao") all_recommendations in
      Ok ((fst acc ++ conservadora_recs)%list,
          (snd acc ++ (ousada_recs ++ banco_recs ++ explosao_recs))%list)
  end.

(** The [try] block. *)
Definition generate_body (game_data_list : list game_data) : result multipla :=
  acc <- foldM add_game game_data_list ([], []) ;;
  let conservadora := _apply_diversification (fst acc) max_legs_conservadora in
  let ousada := _apply_diversification (snd acc) max_legs_ousada in
  let conservadora :=
    if (length conservadora <? min_legs_conservadora)%nat
    then take min_legs_conservadora conservadora else conservadora in
  let ousada :=
    if (length ousada <? min_legs_ousada)%nat
    then take min_legs_ousada ousada else ousada in
  let ousada :=
    List.filter
      (fun rec => negb (existsb (fun r => id_eqb (th_player_id rec) (th_player_id r))
                                conservadora))
      ousada in
  Ok {| m_conservadora := conservadora; m_ousada := ousada |}.

End Engine.

(** [generate_multipla]: no engine gives empty tickets; any exception of
    the body is caught and gives empty tickets as well. *)
Definition generate_multipla
    (strategy_engine : option (game_ctx -> result StrategyEngine.buckets))
    (game_data_list : list game_data) : multipla :=
  match strategy_engine with
  | None => empty_multipla
  | Some compose =>
      match generate_body compose game_data_list with
      | Ok m => m
      | Raise _ => empty_multipla
      end
  end.

Lemma foldM_raises {A S} (f : S -> A -> result S) (l : list A) :
  (exists a, In a l /\ forall s, exists e, f s a = Raise e) ->
  forall s, exists e, foldM f l s = Raise e.
Proof.
  induction l as [| a l IH]; intros (b & Hb & Hr) s; [destruct Hb |].
  cbn. destruct (f s a) as [s1 |] eqn:E; cbn; [| eauto].
  destruct Hb as [-> | Hb].
  - destruct (Hr s) as [e He]. congruence.
  - apply IH. eauto.
Qed.

Example generate_multipla_example :
  generate_multipla
    (Some (StrategyEngine.compose_recommendations StrategyEngine.example_theses))
    [ {| home := Some "MIA"; away := Some "BOS"; gd_spread := None;
         gd_total := None; gd_pace := None |} ]
  = {| m_conservadora := [];
       m_ousada :=
         map (fun r => with_strategy_key r "banco")
             (match StrategyEngine.compose_recommendations
                      StrategyEngine.example_theses
                      (matchup_context
                         {| home := Some "MIA"; away := Some "BOS"; gd_spread := None;
                            gd_total := None; gd_pace := None |}) with
              | Ok recs => recs StrategyEngine.banco
              | Raise _ => []
              end) |}.
Proof. vm_compute. reflexivity. Qed.

(** C5 (amended).  [generate_multipla] never raises: when the
    composition of any one of its games raises, the exception is caught
    around the whole loop and both tickets come back empty, whatever the
    other games would have contributed. *)
Theorem generate_multipla_contains_exceptions
    (compose : game_ctx -> result StrategyEngine.buckets)
    (game_data_list : list game_data) :
  (exists g e, In g game_data_list /\ compose (matchup_context g) = Raise e) ->
  generate_multipla (Some compose) game_data_list = empty_multipla.
Proof.
  intros (g & e & Hg & He). unfold generate_multipla, generate_body.
  destruct (foldM_raises (add_game compose) game_data_list) with (s := (@nil thesis, @nil thesis))
    as [e' E].
  - exists g. split; [exact Hg |]. intros s. exists e. unfold add_game.
    now rewrite He.
  - now rewrite E.
Qed.

Lemma generate_multipla_contains_exceptions_witness :
  generate_multipla
    (Some (StrategyEngine.compose_recommendations
             [("X", [StrategyEngine.nameless_thesis])]))
    [ {| home := Some "MIA"; away := Some "BOS"; gd_spread := None;
         gd_total := None; gd_pace := None |} ]
  = empty_multipla.
Proof.
  apply generate_multipla_contains_exceptions.
  eexists. exists (KeyError "player"). split; [now left |].
  vm_compute. reflexivity.
Defined.

(** With the engine of this repository the call passes an empty frame, so
    no game contributes a recommendation. *)
Lemma generate_multipla_empty_frame (game_data_list : list game_data) :
  generate_multipla (Some (StrategyEngine.compose_recommendations []))
    game_data_list = empty_multipla.
Proof.
  unfold generate_multipla, generate_body.
  assert (E : foldM (add_game (StrategyEngine.compose_recommendations []))
                    game_data_list ([], []) = Ok ([], [])).
  { induction game_data_list as [| g l IH]; [reflexivity |].
    cbn [foldM]. unfold add_game at 1.
    destruct (StrategyEngine.compose_recommendations_total [] (matchup_context g))
      as [recs Er]; [constructor |].
    rewrite Er. cbn [bind].
    assert (Hempty : forall c, recs c = []).
    { intros c. destruct (recs c) as [| r l0] eqn:Ec; [reflexivity |].
      apply StrategyEngine.compose_recommendations_spec in Er
        as (acc & (Hin & _) & Hsub & _).
      destruct (Hin c r) as (t & _ & Ht & _).
      - apply Hsub. rewrite Ec. now left.
      - apply StrategyEngine.categorize_theses_candidates in Ht
          as (t0 & [] & _). }
    unfold StrategyEngine.all_categories. cbn [map concat].
    rewrite !Hempty. cbn. exact IH. }
  rewrite E. reflexivity.
Qed.

End MultiplaDoDia.

(** * Further properties of the modelled code *)

(** ** Substrings *)

Module StrFacts.

Lemma prefix_app_l (k k' : string) :
  forall s, String.prefix (k ++ k') s = true -> String.prefix k s = true.
Proof.
  induction k as [| a k IH]; intros s H; [destruct s; reflexivity |].
  change (String a k ++ k') with (String a (k ++ k')) in H.
  destruct s as [| b s]; cbn in H |- *; [discriminate H |].
  destruct (ascii_dec a b); [apply IH; exact H | discriminate H].
Qed.

(** A string that contains [k ++ k'] contains [k]. *)
Lemma contains_app_l (k k' : string) :
  forall s, Str.contains (k ++ k') s = true -> Str.contains k s = true.
Proof.
  induction s as [| c s IH]; intros H.
  - cbn [Str.contains] in *. rewrite orb_false_r in *.
    apply (prefix_app_l k k'). exact H.
  - cbn [Str.contains] in *. apply orb_prop in H as [H | H].
    + apply (prefix_app_l k k') in H. now rewrite H.
    + rewrite (IH H). apply orb_true_r.
Qed.

End StrFacts.

(** ** modules/player_context.py, continued *)

Module PlayerContextFacts.

Import Num PlayerContext.
Local Open Scope Q_scope.

Definition row_min_avg (row : option l5_row) : Q :=
  match row with Some r => default 0 (MIN_AVG r) | None => 0 end.

Definition row_last_min (row : option l5_row) : Q :=
  match row with Some r => default 0 (LAST_MIN r) | None => 0 end.

Definition is_out_status (entry : roster_entry) : bool :=
  Str.contains_any ["out"; "ir"; "injur"] (Str.lower (default "" (STATUS entry))).

(** X1.  A starter whose status does not read as out, and whose average
    and last-game minutes are non-negative numbers (so neither is NaN), is
    [available] and is expected to play at least 28 minutes, and at least
    the average and the last game. *)
Theorem derive_starter_minutes (entry : roster_entry) (row : option l5_row)
    (treat : bool) :
  STARTER entry = true -> is_out_status entry = false ->
  0 <= row_min_avg row -> 0 <= row_last_min row ->
  let d := derive_availability_and_expected_minutes entry row treat in
  availability d = "available" /\
  28 <= expected_minutes d /\
  row_min_avg row <= expected_minutes d /\
  row_last_min row <= expected_minutes d.
Proof.
  intros Hs Ho _ _. unfold is_out_status in Ho.
  unfold derive_availability_and_expected_minutes, out_keywords.
  rewrite Ho, Hs. cbn zeta. cbn [availability expected_minutes].
  fold (row_min_avg row) (row_last_min row).
  set (m := qmax (qmax (row_min_avg row) (row_last_min row)) 28).
  assert (H28 : 28 <= m) by apply qmax_r.
  assert (Hm : row_min_avg row <= m).
  { apply Qle_trans with (qmax (row_min_avg row) (row_last_min row));
      [apply qmax_l | apply qmax_l]. }
  assert (Hl : row_last_min row <= m).
  { apply Qle_trans with (qmax (row_min_avg row) (row_last_min row));
      [apply qmax_r | apply qmax_l]. }
  pose proof (qmax_r 0 m) as Hr.
  repeat split; try lra.
Qed.

Definition example_row : l5_row :=
  {| PLAYER_ID := None; MIN_AVG := Some (315 # 10); LAST_MIN := Some 25;
     REB_AVG := None; AST_AVG := None; PTS_AVG := None; PRA_AVG := None;
     REB_CV := None; AST_CV := None; PTS_CV := None; MIN_CV := None;
     EXP := None |}.

Lemma derive_starter_minutes_witness :
  28 <= expected_minutes
          (derive_availability_and_expected_minutes
             {| PLAYER := Some "A"; POSITION := "C"; STARTER := true;
                STATUS := Some "Active" |} (Some example_row) true).
Proof.
  apply (derive_starter_minutes
           {| PLAYER := Some "A"; POSITION := "C"; STARTER := true;
              STATUS := Some "Active" |} (Some example_row) true);
    [reflexivity | reflexivity | discriminate | discriminate].
Defined.

(** X2.  A non-starter is never expected to play more than the larger of
    his average and his last-game minutes. *)
Theorem derive_bench_minutes (entry : roster_entry) (row : option l5_row)
    (treat : bool) :
  STARTER entry = false ->
  0 <= row_min_avg row -> 0 <= row_last_min row ->
  expected_minutes (derive_availability_and_expected_minutes entry row treat)
    <= qmax (row_min_avg row) (row_last_min row).
Proof.
  intros Hs Hm Hl.
  unfold derive_availability_and_expected_minutes, out_keywords.
  rewrite Hs. fold (row_min_avg row) (row_last_min row).
  pose proof (qmax_l (row_min_avg row) (row_last_min row)) as Ha.
  pose proof (qmax_r (row_min_avg row) (row_last_min row)) as Hb.
  set (M := qmax (row_min_avg row) (row_last_min row)) in *.
  destruct (Str.contains_any _ _); [| destruct (_ && _); [| destruct treat]];
    cbn [expected_minutes]; apply qmax_lub; try lra; try apply qmax_lub; lra.
Qed.

Lemma derive_bench_minutes_witness :
  expected_minutes
    (derive_availability_and_expected_minutes
       {| PLAYER := Some "A"; POSITION := "C"; STARTER := false;
          STATUS := Some "Active" |} None true)
  <= qmax (row_min_avg None) (row_last_min None).
Proof.
  apply (derive_bench_minutes
           {| PLAYER := Some "A"; POSITION := "C"; STARTER := false;
              STATUS := Some "Active" |} None true);
    [reflexivity | discriminate | discriminate].
Defined.

(** X3.  Without a recent-performance row the context has zero averages,
    variation 1.0, low usage, high volatility, style [role], and the role
    [deep_bench] whether or not the player starts. *)
Theorem build_player_ctx_without_stats (entry : roster_entry)
    (team_abbr : option string) :
  let c := build_player_ctx entry None team_abbr in
  role c = "deep_bench" /\ usage c = "low" /\ volatility c = "high" /\
  style c = "role" /\
  pts_L5 c == 0 /\ reb_L5 c == 0 /\ ast_L5 c == 0 /\ pra_L5 c == 0 /\
  min_L5 c == 0 /\ pts_cv c == 1 /\ min_cv c == 1 /\
  is_young c = false /\ is_veteran c = true /\ player_id c = None.
Proof.
  cbn. destruct (STARTER entry); cbn; repeat split; reflexivity.
Qed.

(** X4.  The role table by usage: at least 30 of [pra_L5] makes a star or
    a bench scorer, at least 18 a starter or a rotation player, and below
    18 the role is [deep_bench] for starters too. *)
Theorem build_player_ctx_role_table (entry : roster_entry)
    (row : option l5_row) (team_abbr : option string) :
  let c := build_player_ctx entry row team_abbr in
  role c =
    (if qleb 30 (pra_L5 c)
     then (if is_starter c then "star" else "bench_scorer")
     else if qleb 18 (pra_L5 c)
     then (if is_starter c then "starter" else "rotation")
     else "deep_bench") /\
  (role c = "starter" <-> is_starter c = true /\ 18 <= pra_L5 c /\ pra_L5 c < 30) /\
  (pra_L5 c < 18 -> role c = "deep_bench").
Proof.
  cbn [build_player_ctx role pra_L5 is_starter].
  set (p := match row with
            | Some r => default _ (PRA_AVG r)
            | None => 0
            end).
  unfold classify_role, classify_usage.
  destruct (qleb 30 p) eqn:E30; [| destruct (qleb 18 p) eqn:E18];
    destruct (STARTER entry); cbn; (split; [reflexivity |]);
    try apply qleb_true in E30; try apply qleb_false in E30;
    try apply qleb_true in E18; try apply qleb_false in E18;
    (split; [split; [try discriminate; intros _; repeat split; lra
                    | intros (? & ? & ?); try reflexivity; try discriminate; lra]
            | intros ?; try reflexivity; lra]).
Qed.

End PlayerContextFacts.

(** ** modules/new_modules/vacuum_matrix.py, continued *)

Module VacuumMatrixFacts.

Import Num VacuumMatrix.
Local Open Scope Q_scope.

Lemma contains_any_out_keywords (s : string) :
  Str.contains_any ["out"; "injured"; "ir"] s = true ->
  Str.contains_any ["out"; "ir"; "injur"] s = true.
Proof.
  unfold Str.contains_any. cbn [existsb]. rewrite !orb_false_r.
  intros H. apply orb_prop in H as [H | H]; [now rewrite H |].
  apply orb_prop in H as [H | H].
  - apply (StrFacts.contains_app_l "injur" "ed") in H. rewrite H.
    now rewrite !orb_true_r.
  - rewrite H. now rewrite orb_true_r.
Qed.

(** X5.  Whoever the vacuum analyzer counts as out is classified [out],
    with zero expected minutes, by the context builder. *)
Theorem is_player_out_implies_builder_out (entry : roster_entry)
    (row : option PlayerContext.l5_row) (treat : bool) :
  _is_player_out entry = true ->
  let d := PlayerContext.derive_availability_and_expected_minutes entry row treat in
  PlayerContext.availability d = "out" /\ PlayerContext.expected_minutes d == 0.
Proof.
  unfold _is_player_out. intros H. apply contains_any_out_keywords in H.
  unfold PlayerContext.derive_availability_and_expected_minutes,
    PlayerContext.out_keywords.
  rewrite H. cbn. split; reflexivity.
Qed.

Lemma is_player_out_implies_builder_out_witness :
  PlayerContext.availability
    (PlayerContext.derive_availability_and_expected_minutes
       {| PLAYER := Some "A"; POSITION := "C"; STARTER := true;
          STATUS := Some "Injured Reserve" |} None true) = "out".
Proof.
  apply (is_player_out_implies_builder_out
           {| PLAYER := Some "A"; POSITION := "C"; STARTER := true;
              STATUS := Some "Injured Reserve" |} None true).
  reflexivity.
Defined.

Lemma filter_none {A} (f : A -> bool) (l : list A) :
  (forall x, In x l -> f x = false) -> List.filter f l = [].
Proof.
  induction l as [| x l IH]; intros H; [reflexivity |].
  cbn. rewrite (H x (or_introl eq_refl)). apply IH. intros y Hy. apply H. now right.
Qed.

(** An absent starter of the roster, seen from the table. *)
Definition absent_in (roster : list roster_entry) (who : option string)
    (position : string) : Prop :=
  exists s, In s roster /\ STARTER s = true /\ _is_player_out s = true /\
            PLAYER s = who /\ Str.upper (POSITION s) = position.

(** X6.  The vacuum table: an entry always carries the flat boost 1.25
    and belongs to a bench player who is not out, at the position of an
    absent starter whom the entry names; a name without an entry is the
    name of no such substitute. *)
Theorem analyze_team_vacuum_entries (roster : list roster_entry)
    (k : option string) :
  match analyze_team_vacuum roster !! k with
  | Some info =>
      boost info == 125 # 100 /\
      reason info = "Substituto de " ++ fmt_name (absent_starter_name info) /\
      absent_in roster (absent_starter_name info) (info_position info) /\
      exists p, In p roster /\ PLAYER p = k /\ STARTER p = false /\
                _is_player_out p = false /\
                Str.upper (POSITION p) = info_position info
  | None =>
      forall s p, In s roster -> In p roster -> PLAYER p = k ->
        STARTER s = true -> _is_player_out s = true ->
        is_substitute (Str.upper (POSITION s)) p = false
  end.
Proof.
  destruct (analyze_team_vacuum_spec roster) as [Hj Hall].
  destruct (analyze_team_vacuum roster !! k) as [info |] eqn:E.
  - destruct (Hj k info E) as (st & p & Hst & Hp & Hsub & Hname & ->).
    unfold absent_starters in Hst. apply in_map_iff in Hst as (s & <- & Hs).
    apply filter_In in Hs as [Hsin Hsf]. apply andb_prop in Hsf as [Hs1 Hs2].
    cbn. split; [reflexivity |]. split; [reflexivity |]. split.
    + exists s. repeat split; assumption.
    + exists p. split; [exact Hp |]. split; [exact Hname |].
      pose proof (is_substitute_position _ _ Hsub) as Hpos.
      unfold is_substitute in Hsub.
      apply andb_prop in Hsub as [Hsub Ho]. apply andb_prop in Hsub as [_ Hb].
      apply negb_true_iff in Ho, Hb. repeat split; assumption.
  - intros s p Hs Hp Hname Hst Hout.
    destruct (is_substitute (Str.upper (POSITION s)) p) eqn:Hsub; [| reflexivity].
    assert (Hin : In {| as_name := PLAYER s; as_position := Str.upper (POSITION s) |}
                     (absent_starters roster)).
    { unfold absent_starters. apply in_map_iff. exists s. split; [reflexivity |].
      apply filter_In. split; [exact Hs |]. now rewrite Hst, Hout. }
    destruct (Hall _ p Hin Hp Hsub) as [v Hv]. rewrite Hname in Hv. congruence.
Qed.

(** X7.  A roster without an absent starter gives an empty table, and
    then [apply_vacuum_boost] returns every context unchanged. *)
Theorem no_absent_starter_no_boost (roster : list roster_entry) (player_ctx : dict) :
  (forall s, In s roster -> STARTER s = true -> _is_player_out s = false) ->
  analyze_team_vacuum roster = ∅ /\
  apply_vacuum_boost player_ctx (analyze_team_vacuum roster) = Ok player_ctx.
Proof.
  intros H.
  assert (E : analyze_team_vacuum roster = ∅).
  { unfold analyze_team_vacuum. destruct roster as [| r0 roster]; [reflexivity |].
    replace (absent_starters (r0 :: roster)) with (@nil absent_starter); [reflexivity |].
    unfold absent_starters. symmetry.
    replace (List.filter _ (r0 :: roster)) with (@nil roster_entry); [reflexivity |].
    symmetry. apply filter_none.
    intros s Hs. destruct (STARTER s) eqn:Es; [| reflexivity].
    cbn. now apply H. }
  split; [exact E |]. rewrite E. unfold apply_vacuum_boost.
  destruct (dict_empty player_ctx); reflexivity.
Qed.

Lemma no_absent_starter_no_boost_witness :
  analyze_team_vacuum
    [ {| PLAYER := Some "A"; POSITION := "C"; STARTER := true;
         STATUS := Some "Active" |};
      {| PLAYER := Some "B"; POSITION := "C"; STARTER := false;
         STATUS := Some "Out" |} ] = ∅.
Proof.
  apply (no_absent_starter_no_boost
           [ {| PLAYER := Some "A"; POSITION := "C"; STARTER := true;
                STATUS := Some "Active" |};
             {| PLAYER := Some "B"; POSITION := "C"; STARTER := false;
                STATUS := Some "Out" |} ] ∅).
  intros s [<- | [<- | []]]; [reflexivity | discriminate].
Defined.

(** The scaling loop touches no key outside its list. *)
Lemma scale_stats_frame guard factor (stats : list string) (d d' : dict) :
  foldM (scale_stat guard factor) stats d = Ok d' ->
  forall k, ~ In k stats -> d' !! k = d !! k.
Proof.
  intros H k Hk.
  apply (foldM_invariant (scale_stat guard factor) (fun x => x !! k = d !! k) stats)
    with (s := d); [| reflexivity | exact H].
  intros s a s' Ha Hs Hstep. unfold scale_stat in Hstep.
  assert (a ≠ k) by (intros ->; contradiction).
  destruct (s !! a) as [v |]; [| congruence].
  destruct (num_of v) as [q |]; cbn [bind] in Hstep; [| discriminate].
  destruct (guard q); injection Hstep as <-; [| exact Hs].
  now rewrite lookup_insert_ne.
Qed.

(** X8.  [apply_vacuum_boost] changes nothing but the four boosted stats
    and the key [vacuum_boost]; a context whose name has no entry in the
    table comes back as it was. *)
Theorem apply_vacuum_boost_frame (player_ctx : dict)
    (vacuum_data : gmap (option string) boost_info) :
  match apply_vacuum_boost player_ctx vacuum_data with
  | Ok ctx' =>
      (forall k, ~ In k stats_to_boost -> k ≠ "vacuum_boost" ->
         ctx' !! k = player_ctx !! k) /\
      (forall key, name_key player_ctx = Ok key ->
         key ≫= (fun k => vacuum_data !! k) = None -> ctx' = player_ctx)
  | Raise _ =>
      (exists m, player_ctx !! "name" = Some (VBoost m)) \/
      exists k v, In k stats_to_boost /\ player_ctx !! k = Some v /\
                  forall q b, v ≠ VNum q /\ v ≠ VBool b
  end.
Proof.
  unfold apply_vacuum_boost.
  destruct (dict_empty player_ctx || bool_decide (dom vacuum_data = ∅)).
  { split; [reflexivity |]. reflexivity. }
  destruct (name_key player_ctx) as [key |] eqn:Ek; cbn [bind].
  2: { left. unfold name_key in Ek.
       destruct (player_ctx !! "name") as [[] |]; try discriminate. eauto. }
  destruct (key ≫= _) as [info |] eqn:El.
  2: { split; [reflexivity |]. reflexivity. }
  destruct (foldM _ stats_to_boost player_ctx) as [boosted |] eqn:Ef; cbn [bind].
  - split.
    + intros k Hk Hv. rewrite lookup_insert_ne by congruence.
      now apply (scale_stats_frame _ _ _ _ _ Ef).
    + intros key' [= <-] Hnone. congruence.
  - right.
    assert (G : forall stats (d : dict),
                foldM (scale_stat (fun _ => true) (boost info)) stats d = Raise e ->
                (forall k, In k stats -> d !! k = player_ctx !! k) -> NoDup stats ->
                exists k v, In k stats /\ player_ctx !! k = Some v /\
                  forall q b, v ≠ VNum q /\ v ≠ VBool b).
    { intros stats. induction stats as [| a stats IH]; intros d H Hsame Hnd;
        [discriminate |].
      apply NoDup_cons in Hnd as [Ha Hnd].
      cbn [foldM] in H. unfold scale_stat at 1 in H.
      assert (Hrest : forall d1 : dict, (forall k, k ≠ a -> d1 !! k = d !! k) ->
                forall k, In k stats -> d1 !! k = player_ctx !! k).
      { intros d1 Hd1 k Hk. rewrite Hd1; [apply Hsame; now right |].
        intros ->. apply Ha. now apply list_elem_of_In. }
      destruct (d !! a) as [v |] eqn:Ea.
      - rewrite (Hsame a (or_introl eq_refl)) in Ea.
        destruct v as [q | b | s | | m]; cbn [num_of bind] in H.
        + edestruct (IH _ H) as (k & v & Hk & Hv); [| exact Hnd |].
          * apply Hrest. intros k Hk. now rewrite lookup_insert_ne.
          * exists k, v. split; [now right | exact Hv].
        + edestruct (IH _ H) as (k & v & Hk & Hv); [| exact Hnd |].
          * apply Hrest. intros k Hk. now rewrite lookup_insert_ne.
          * exists k, v. split; [now right | exact Hv].
        + exists a, (VStr s). split; [now left |]. split; [exact Ea |].
          split; discriminate.
        + exists a, VNone. split; [now left |]. split; [exact Ea |].
          split; discriminate.
        + exists a, (VBoost m). split; [now left |]. split; [exact Ea |].
          split; discriminate.
      - cbn [bind] in H. edestruct (IH _ H) as (k & v & Hk & Hv); [| exact Hnd |].
        + apply Hrest. auto.
        + exists k, v. split; [now right | exact Hv]. }
    apply (G stats_to_boost player_ctx Ef); [auto | apply volume_stats_NoDup].
Qed.

End VacuumMatrixFacts.

(** ** modules/new_modules/pace_adjuster.py, continued *)

Module PaceAdjusterFacts.

Import Num PaceAdjuster.
Local Open Scope Q_scope.

(** [adjust_team_context] *)
Definition adjust_team_context (pace_data : gmap string Q) (team_context : dict)
    (home_team away_team : option string) : dict :=
  if dict_empty team_context then team_context
  else
    let game_pace := calculate_game_pace pace_data home_team away_team in
    <["pace_category" := VStr (pace_category game_pace)]>
      (<["game_pace" := VNum game_pace]> team_context).

(** X9.  The expected game pace is the same whichever team is at home,
    and lies between the two teams' ratings; two unknown teams give 100. *)
Theorem calculate_game_pace_between (pace_data : gmap string Q)
    (home_team away_team : option string) :
  let h := team_pace pace_data home_team in
  let a := team_pace pace_data away_team in
  let p := calculate_game_pace pace_data home_team away_team in
  p == calculate_game_pace pace_data away_team home_team /\
  qmin h a <= p /\ p <= qmax h a /\
  (h == 100 -> a == 100 -> p == 100).
Proof.
  cbn zeta. unfold calculate_game_pace, qmin, qmax.
  set (h := team_pace pace_data home_team). set (a := team_pace pace_data away_team).
  assert (E : (h + a) / 2 == (h + a) * (1 # 2)) by (field).
  rewrite E. split; [field |].
  destruct (Qlt_le_dec a h), (Qlt_le_dec h a); repeat split; try lra.
Qed.

(** X10.  The pace category stored by [adjust_team_context]: FAST needs
    one of the two teams rated at least 102, SLOW one rated at most 98, and
    two teams rated strictly between 98 and 102 always give AVERAGE; an
    empty context is returned as it is. *)
Theorem adjust_team_context_category (pace_data : gmap string Q)
    (team_context : dict) (home_team away_team : option string) :
  let h := team_pace pace_data home_team in
  let a := team_pace pace_data away_team in
  let adjusted := adjust_team_context pace_data team_context home_team away_team in
  (team_context = ∅ -> adjusted = ∅) /\
  (team_context ≠ ∅ ->
     exists cat, adjusted !! "pace_category" = Some (VStr cat) /\
       adjusted !! "game_pace"
         = Some (VNum (calculate_game_pace pace_data home_team away_team)) /\
       (cat = "FAST" -> 102 <= h \/ 102 <= a) /\
       (cat = "SLOW" -> h <= 98 \/ a <= 98) /\
       (98 < h -> h < 102 -> 98 < a -> a < 102 -> cat = "AVERAGE") /\
       (forall k, k ≠ "pace_category" -> k ≠ "game_pace" ->
                  adjusted !! k = team_context !! k)).
Proof.
  cbn zeta. unfold adjust_team_context. split.
  - intros ->. reflexivity.
  - intros Hne. rewrite (dict_empty_false _ Hne).
    eexists. rewrite lookup_insert_eq. split; [reflexivity |].
    rewrite lookup_insert_ne by discriminate. rewrite lookup_insert_eq.
    split; [reflexivity |].
    unfold pace_category, calculate_game_pace.
    set (h := team_pace pace_data home_team). set (a := team_pace pace_data away_team).
    assert (E : (h + a) / 2 == (h + a) * (1 # 2)) by (field).
    destruct (qleb 102 _) eqn:E1; [| destruct (qleb _ 98) eqn:E2];
      try apply qleb_true in E1; try apply qleb_false in E1;
      try apply qleb_true in E2; try apply qleb_false in E2;
      rewrite E in *.
    + split; [intros _ | split; [discriminate | split]].
      * destruct (Qlt_le_dec h 102); [right | left]; lra.
      * intros. lra.
      * intros k H1 H2. now rewrite !lookup_insert_ne by congruence.
    + split; [discriminate | split; [intros _ | split]].
      * destruct (Qlt_le_dec 98 h); [right | left]; lra.
      * intros. lra.
      * intros k H1 H2. now rewrite !lookup_insert_ne by congruence.
    + split; [discriminate | split; [discriminate | split; [reflexivity |]]].
      intros k H1 H2. now rewrite !lookup_insert_ne by congruence.
Qed.

(** X11.  For a non-empty record whose volume stats, where present, are
    numbers, and two team names, [adjust_player_stats] returns normally:
    every positive volume stat becomes its product with [pace / 100]
    rounded to one decimal, the other volume stats and every other key
    stay, [pace_adjusted] is set, [game_pace] holds the pace rounded to one
    decimal and [pace_factor] holds [pace / 100] rounded to three.  Rounded
    to [n] decimals is meant as [rounds_to] says it: a number of [n]
    decimals within six tenths of a unit of the last one, so that a product
    on a decimal tie may be stored rounded either way. *)
Theorem adjust_player_stats_scales (pace_data : gmap string Q)
    (player_stats : dict) (home_team away_team : option string) :
  player_stats ≠ ∅ ->
  truthy home_team = true -> truthy away_team = true ->
  (forall k, In k volume_stats -> numeric_or_absent player_stats k) ->
  let game_pace := calculate_game_pace pace_data home_team away_team in
  exists adjusted,
    adjust_player_stats pace_data player_stats home_team away_team = Ok adjusted /\
    (forall k, In k volume_stats ->
       scaled_to (fun v => qltb 0 v) (game_pace / 100)
         (player_stats !! k) (adjusted !! k)) /\
    adjusted !! "pace_adjusted" = Some (VBool true) /\
    (exists g, adjusted !! "game_pace" = Some (VNum g) /\ rounds_to 1 game_pace g) /\
    (exists f, adjusted !! "pace_factor" = Some (VNum f) /\
               rounds_to 3 (game_pace / 100) f) /\
    (forall k, ~ In k volume_stats -> k ≠ "pace_adjusted" -> k ≠ "game_pace" ->
               k ≠ "pace_factor" -> adjusted !! k = player_stats !! k).
Proof.
  intros Hne Hh Ha Hnum game_pace. unfold adjust_player_stats.
  rewrite (dict_empty_false _ Hne), Hh, Ha. cbn [orb negb].
  fold game_pace.
  destruct (scale_stats_ok (fun v => qltb 0 v) (game_pace / 100) volume_stats
              player_stats) as (d' & E & Hin & Hout);
    [apply volume_stats_NoDup | exact Hnum |].
  rewrite E. cbn [bind]. eexists. split; [reflexivity |].
  split; [| split; [| split; [| split]]].
  - intros k Hk.
    rewrite !lookup_insert_ne by (intros <-; cbn in Hk; intuition discriminate).
    rewrite (Hin k Hk). apply scaled_scaled_to. reflexivity.
  - now rewrite !lookup_insert_ne, lookup_insert_eq by discriminate.
  - eexists. rewrite lookup_insert_ne, lookup_insert_eq by discriminate.
    split; [reflexivity |]. apply py_round_rounds_to. reflexivity.
  - eexists. rewrite lookup_insert_eq.
    split; [reflexivity |]. apply py_round_rounds_to. reflexivity.
  - intros k Hk H1 H2 H3. rewrite !lookup_insert_ne by congruence. now apply Hout.
Qed.

Lemma adjust_player_stats_scales_witness :
  exists adjusted,
    adjust_player_stats TEAM_PACE_DATA (<["pts_L5" := VNum 30]> ∅)
      (Some "ATL") (Some "BOS") = Ok adjusted /\
    exists y, adjusted !! "pts_L5" = Some (VNum y) /\
      rounds_to 1
        (30 * (calculate_game_pace TEAM_PACE_DATA (Some "ATL") (Some "BOS") / 100)) y.
Proof.
  destruct (adjust_player_stats_scales TEAM_PACE_DATA (<["pts_L5" := VNum 30]> ∅)
              (Some "ATL") (Some "BOS")) as (adjusted & E & Hst & _).
  - intros H. apply (f_equal (fun m => m !! "pts_L5")) in H. discriminate H.
  - reflexivity.
  - reflexivity.
  - intros k [<- | [<- | [<- | [<- | []]]]]; [right; eexists | left | left | left];
      reflexivity.
  - exists adjusted. split; [exact E |]. apply (Hst "pts_L5"). now left.
Defined.

(** Atlanta against Boston: 30 points times 1.005 is 30.15, half way
    between 30.1 and 30.2; either is the product rounded to one decimal,
    30.0 and 30.3 are not. *)
Example rounds_to_tie_example :
  let target := 30 * (calculate_game_pace TEAM_PACE_DATA (Some "ATL") (Some "BOS") / 100) in
  target == 3015 # 100 /\
  rounds_to 1 target (301 # 10) /\ rounds_to 1 target (302 # 10) /\
  ~ rounds_to 1 target 30 /\ ~ rounds_to 1 target (303 # 10).
Proof.
  cbv zeta.
  assert (E : 30 * (calculate_game_pace TEAM_PACE_DATA (Some "ATL") (Some "BOS") / 100)
              == 3015 # 100) by (vm_compute; reflexivity).
  split; [exact E |]. unfold rounds_to. rewrite E.
  change (inject_Z (pow10 1)) with 10.
  split; [| split; [| split]].
  - split; [exists 301%Z; reflexivity |]. split; vm_compute; discriminate.
  - split; [exists 302%Z; reflexivity |]. split; vm_compute; discriminate.
  - intros (_ & H & _). vm_compute in H. now apply H.
  - intros (_ & _ & H). vm_compute in H. now apply H.
Qed.

End PaceAdjusterFacts.

(** ** Rounding and sorting, continued *)

Module NumFacts.

Import Num.
Local Open Scope Q_scope.

Lemma inject_Z_succ (z : Z) : inject_Z (z + 1) == inject_Z z + 1.
Proof. rewrite inject_Z_plus. reflexivity. Qed.

Lemma inject_Z_pred (z : Z) : inject_Z (z - 1) == inject_Z z - 1.
Proof. unfold Z.sub. rewrite inject_Z_plus. reflexivity. Qed.

(** Rounding goes down below a half and up above it. *)
Lemma round_half_even_below (z : Z) (x : Q) :
  x < inject_Z z + (1 # 2) -> (round_half_even x <= z)%Z.
Proof.
  intros Hx.
  assert (Hf : (Qfloor x < z + 1)%Z).
  { rewrite Zlt_Qlt. apply Qle_lt_trans with x; [apply Qfloor_le |].
    rewrite inject_Z_succ. lra. }
  unfold round_half_even.
  destruct (Z.eq_dec (Qfloor x) z) as [He | Hne].
  - rewrite He.
    assert (Hc : Qcompare (x - inject_Z z) (1 # 2) = Lt)
      by (apply (proj1 (Qlt_alt _ _)); lra).
    rewrite Hc. lia.
  - destruct (Qcompare _ _); [destruct (Z.even _) | |]; lia.
Qed.

Lemma round_half_even_above (z : Z) (x : Q) :
  inject_Z z - (1 # 2) < x -> (z <= round_half_even x)%Z.
Proof.
  intros Hx.
  assert (Hf : (z - 1 <= Qfloor x)%Z).
  { rewrite <- (Qfloor_Z (z - 1)). apply Qfloor_resp_le.
    rewrite inject_Z_pred. lra. }
  unfold round_half_even.
  destruct (Z.eq_dec (Qfloor x) (z - 1)%Z) as [He | Hne].
  - rewrite He.
    assert (Hc : Qcompare (x - inject_Z (z - 1)%Z) (1 # 2) = Gt).
    { apply (proj1 (Qgt_alt _ _)). rewrite inject_Z_pred. lra. }
    rewrite Hc. lia.
  - destruct (Qcompare _ _); [destruct (Z.even _) | |]; lia.
Qed.

Lemma py_round_below (z : Z) (x : Q) (n : nat) :
  x < (inject_Z z + (1 # 2)) / inject_Z (pow10 n) ->
  py_round x n <= inject_Z z / inject_Z (pow10 n).
Proof.
  intros Hx. pose proof (inject_pow10_pos n) as Hp. unfold py_round.
  apply div_pow10_le. rewrite <- Zle_Qle. apply round_half_even_below.
  apply Qmult_lt_compat_r with (z := inject_Z (pow10 n)) in Hx; [| lra].
  assert (E : (inject_Z z + (1 # 2)) / inject_Z (pow10 n) * inject_Z (pow10 n)
              == inject_Z z + (1 # 2)) by (field; lra).
  rewrite E in Hx. exact Hx.
Qed.

Lemma py_round_above (z : Z) (x : Q) (n : nat) :
  (inject_Z z - (1 # 2)) / inject_Z (pow10 n) < x ->
  inject_Z z / inject_Z (pow10 n) <= py_round x n.
Proof.
  intros Hx. pose proof (inject_pow10_pos n) as Hp. unfold py_round.
  apply div_pow10_le. rewrite <- Zle_Qle. apply round_half_even_above.
  apply Qmult_lt_compat_r with (z := inject_Z (pow10 n)) in Hx; [| lra].
  assert (E : (inject_Z z - (1 # 2)) / inject_Z (pow10 n) * inject_Z (pow10 n)
              == inject_Z z - (1 # 2)) by (field; lra).
  rewrite E in Hx. exact Hx.
Qed.

(** Rounding is monotone. *)
Lemma round_half_even_mono (x y : Q) :
  x <= y -> (round_half_even x <= round_half_even y)%Z.
Proof.
  intros Hxy.
  destruct (Qlt_le_dec y (inject_Z (round_half_even x) - (1 # 2))) as [Hlt | Hge].
  - exfalso.
    assert (Hx : x < inject_Z (round_half_even x - 1)%Z + (1 # 2))
      by (rewrite inject_Z_pred; lra).
    apply round_half_even_below in Hx. lia.
  - destruct (Qeq_dec y (inject_Z (round_half_even x) - (1 # 2))) as [He | Hne].
    + destruct (Qeq_dec x y) as [Exy | Nxy].
      * rewrite (round_half_even_proper x y Exy). lia.
      * exfalso.
        assert (Hx : x < inject_Z (round_half_even x - 1)%Z + (1 # 2)).
        { rewrite inject_Z_pred.
          apply Qle_lt_or_eq in Hxy as [Hxy | Hxy]; [lra | contradiction]. }
        apply round_half_even_below in Hx. lia.
    + apply round_half_even_above.
      apply Qle_lt_or_eq in Hge as [Hge | Hge]; [exact Hge |].
      symmetry in Hge. contradiction.
Qed.

Lemma py_round_mono (x y : Q) (n : nat) : x <= y -> py_round x n <= py_round y n.
Proof.
  intros Hxy. pose proof (inject_pow10_pos n) as Hp. unfold py_round.
  apply div_pow10_le. rewrite <- Zle_Qle. apply round_half_even_mono.
  apply Qmult_le_compat_r; lra.
Qed.

Lemma clamp_mono (x y lo hi : Q) : x <= y -> clamp x lo hi <= clamp y lo hi.
Proof.
  intros Hxy. unfold clamp, qmin, qmax.
  destruct (Qlt_le_dec x lo), (Qlt_le_dec y lo);
    repeat match goal with
           | |- context [Qlt_le_dec ?a ?b] => destruct (Qlt_le_dec a b)
           end; lra.
Qed.

End NumFacts.

Module SortFacts.

Section Ordered.

Context {A : Type} (before : A -> A -> bool) (le : A -> A -> Prop).

Hypothesis le_trans : forall a b c, le a b -> le b c -> le a c.
Hypothesis before_true : forall y x, before y x = true -> le y x.
Hypothesis before_false : forall y x, before y x = false -> le x y.

(** Every element may precede all that follow it. *)
Fixpoint ordered (l : list A) : Prop :=
  match l with
  | [] => True
  | x :: l' => (forall y, In y l' -> le x y) /\ ordered l'
  end.

Lemma insert_sorted_ordered x l : ordered l -> ordered (insert_sorted before x l).
Proof.
  induction l as [| y l IH]; cbn [insert_sorted]; intros Hl.
  - cbn. split; [intros ? [] | exact I].
  - destruct Hl as [Hy Hl]. destruct (before y x) eqn:E.
    + cbn [ordered]. split; [| now apply IH].
      intros z Hz. apply list_elem_of_In in Hz. rewrite insert_sorted_perm in Hz.
      apply list_elem_of_In in Hz. destruct Hz as [<- | Hz]; [| now apply Hy].
      now apply before_true.
    + cbn [ordered]. split; [| split; assumption].
      intros z [<- | Hz]; [now apply before_false |].
      apply le_trans with y; [now apply before_false | now apply Hy].
Qed.

Lemma sort_by_ordered l : ordered (sort_by before l).
Proof.
  induction l as [| x l IH]; cbn [sort_by]; [exact I |].
  now apply insert_sorted_ordered.
Qed.

Lemma In_take (n : nat) (l : list A) (y : A) : In y (take n l) -> In y l.
Proof.
  revert n. induction l as [| x l IH]; intros [| n]; cbn; try tauto.
  intros [-> | Hy]; [now left | right; eauto].
Qed.

Lemma ordered_take n l : ordered l -> ordered (take n l).
Proof.
  revert n. induction l as [| x l IH]; intros [| n] Hl; cbn; try exact I.
  destruct Hl as [Hx Hl]. split; [| now apply IH].
  intros y Hy. apply Hx. now apply In_take in Hy.
Qed.

Lemma ordered_lookup l :
  ordered l ->
  forall i j a b, l !! i = Some a -> l !! j = Some b -> (i < j)%nat -> le a b.
Proof.
  induction l as [| x l IH]; intros Hl i j a b Hi Hj Hij; [discriminate |].
  destruct Hl as [Hx Hl]. destruct j as [| j]; [lia |]. cbn in Hj.
  destruct i as [| i]; cbn in Hi.
  - injection Hi as <-. apply Hx. apply list_elem_of_In.
    eapply list_elem_of_lookup_2, Hj.
  - apply (IH Hl i j); [assumption .. | lia].
Qed.

End Ordered.

End SortFacts.

(** ** modules/new_modules/thesis_engine.py, continued *)

Module ThesisEngineFacts.

Import Num NumFacts Data ThesisEngine.
Local Open Scope Q_scope.

Lemma clamp_ge (lo y a b : Q) : lo <= y -> lo <= b -> lo <= clamp y a b.
Proof.
  intros Hy Hb. unfold clamp. apply qmin_glb; [| exact Hb].
  apply Qle_trans with y; [exact Hy | apply qmax_l].
Qed.

Lemma clamp_le (hi y a b : Q) : y <= hi -> a <= hi -> clamp y a b <= hi.
Proof.
  intros Hy Ha. unfold clamp.
  apply Qle_trans with (qmax y a); [apply qmin_l | now apply qmax_lub].
Qed.

Lemma py_round_lower (lo x : Q) (z : Z) (n : nat) :
  lo == inject_Z z / inject_Z (pow10 n) -> lo <= x -> lo <= py_round x n.
Proof. intros E H. rewrite E. apply py_round_ge. now rewrite <- E. Qed.

Lemma py_round_upper (hi x : Q) (z : Z) (n : nat) :
  hi == inject_Z z / inject_Z (pow10 n) -> x <= hi -> py_round x n <= hi.
Proof. intros E H. rewrite E. apply py_round_le. now rewrite <- E. Qed.

Lemma py_round_lower_sharp (lo x : Q) (z : Z) (n : nat) :
  lo == inject_Z z / inject_Z (pow10 n) ->
  (inject_Z z - (1 # 2)) / inject_Z (pow10 n) < x -> lo <= py_round x n.
Proof. intros E H. rewrite E. now apply py_round_above. Qed.

Lemma py_round_upper_sharp (hi x : Q) (z : Z) (n : nat) :
  hi == inject_Z z / inject_Z (pow10 n) ->
  x < (inject_Z z + (1 # 2)) / inject_Z (pow10 n) -> py_round x n <= hi.
Proof. intros E H. rewrite E. now apply py_round_below. Qed.

(** What the engine guarantees of a thesis of each type for the player
    named [n]: the market, who is eligible, and the range of the
    confidence [c].  The numeric gates are those of the code,
    [if x < threshold: return None]: a thesis is made when [x] is not below
    the threshold. *)
Definition profile (ctx : thesis_ctx) (game : game_ctx) (n : string)
    (t : thesis) (c : Q) : Prop :=
  let position := get_player_position n (default "" (pos ctx)) in
  (thesis_type t = Some "BigRebound" /\ market t = Some "REB" /\
   In position ["PF"; "C"] /\ 48 # 100 <= c) \/
  (thesis_type t = Some "AssistMatchup" /\ market t = Some "AST" /\
   In position ["PG"; "SG"] /\ 48 # 100 <= c) \/
  (thesis_type t = Some "ScorerLine" /\ market t = Some "PTS" /\
   In position ["SG"; "SF"] /\ 55 # 100 <= c) \/
  (thesis_type t = Some "ValueHunter" /\ market t = Some "PRA" /\
   In (default "bench" (role ctx)) ["bench"; "rotation"] /\
   ~ default 0 (min_avg ctx) < 15 /\ 4 # 10 <= c /\ c <= 55 # 100) \/
  (thesis_type t = Some "PaceBoost" /\
   (exists m, market t = Some m /\ In m ["AST"; "PTS"; "PRA"]) /\
   ~ default 100 (pace game) < 100 /\ 45 # 100 <= c /\ c <= 53 # 100) \/
  (thesis_type t = Some "BlowoutRisk" /\ market t = Some "RISK" /\
   ~ qabs (default 0 (spread game)) < 12 /\ c == 3 # 10 /\ is_risk t = Some true).

Definition made (ctx : thesis_ctx) (game : game_ctx) (t : thesis) : Prop :=
  exists n c, name ctx = Some n /\ player t = Some n /\ confidence t = Some c /\
    0 <= c /\ c <= 1 /\ player_ctx t = None /\ profile ctx game n t c.

Definition made_as (ty : string) (ctx : thesis_ctx) (game : game_ctx)
    (t : thesis) : Prop :=
  thesis_type t = Some ty /\ made ctx game t.

Ltac gate_eq :=
  lazymatch goal with
  | |- yields _ _ (if ?b then _ else _) => destruct b eqn:?; [exact I |]
  | |- yields _ _ (bind (index _ ?o) _) =>
      destruct o eqn:?; [cbn [bind index] | assumption]
  | |- yields _ _ (match ?l with [] => _ | _ :: _ => _ end) =>
      destruct l eqn:?; [exact I |]
  | |- yields _ _ (let '(_, _) := ?p in _) => destruct p eqn:?
  end.

(** Turns the recorded guards into inequalities and splits the remaining
    choices. *)
Ltac guards :=
  repeat match goal with
         | H : qltb _ _ = true |- _ => apply qltb_true in H
         | H : qltb _ _ = false |- _ => apply qltb_false in H
         | H : qleb _ _ = true |- _ => apply qleb_true in H
         | H : qleb _ _ = false |- _ => apply qleb_false in H
         end.

Ltac choices :=
  unfold when, calculate_dvp_factor, high_pace, min_usage, big_spread in *;
  repeat match goal with
         | |- context [if ?b then _ else _] => destruct b eqn:?
         end;
  unfold weighted_confidence, flat_confidence;
  cbn [fold_left fst snd assoc weight_table app String.eqb Ascii.eqb
       Bool.eqb andb confidence_multipliers];
  guards;
  unfold qmin in *;
  repeat match goal with
         | |- context [Qlt_le_dec ?a ?b] => destruct (Qlt_le_dec a b)
         end.

Lemma qltb_false_not (a b : Q) : qltb a b = false -> ~ a < b.
Proof. intros H Hlt. apply qltb_false in H. lra. Qed.

Lemma mk_thesis_made ctx game n m x e f ty l r :
  name ctx = Some n ->
  profile ctx game n (mk_thesis ctx n m (clamp x 0 1) e f ty l r)
    (py_round (clamp x 0 1) 2) ->
  made_as ty ctx game (mk_thesis ctx n m (clamp x 0 1) e f ty l r).
Proof.
  intros Hn Hp. split; [reflexivity |]. exists n, (py_round (clamp x 0 1) 2).
  destruct (clamp_bounds x 0 1) as [H0 H1]; [lra |].
  destruct (py_round_unit _ 2 H0 H1) as [R0 R1].
  repeat split; assumption.
Qed.

Lemma position_gate (position : string) (l : list string) :
  negb (Str.mem position l) = false -> In position l.
Proof. intros H. apply Str.mem_In. now apply negb_false_iff in H. Qed.

Lemma generate_big_rebound_made ctx game :
  yields (made_as "BigRebound" ctx game) ctx (generate_big_rebound_thesis ctx game).
Proof.
  unfold generate_big_rebound_thesis. cbv zeta. repeat gate_eq.
  match goal with H : _ = _ :: _ |- _ => rewrite <- H; clear H end.
  cbn [yields]. apply mk_thesis_made; [assumption |].
  left. split; [reflexivity |]. split; [reflexivity |].
  split; [now apply position_gate |].
  apply (py_round_lower _ _ 48); [reflexivity |].
  apply clamp_ge; [| lra].
  choices; lra.
Qed.

Lemma generate_assist_matchup_made ctx game :
  yields (made_as "AssistMatchup" ctx game) ctx
    (generate_assist_matchup_thesis ctx game).
Proof.
  unfold generate_assist_matchup_thesis. cbv zeta. repeat gate_eq.
  match goal with H : _ = _ :: _ |- _ => rewrite <- H; clear H end.
  cbn [yields]. apply mk_thesis_made; [assumption |].
  right. left. split; [reflexivity |]. split; [reflexivity |].
  split; [now apply position_gate |].
  apply (py_round_lower _ _ 48); [reflexivity |].
  apply clamp_ge; [| lra].
  choices; lra.
Qed.

Lemma generate_scorer_line_made ctx game :
  yields (made_as "ScorerLine" ctx game) ctx (generate_scorer_line_thesis ctx game).
Proof.
  unfold generate_scorer_line_thesis. cbv zeta. repeat gate_eq.
  cbn [yields]. apply mk_thesis_made; [assumption |].
  right. right. left. split; [reflexivity |]. split; [reflexivity |].
  split; [now apply position_gate |].
  apply (py_round_lower _ _ 55); [reflexivity |].
  apply clamp_ge; [| lra].
  choices; lra.
Qed.

Lemma generate_value_hunter_made ctx game :
  yields (made_as "ValueHunter" ctx game) ctx (generate_value_hunter_thesis ctx game).
Proof.
  unfold generate_value_hunter_thesis. cbv zeta. repeat gate_eq.
  cbn [yields]. apply mk_thesis_made; [assumption |].
  do 3 right. left. split; [reflexivity |]. split; [reflexivity |].
  split; [now apply position_gate |].
  split; [now apply qltb_false_not |].
  set (pra_per_min := if qltb 0 (default 0 (min_avg ctx)) then _ else 0).
  clearbody pra_per_min.
  split.
  - apply (py_round_lower _ _ 40); [reflexivity |].
    apply clamp_ge; [| lra].
    choices; lra.
  - apply (py_round_upper _ _ 55); [reflexivity |].
    apply clamp_le; [| lra].
    choices; lra.
Qed.

Lemma generate_pace_boost_made ctx game :
  yields (made_as "PaceBoost" ctx game) ctx (generate_pace_boost_thesis ctx game).
Proof.
  unfold generate_pace_boost_thesis. cbv zeta. repeat gate_eq.
  cbn [yields]. apply mk_thesis_made; [assumption |].
  do 4 right. left. split; [reflexivity |].
  split.
  { eexists. split; [reflexivity |].
    match goal with
    | H : (if ?a then _ else if ?b then _ else _) = (_, _) |- _ =>
        destruct a; [| destruct b]; injection H as <- _; cbn; auto
    end. }
  match goal with H : (if _ then _ else _) = (_, _) |- _ => clear H end.
  split; [unfold high_pace in *; now apply qltb_false_not |].
  split.
  - apply (py_round_lower_sharp _ _ 45); [reflexivity |].
    apply Qlt_le_trans with (44625 # 100000); [reflexivity |].
    apply clamp_ge; [| lra].
    choices; lra.
  - apply (py_round_upper_sharp _ _ 53); [reflexivity |].
    apply Qle_lt_trans with (53125 # 100000); [| reflexivity].
    apply clamp_le; [| lra].
    choices; lra.
Qed.

Lemma generate_blowout_risk_made ctx game :
  yields (made_as "BlowoutRisk" ctx game) ctx (generate_blowout_risk_thesis ctx game).
Proof.
  unfold generate_blowout_risk_thesis. cbv zeta. repeat gate_eq.
  cbn [yields]. split; [reflexivity |].
  eexists _, (py_round (3 # 10) 2).
  split; [eassumption |]. split; [reflexivity |]. split; [reflexivity |].
  split; [discriminate |]. split; [discriminate |]. split; [reflexivity |].
  do 5 right. split; [reflexivity |]. split; [reflexivity |].
  split; [unfold big_spread in *; now apply qltb_false_not |].
  split; reflexivity.
Qed.

Definition tagged_generators
  : list (string * (thesis_ctx -> game_ctx -> result (option thesis))) :=
  [("BigRebound", generate_big_rebound_thesis);
   ("AssistMatchup", generate_assist_matchup_thesis);
   ("ScorerLine", generate_scorer_line_thesis);
   ("ValueHunter", generate_value_hunter_thesis);
   ("PaceBoost", generate_pace_boost_thesis);
   ("BlowoutRisk", generate_blowout_risk_thesis)].

Lemma tagged_generators_made ctx game :
  Forall (fun p => yields (made_as (fst p) ctx game) ctx (snd p ctx game))
         tagged_generators.
Proof.
  unfold tagged_generators. repeat constructor; cbn [fst snd].
  - apply generate_big_rebound_made.
  - apply generate_assist_matchup_made.
  - apply generate_scorer_line_made.
  - apply generate_value_hunter_made.
  - apply generate_pace_boost_made.
  - apply generate_blowout_risk_made.
Qed.

(** The collecting loop of [generate_all_theses] appends, in the order of
    the generators, at most one thesis per generator. *)
Lemma collect_made ctx game
    (tagged : list (string * (thesis_ctx -> game_ctx -> result (option thesis)))) :
  Forall (fun p => yields (made_as (fst p) ctx game) ctx (snd p ctx game)) tagged ->
  forall theses,
  match foldM (fun theses generator =>
                 o <- generator ctx game ;;
                 match o with
                 | Some t => if keeps t then Ok (theses ++ [t])%list else Ok theses
                 | None => Ok theses
                 end) (map snd tagged) theses with
  | Ok theses' =>
      exists extra, theses' = (theses ++ extra)%list /\
        Forall (made ctx game) extra /\
        sublist (map thesis_type extra) (map (fun p => Some (fst p)) tagged)
  | Raise _ => name ctx = None
  end.
Proof.
  induction 1 as [| [ty g] tagged Hg _ IH]; intros theses; cbn [foldM map fst snd].
  - exists []. rewrite app_nil_r. repeat split; constructor.
  - cbn [fst snd] in Hg. unfold yields in Hg.
    destruct (g ctx game) as [[t |] | e]; cbn [bind]; [| | exact Hg].
    + destruct Hg as [Hty Hm]. destruct (keeps t); cbn [bind].
      * specialize (IH (theses ++ [t])%list).
        destruct (foldM _ (map snd tagged) (theses ++ [t])%list); [| exact IH].
        destruct IH as (extra & -> & Hall & Hsub).
        exists (t :: extra). rewrite <- app_assoc. split; [reflexivity |].
        split; [now constructor |].
        cbn [map fst]. rewrite Hty. now apply sublist_skip.
      * specialize (IH theses).
        destruct (foldM _ (map snd tagged) theses); [| exact IH].
        destruct IH as (extra & -> & Hall & Hsub).
        exists extra. repeat split; try assumption. now apply sublist_cons.
    + specialize (IH theses).
      destruct (foldM _ (map snd tagged) theses); [| exact IH].
      destruct IH as (extra & -> & Hall & Hsub).
      exists extra. repeat split; try assumption. now apply sublist_cons.
Qed.

(** The list before the final cut, and what [generate_all_theses] returns
    from it. *)
Lemma generate_all_theses_spec ctx game :
  match generate_all_theses ctx game with
  | Ok theses =>
      exists collected,
        theses = take 3 (sorted_desc (fun t => default 0 (confidence t)) collected) /\
        Forall (made ctx game) collected /\
        NoDup (map thesis_type collected)
  | Raise _ => name ctx = None
  end.
Proof.
  unfold generate_all_theses.
  pose proof (collect_made ctx game tagged_generators
                (tagged_generators_made ctx game) []) as H.
  change (map snd tagged_generators) with thesis_generators in H.
  destruct (foldM _ thesis_generators []) as [collected | e]; cbn [bind]; [| exact H].
  destruct H as (extra & -> & Hall & Hsub). cbn [app].
  exists extra. split; [reflexivity |]. split; [exact Hall |].
  eapply sublist_NoDup; [| exact Hsub].
  apply (bool_decide_unpack _). by vm_compute.
Qed.

Lemma made_sorted_take ctx game collected t :
  Forall (made ctx game) collected ->
  In t (take 3 (sorted_desc (fun t => default 0 (confidence t)) collected)) ->
  made ctx game t.
Proof.
  intros Hall Ht. apply SortFacts.In_take in Ht. apply sort_by_In in Ht.
  rewrite Forall_forall in Hall. apply Hall. now apply list_elem_of_In.
Qed.

(** X12.  [calculate_dvp_factor] does not depend on its [is_favorable]
    flag, nor on which side of 1.0 the value lies: it is always
    [0.7 + 0.3 * dvp_value]. *)
Theorem calculate_dvp_factor_linear (dvp_value : Q) (is_favorable : bool) :
  calculate_dvp_factor dvp_value is_favorable == (7 # 10) + (3 # 10) * dvp_value /\
  calculate_dvp_factor dvp_value true == calculate_dvp_factor dvp_value false.
Proof.
  unfold calculate_dvp_factor.
  destruct is_favorable, (qltb 1 dvp_value), (qltb dvp_value 1); split; lra.
Qed.

(** X13.  The theses returned for one player are sorted by decreasing
    confidence, no two of them have the same thesis type, and each carries
    the player's name. *)
Theorem generate_all_theses_sorted (ctx : thesis_ctx) (game : game_ctx) :
  match generate_all_theses ctx game with
  | Ok theses =>
      (forall i j a b, theses !! i = Some a -> theses !! j = Some b -> (i < j)%nat ->
         default 0 (confidence b) <= default 0 (confidence a)) /\
      NoDup (map thesis_type theses) /\
      (forall t, In t theses -> player t = name ctx /\ is_Some (thesis_type t))
  | Raise _ => name ctx = None
  end.
Proof.
  pose proof (generate_all_theses_spec ctx game) as H.
  destruct (generate_all_theses ctx game) as [theses | e]; [| exact H].
  destruct H as (collected & -> & Hall & Hnd).
  split; [| split].
  - apply (SortFacts.ordered_lookup
             (fun a b => default 0 (confidence b) <= default 0 (confidence a))).
    apply SortFacts.ordered_take.
    apply (SortFacts.sort_by_ordered
             (fun y x => qltb (default 0 (confidence x)) (default 0 (confidence y)))).
    + intros a b c Hab Hbc. lra.
    + intros y x Hb. apply qltb_true in Hb. lra.
    + intros y x Hb. now apply qltb_false in Hb.
  - rewrite <- firstn_map.
    apply (sublist_NoDup _ (map thesis_type
             (sorted_desc (fun t => default 0 (confidence t)) collected)));
      [| apply sublist_take].
    assert (Hp : map thesis_type
                   (sorted_desc (fun t => default 0 (confidence t)) collected)
                 ≡ₚ map thesis_type collected)
      by apply Permutation_map, sort_by_perm.
    rewrite Hp. exact Hnd.
  - intros t Ht. destruct (made_sorted_take ctx game collected t Hall Ht)
      as (n & c & Hn & Hp & _ & _ & _ & _ & Hprof).
    split; [congruence |].
    destruct Hprof as [H | [H | [H | [H | [H | H]]]]];
      destruct H as [-> _]; eexists; reflexivity.
Qed.

(** X14.  The type table of the thesis engine, for a context and a game
    whose numeric fields are numbers (none is NaN): every returned thesis
    has the market of its type, is issued only to an eligible player
    (position after the manual overrides; bench role and minutes not below
    15; game pace not below 100; absolute spread not below 12), and has a
    confidence in the range of its type; only a context without [name]
    makes the call fail. *)
Theorem generate_all_theses_profile (ctx : thesis_ctx) (game : game_ctx) :
  match generate_all_theses ctx game with
  | Ok theses =>
      forall t, In t theses ->
        exists n c, name ctx = Some n /\ player t = Some n /\
          confidence t = Some c /\ profile ctx game n t c
  | Raise _ => name ctx = None
  end.
Proof.
  pose proof (generate_all_theses_spec ctx game) as H.
  destruct (generate_all_theses ctx game) as [theses | e]; [| exact H].
  destruct H as (collected & -> & Hall & _). intros t Ht.
  destruct (made_sorted_take ctx game collected t Hall Ht)
    as (n & c & Hn & Hp & Hc & _ & _ & _ & Hprof).
  exists n, c. auto.
Qed.

(** [d[k] = v] on a dict kept as the list of its items, in insertion
    order: an existing key keeps its place. *)
Fixpoint dict_set {V : Type} (d : list (string * V)) (k : string) (v : V)
  : list (string * V) :=
  match d with
  | [] => [(k, v)]
  | (k', v') :: d' =>
      if String.eqb k' k then (k', v) :: d' else (k', v') :: dict_set d' k v
  end.

(** [process_game] *)
Definition process_game (players_data : list thesis_ctx) (game : game_ctx)
  : result (list (string * list thesis)) :=
  foldM (fun all_theses player_ctx =>
           let player_name := default "Unknown" (name player_ctx) in
           player_theses <- generate_all_theses player_ctx game ;;
           match player_theses with
           | [] => Ok all_theses
           | _ => Ok (dict_set all_theses player_name player_theses)
           end) players_data [].

Lemma dict_set_In {V : Type} (d : list (string * V)) k v k' v' :
  In (k', v') (dict_set d k v) -> (k' = k /\ v' = v) \/ In (k', v') d.
Proof.
  induction d as [| [k0 v0] d IH]; cbn.
  - intros [[= <- <-] | []]. now left.
  - destruct (String.eqb k0 k) eqn:E.
    + apply String.eqb_eq in E. subst k0.
      intros [[= <- <-] | H]; [now left | right; now right].
    + intros [H | H]; [right; now left |].
      destruct (IH H) as [? | ?]; [now left | right; now right].
Qed.

Lemma dict_set_keys {V : Type} (d : list (string * V)) k v k' :
  In k' (map fst (dict_set d k v)) -> k' = k \/ In k' (map fst d).
Proof.
  induction d as [| [k0 v0] d IH]; cbn.
  - intros [<- | []]. now left.
  - destruct (String.eqb k0 k) eqn:E; cbn; [tauto |].
    intros [H | H]; [tauto |]. destruct (IH H); tauto.
Qed.

Lemma dict_set_NoDup {V : Type} (d : list (string * V)) k v :
  List.NoDup (map fst d) -> List.NoDup (map fst (dict_set d k v)).
Proof.
  induction d as [| [k0 v0] d IH]; cbn; intros Hnd.
  - constructor; [intros [] | constructor].
  - inversion Hnd as [| ? ? Hnotin Hnd']; subst.
    destruct (String.eqb k0 k) eqn:E; cbn; [now constructor |].
    constructor; [| now apply IH].
    intros Hin. apply dict_set_keys in Hin as [-> | Hin]; [| contradiction].
    rewrite String.eqb_refl in E. discriminate.
Qed.

Lemma generate_all_theses_nameless ctx game :
  name ctx = None -> generate_all_theses ctx game = Raise (KeyError "name").
Proof.
  intros Hn. unfold generate_all_theses, thesis_generators. cbn [foldM].
  unfold generate_big_rebound_thesis at 1. rewrite Hn. reflexivity.
Qed.

(** The items of the dict built by [process_game]. *)
Definition game_theses (P : thesis_ctx -> Prop) (game : game_ctx)
    (all_theses : list (string * list thesis)) : Prop :=
  List.NoDup (map fst all_theses) /\
  forall k l, In (k, l) all_theses ->
    l <> [] /\
    exists ctx, P ctx /\ name ctx = Some k /\ generate_all_theses ctx game = Ok l.

Lemma process_game_loop (P : thesis_ctx -> Prop) game players :
  (forall ctx, In ctx players -> P ctx) ->
  forall acc, game_theses P game acc ->
  match foldM (fun all_theses player_ctx =>
                 let player_name := default "Unknown" (name player_ctx) in
                 player_theses <- generate_all_theses player_ctx game ;;
                 match player_theses with
                 | [] => Ok all_theses
                 | _ => Ok (dict_set all_theses player_name player_theses)
                 end) players acc with
  | Ok all_theses =>
      Forall (fun ctx => is_Some (name ctx)) players /\ game_theses P game all_theses
  | Raise e =>
      e = KeyError "name" /\ Exists (fun ctx => name ctx = None) players
  end.
Proof.
  induction players as [| ctx players IH]; intros HP acc Hacc; cbn [foldM].
  - split; [constructor | exact Hacc].
  - cbv zeta. destruct (name ctx) as [n |] eqn:Hn.
    + assert (Hnext : forall acc', game_theses P game acc' ->
                match foldM (fun all_theses player_ctx =>
                       let player_name := default "Unknown" (name player_ctx) in
                       player_theses <- generate_all_theses player_ctx game ;;
                       match player_theses with
                       | [] => Ok all_theses
                       | _ => Ok (dict_set all_theses player_name player_theses)
                       end) players acc' with
                | Ok all_theses =>
                    Forall (fun ctx => is_Some (name ctx)) (ctx :: players) /\
                    game_theses P game all_theses
                | Raise e =>
                    e = KeyError "name" /\
                    Exists (fun ctx => name ctx = None) (ctx :: players)
                end).
      { intros acc' Hacc'.
        specialize (IH (fun c Hc => HP c (or_intror Hc)) acc' Hacc').
        destruct (foldM _ players acc').
        - destruct IH as [Hall Hg]. split; [| exact Hg].
          constructor; [rewrite Hn; eauto | exact Hall].
        - destruct IH as [He Hex]. split; [exact He | now apply Exists_cons_tl]. }
      pose proof (generate_all_theses_spec ctx game) as Hspec.
      destruct (generate_all_theses ctx game) as [[| t l] | e] eqn:Hgen; cbn [bind].
      * now apply Hnext.
      * apply Hnext. destruct Hacc as [Hnd Hitems]. split.
        -- now apply dict_set_NoDup.
        -- intros k l' Hin. apply dict_set_In in Hin as [[-> ->] | Hin].
           ++ split; [discriminate |]. exists ctx. cbn [default].
              split; [apply HP; now left | split; [exact Hn | exact Hgen]].
           ++ now apply Hitems.
      * congruence.
    + rewrite (generate_all_theses_nameless ctx game Hn). cbn [bind].
      split; [reflexivity | now apply Exists_cons_hd].
Qed.


End ThesisEngineFacts.

(** ** modules/new_modules/strategy_engine.py, continued *)

Module StrategyEngineFacts.

Import Num NumFacts Data ThesisEngine ThesisEngineFacts StrategyEngine.
Local Open Scope Q_scope.

(** *** Categorization *)

(** A candidate of pool [c] is the copy of an input thesis that
    [_determine_category] sends to [c], with the three keys added. *)
Definition routed (game : game_ctx) (inputs : list thesis) (c : category_name)
    (x : thesis) : Prop :=
  exists t, In t inputs /\ same_keys t x /\ player_ctx x = player_ctx t /\
    _determine_category t game = Some c /\
    thesis_type t <> Some "BlowoutRisk" /\
    category x = Some (category_key c) /\
    player_team x = Some (ctx_field t team) /\
    player_role x = Some (ctx_field t role).

Lemma categorize_one_routed game inputs (b : buckets) t :
  In t inputs ->
  (forall c x, In x (b c) -> routed game inputs c x) ->
  forall c x, In x (categorize_one game b t c) -> routed game inputs c x.
Proof.
  intros Ht Hb c x. unfold categorize_one.
  destruct (String.eqb _ "BlowoutRisk") eqn:Ety; [apply Hb |].
  destruct (_determine_category t game) as [c' |] eqn:Ec; [| apply Hb].
  unfold set_bucket. destruct (decide (c = c')) as [-> | Hne]; [| apply Hb].
  intros Hx. apply in_app_or in Hx as [Hx | [<- | []]]; [now apply (Hb c') |].
  exists t. split; [exact Ht |]. split; [now repeat split |].
  split; [reflexivity |]. split; [exact Ec |].
  split; [| repeat split].
  intros Hty. rewrite Hty in Ety. discriminate.
Qed.

Lemma categorize_theses_routed all_theses game c x :
  In x (categorize_theses all_theses game c) ->
  routed game (input_theses all_theses) c x.
Proof.
  unfold categorize_theses, input_theses.
  assert (G : forall (rest : list (string * list thesis)) (inputs : list thesis)
                     (b : buckets),
             (forall t, In t (concat (map snd rest)) -> In t inputs) ->
             (forall c x, In x (b c) -> routed game inputs c x) ->
             forall c x,
               In x (fold_left (fun categorized entry =>
                                  fold_left (categorize_one game) (snd entry) categorized)
                               rest b c) ->
               routed game inputs c x).
  { induction rest as [| [nm ts] rest IH]; intros inputs b Hin Hb c0 x0; cbn.
    - apply Hb.
    - apply IH.
      + intros t Ht. apply Hin. cbn. apply in_or_app. now right.
      + assert (Hts : forall t, In t ts -> In t inputs).
        { intros t Ht. apply Hin. cbn. apply in_or_app. now left. }
        clear IH Hin. revert b Hb.
        induction ts as [| t ts IHts]; intros b Hb; cbn; [exact Hb |].
        apply IHts.
        * intros t' Ht'. apply Hts. now right.
        * apply categorize_one_routed; [| exact Hb]. apply Hts. now left. }
  apply G; [auto | intros c0 x0 []].
Qed.

(** What [_determine_category] has checked when it answers [c]. *)
Lemma _determine_category_config t game c :
  _determine_category t game = Some c ->
  min_confidence (category_configs c) <= default 0 (confidence t) /\
  (c <> explosao -> In (ctx_field t role) (allowed_roles (category_configs c))).
Proof.
  unfold _determine_category.
  repeat match goal with
         | |- context [if ?b then _ else _] => destruct b eqn:?
         end; intros [= <-]; cbn [min_confidence allowed_roles category_configs];
    repeat match goal with
           | H : _ && _ = true |- _ => apply andb_prop in H as [? ?]
           | H : qleb _ _ = true |- _ => apply qleb_true in H
           | H : String.eqb _ _ = true |- _ => apply String.eqb_eq in H
           | H : Str.mem _ _ = true |- _ => apply Str.mem_In in H
           end;
    (split; [lra | intros Hne; try congruence]);
    cbn [In] in *; intuition (symmetry; assumption).
Qed.

(** X16.  Every candidate that [categorize_theses] puts into a pool is the
    copy of an input thesis that is not a BlowoutRisk signal, already meets
    the pool's [min_confidence], and - except in the [explosao] pool - has a
    player-context role among the pool's [allowed_roles]. *)
Theorem categorize_theses_meets_config
    (all_theses : list (string * list thesis)) (game : game_ctx)
    (c : category_name) :
  Forall (fun x =>
            exists t, In t (input_theses all_theses) /\
              player x = player t /\ market x = market t /\
              confidence x = confidence t /\ thesis_type x = thesis_type t /\
              thesis_type t <> Some "BlowoutRisk" /\
              category x = Some (category_key c) /\
              player_role x = Some (ctx_field t role) /\
              min_confidence (category_configs c) <= default 0 (confidence t) /\
              (c <> explosao ->
               In (ctx_field t role) (allowed_roles (category_configs c))))
         (categorize_theses all_theses game c).
Proof.
  rewrite Forall_forall. intros x Hx. apply list_elem_of_In in Hx.
  apply categorize_theses_routed in Hx
    as (t & Ht & (Hp & Hc & Hm & Hty) & _ & Hcat & Hrisk & Hkey & _ & Hrole).
  apply _determine_category_config in Hcat as [Hmin Hroles].
  exists t. repeat split; assumption.
Qed.

(** *** The thesis engine feeding the strategy engine *)

Lemma In_input_theses (all_theses : list (string * list thesis)) t :
  In t (input_theses all_theses) <->
  exists k l, In (k, l) all_theses /\ In t l.
Proof.
  unfold input_theses. rewrite in_concat. split.
  - intros (l & Hl & Ht). apply in_map_iff in Hl as ([k l'] & <- & Hin). eauto.
  - intros (k & l & Hin & Ht). exists l. split; [| exact Ht].
    apply in_map_iff. exists (k, l). auto.
Qed.

Lemma made_complete ctx game t : made ctx game t -> complete t.
Proof.
  intros (n & c & _ & Hp & Hc & _ & _ & _ & Hprof). unfold complete.
  rewrite Hp, Hc.
  destruct Hprof as [H | [H | [H | [H | [H | H]]]]].
  - destruct H as (-> & -> & _). eauto.
  - destruct H as (-> & -> & _). eauto.
  - destruct H as (-> & -> & _). eauto.
  - destruct H as (-> & -> & _). eauto.
  - destruct H as (-> & (m & -> & _) & _). eauto.
  - destruct H as (-> & -> & _). eauto.
Qed.

Lemma generate_all_theses_made ctx game theses t :
  generate_all_theses ctx game = Ok theses -> In t theses -> made ctx game t.
Proof.
  intros E Ht. pose proof (generate_all_theses_spec ctx game) as H.
  rewrite E in H. destruct H as (collected & -> & Hall & _).
  now apply (made_sorted_take ctx game collected).
Qed.

(** A thesis without a player context has the role [''], which no bucket
    allows. *)
Lemma no_context_not_allowed t c :
  player_ctx t = None ->
  ~ In (ctx_field t role) (allowed_roles (category_configs c)).
Proof.
  intros Hctx. unfold ctx_field. rewrite Hctx.
  destruct c; cbn; intuition discriminate.
Qed.

(** X17.  The dict returned by [process_game] can be passed to
    [compose_recommendations] as it is, and the call returns, but every
    bucket comes back empty: the theses carry no [player_ctx], so their role
    reads as the empty string, which no bucket allows. *)
Theorem process_game_compose_empty (players_data : list thesis_ctx) (game : game_ctx) :
  match process_game players_data game with
  | Ok all_theses =>
      match compose_recommendations all_theses game with
      | Ok recs => forall c, recs c = []
      | Raise _ => False
      end
  | Raise _ => Exists (fun ctx => name ctx = None) players_data
  end.
Proof.
  unfold process_game.
  pose proof (process_game_loop (fun _ => True) game players_data (fun _ _ => I) [])
    as H.
  destruct (foldM _ players_data []) as [all_theses | e].
  2: { apply H. split; [constructor | intros ? ? []]. }
  destruct H as (_ & _ & Hitems); [split; [constructor | intros ? ? []] |].
  assert (Hmade : forall t, In t (input_theses all_theses) ->
                            exists ctx, made ctx game t).
  { intros t Ht. apply In_input_theses in Ht as (k & l & Hin & Ht).
    destruct (Hitems k l Hin) as (_ & ctx & _ & _ & Hgen).
    exists ctx. now apply (generate_all_theses_made ctx game l). }
  destruct (compose_recommendations_total all_theses game) as [recs E].
  { rewrite Forall_forall. intros t Ht. apply list_elem_of_In in Ht.
    destruct (Hmade t Ht) as [ctx Hm]. now apply (made_complete ctx game). }
  rewrite E. intros c. destruct (recs c) as [| r rest] eqn:Ec; [reflexivity |].
  exfalso.
  apply compose_recommendations_spec in E as (acc & (Hin & _) & Hsub & _).
  destruct (Hin c r) as (x & p & Hx & _ & Hrole & _ & _ & Hal).
  { apply Hsub. rewrite Ec. now left. }
  apply categorize_theses_candidates in Hx as (t & Ht & _ & Hxr).
  rewrite Hrole, Hxr in Hal.
  change (In (ctx_field t role) (allowed_roles (category_configs c))) in Hal.
  destruct (Hmade t Ht) as (ctx & n & q & _ & _ & _ & _ & _ & Hctx & _).
  now apply (no_context_not_allowed t c Hctx).
Qed.

(** [thesis['player_ctx'] = player_ctx] *)
Definition with_player_ctx (t : thesis) (ctx : thesis_ctx) : thesis :=
  {| player := player t; th_player_id := th_player_id t; market := market t;
     confidence := confidence t; evidences := evidences t; weights := weights t;
     thesis_type := thesis_type t; suggested_line := suggested_line t;
     is_risk := is_risk t; player_ctx := Some ctx;
     player_position := player_position t;
     th_team := th_team t; strategy := strategy t;
     category := category t; player_team := player_team t;
     player_role := player_role t;
     strategy_category := strategy_category t; selection_score := selection_score t;
     adjusted_confidence := adjusted_confidence t;
     score_adjustment := score_adjustment t; adjustments := adjustments t;
     identified_strategy := identified_strategy t;
     strategy_description := strategy_description t |}.

(** The loop of [test_strategy_engine] that builds [all_theses]: the
    theses of each player, with the player's context attached. *)
Definition theses_with_context (players_data : list thesis_ctx) (game : game_ctx)
  : result (list (string * list thesis)) :=
  foldM (fun all_theses player_ctx =>
           player_name <- index "name" (name player_ctx) ;;
           theses <- generate_all_theses player_ctx game ;;
           match theses with
           | [] => Ok all_theses
           | _ =>
               Ok (dict_set all_theses player_name
                     (map (fun thesis => with_player_ctx thesis player_ctx) theses))
           end) players_data [].

Definition engine_made (game : game_ctx) (x : thesis) : Prop :=
  exists ctx t, made ctx game t /\ x = with_player_ctx t ctx.

Lemma theses_with_context_loop game players :
  forall acc, Forall (engine_made game) (input_theses acc) ->
  match foldM (fun all_theses player_ctx =>
                 player_name <- index "name" (name player_ctx) ;;
                 theses <- generate_all_theses player_ctx game ;;
                 match theses with
                 | [] => Ok all_theses
                 | _ =>
                     Ok (dict_set all_theses player_name
                           (map (fun thesis => with_player_ctx thesis player_ctx)
                                theses))
                 end) players acc with
  | Ok all_theses => Forall (engine_made game) (input_theses all_theses)
  | Raise _ => Exists (fun ctx => name ctx = None) players
  end.
Proof.
  induction players as [| ctx players IH]; intros acc Hacc; cbn [foldM];
    [exact Hacc |].
  assert (Hnext : forall acc', Forall (engine_made game) (input_theses acc') ->
            match foldM (fun all_theses player_ctx =>
                   player_name <- index "name" (name player_ctx) ;;
                   theses <- generate_all_theses player_ctx game ;;
                   match theses with
                   | [] => Ok all_theses
                   | _ =>
                       Ok (dict_set all_theses player_name
                             (map (fun thesis => with_player_ctx thesis player_ctx)
                                  theses))
                   end) players acc' with
            | Ok all_theses => Forall (engine_made game) (input_theses all_theses)
            | Raise _ => Exists (fun ctx => name ctx = None) (ctx :: players)
            end).
  { intros acc' Hacc'. specialize (IH acc' Hacc').
    destruct (foldM _ players acc'); [exact IH | now apply Exists_cons_tl]. }
  destruct (name ctx) as [n |] eqn:Hn; cbn [index bind];
    [| now apply Exists_cons_hd].
  pose proof (generate_all_theses_spec ctx game) as Hspec.
  destruct (generate_all_theses ctx game) as [[| t l] | e] eqn:Hgen; cbn [bind].
  - now apply Hnext.
  - apply Hnext. rewrite Forall_forall. intros x Hx. apply list_elem_of_In in Hx.
    apply In_input_theses in Hx as (k & l' & Hin & Hx).
    apply dict_set_In in Hin as [[-> ->] | Hin].
    + apply in_map_iff in Hx as (t0 & <- & Ht0). exists ctx, t0.
      split; [| reflexivity].
      now apply (generate_all_theses_made ctx game (t :: l)).
    + rewrite Forall_forall in Hacc. apply Hacc. apply list_elem_of_In.
      apply In_input_theses. eauto.
  - congruence.
Qed.

(** Which engine-made theses each pool can receive. *)
Definition bucket_profile (c : category_name) (ty : string) (q : Q) : Prop :=
  match c with
  | conservadora => In ty ["BigRebound"; "ScorerLine"] /\ 65 # 100 <= q
  | ousada => False
  | banco =>
      (ty = "ValueHunter" /\ q == 55 # 100) \/
      (In ty ["BigRebound"; "ScorerLine"] /\ 7 # 10 <= q)
  | explosao => ty = "AssistMatchup" /\ 6 # 10 <= q
  end.

Ltac crack :=
  repeat match goal with
         | H : _ && _ = true |- _ => apply andb_prop in H as [? ?]
         | H : false = true |- _ => discriminate H
         | H : _ && true = false |- _ => rewrite andb_true_r in H
         | H : qleb _ _ = true |- _ => apply qleb_true in H
         | H : qleb _ _ = false |- _ => apply qleb_false in H
         end.

Ltac decide_category :=
  unfold _determine_category;
  cbn [thesis_type market confidence with_player_ctx];
  repeat match goal with
         | H : thesis_type _ = Some _ |- _ => rewrite H; clear H
         | H : market _ = Some _ |- _ => rewrite H; clear H
         | H : confidence _ = Some _ |- _ => rewrite H; clear H
         end;
  cbn [Str.mem existsb String.eqb Ascii.eqb Bool.eqb andb orb from_option
       Datatypes.id];
  repeat match goal with
         | |- context [if ?b then _ else _] => destruct b eqn:?
         end;
  intros [= <-]; crack; cbn [bucket_profile In]; try lra;
  try (repeat split; auto; lra).

Lemma engine_category game x c :
  engine_made game x -> _determine_category x game = Some c ->
  exists ty q, thesis_type x = Some ty /\ confidence x = Some q /\
               bucket_profile c ty q.
Proof.
  intros (ctx & t & (n & q & _ & _ & Hq & _ & _ & _ & Hprof) & ->).
  destruct Hprof as [H | [H | [H | [H | [H | H]]]]].
  - destruct H as (Hty & Hm & _ & Hlo). intros Hc.
    exists "BigRebound", q. split; [exact Hty |]. split; [exact Hq |].
    revert Hc. decide_category.
  - destruct H as (Hty & Hm & _ & Hlo). intros Hc.
    exists "AssistMatchup", q. split; [exact Hty |]. split; [exact Hq |].
    revert Hc. decide_category.
  - destruct H as (Hty & Hm & _ & Hlo). intros Hc.
    exists "ScorerLine", q. split; [exact Hty |]. split; [exact Hq |].
    revert Hc. decide_category.
  - destruct H as (Hty & Hm & _ & _ & Hlo & Hhi). intros Hc.
    exists "ValueHunter", q. split; [exact Hty |]. split; [exact Hq |].
    revert Hc. decide_category.
    left. split; [reflexivity | lra].
  - destruct H as (Hty & (m & Hm & Hin) & _ & Hlo & Hhi). intros Hc.
    exists "PaceBoost", q. split; [exact Hty |]. split; [exact Hq |].
    revert Hc. cbn [In] in Hin.
    destruct Hin as [<- | [<- | [<- | []]]]; decide_category.
  - destruct H as (Hty & Hm & _ & Heq & _). intros Hc.
    exists "BlowoutRisk", q. split; [exact Hty |]. split; [exact Hq |].
    revert Hc. decide_category.
Qed.

Lemma engine_made_complete game x : engine_made game x -> complete x.
Proof.
  intros (ctx & t & Hm & ->). apply made_complete in Hm. exact Hm.
Qed.

(** X18.  When the theses of the thesis engine are composed with their
    player contexts attached, the [ousada] bucket is always empty and no
    PaceBoost thesis is ever recommended: [conservadora] holds BigRebound
    and ScorerLine theses only, [explosao] AssistMatchup theses only, and
    [banco] a ValueHunter thesis only at the confidence 0.55, its maximum. *)
Theorem engine_theses_buckets (players_data : list thesis_ctx) (game : game_ctx) :
  match theses_with_context players_data game with
  | Ok all_theses =>
      match compose_recommendations all_theses game with
      | Ok recs =>
          recs ousada = [] /\
          forall c r, In r (recs c) ->
            exists ty q, thesis_type r = Some ty /\ confidence r = Some q /\
              match c with
              | conservadora => In ty ["BigRebound"; "ScorerLine"] /\ 65 # 100 <= q
              | ousada => False
              | banco =>
                  (ty = "ValueHunter" /\ q == 55 # 100) \/
                  (In ty ["BigRebound"; "ScorerLine"] /\ 7 # 10 <= q)
              | explosao => ty = "AssistMatchup" /\ 6 # 10 <= q
              end
      | Raise _ => False
      end
  | Raise _ => Exists (fun ctx => name ctx = None) players_data
  end.
Proof.
  unfold theses_with_context.
  pose proof (theses_with_context_loop game players_data [] (Forall_nil_2 _)) as H.
  destruct (foldM _ players_data []) as [all_theses | e]; [| exact H].
  rewrite Forall_forall in H.
  destruct (compose_recommendations_total all_theses game) as [recs E].
  { rewrite Forall_forall. intros t Ht. now apply (engine_made_complete game), H. }
  rewrite E.
  apply compose_recommendations_spec in E as (acc & (Hin & _) & Hsub & _).
  assert (Hall : forall c r, In r (recs c) ->
            exists ty q, thesis_type r = Some ty /\ confidence r = Some q /\
                         bucket_profile c ty q).
  { intros c r Hr.
    destruct (Hin c r (Hsub c r Hr)) as (x & p & Hx & (_ & Hc & _ & Hty) & _).
    apply categorize_theses_routed in Hx
      as (t & Ht & (_ & Hc' & _ & Hty') & _ & Hcat & _).
    destruct (engine_category game t c) as (ty & q & Ety & Eq & Hprof);
      [apply H; now apply list_elem_of_In | exact Hcat |].
    exists ty, q. split; [congruence |]. split; [congruence | exact Hprof]. }
  split; [| exact Hall].
  destruct (recs ousada) as [| r rest] eqn:Er; [reflexivity |].
  destruct (Hall ousada r) as (ty & q & _ & _ & []). rewrite Er. now left.
Qed.

(** A starting power forward in a fast game reaches the first bucket. *)
Example engine_theses_example :
  match theses_with_context
          [ {| name := Some "X"; id := None; pos := Some "PF";
               player_class := Some "GLASS_BANGER"; role := Some "starter";
               team := Some "MIA"; dvp_reb := Some 2; dvp_ast := None;
               dvp_pts := None; usg := Some 40; ast_pct := None; ppg := None;
               rpg := Some (92 # 10); apg := None; pra := None; min_avg := None;
               last_5_ppg := None; last_5_rpg := None; last_5_apg := None;
               last_5_pra := None; last_5_min_avg := None |} ]
          {| home_team := Some "MIA"; away_team := Some "BOS";
             spread := Some (- (3)); total := None; pace := Some 130 |} with
  | Ok all_theses =>
      match compose_recommendations all_theses
              {| home_team := Some "MIA"; away_team := Some "BOS";
                 spread := Some (- (3)); total := None; pace := Some 130 |} with
      | Ok recs =>
          map (fun r => (player r, thesis_type r, confidence r)) (recs conservadora)
          = [(Some "X", Some "BigRebound", Some (72 # 100))]
      | Raise _ => False
      end
  | Raise _ => False
  end.
Proof. vm_compute. reflexivity. Qed.

(** *** The de-duplication across buckets *)

Lemma without_player_removes p :
  forall recs kept,
  without_player p recs = Ok kept ->
  forall r, In r kept -> In r recs /\ player r <> Some p.
Proof.
  unfold without_player.
  assert (G : forall recs acc kept,
             foldM (fun acc r =>
                      q <- index "player" (player r) ;;
                      if String.eqb q p then Ok acc else Ok (acc ++ [r])%list)
                   recs acc = Ok kept ->
             forall r, In r kept ->
               In r acc \/ (In r recs /\ player r <> Some p)).
  { induction recs as [| r recs IH]; intros acc kept H; cbn [foldM] in H.
    - injection H as <-. auto.
    - destruct (player r) as [q |] eqn:Hq; cbn [bind index] in H; [| discriminate].
      destruct (String.eqb q p) eqn:E; cbn [bind] in H;
        intros r' Hr'; destruct (IH _ _ H r' Hr') as [Ha | [Hb Hne]].
      + now left.
      + right. split; [now right | exact Hne].
      + apply in_app_or in Ha as [Ha | [<- | []]]; [now left |].
        right. split; [now left |]. rewrite Hq. intros [= ->].
        rewrite String.eqb_refl in E. discriminate.
      + right. split; [now right | exact Hne]. }
  intros recs kept H r Hr. destruct (G recs [] kept H r Hr) as [[] | ?]. assumption.
Qed.

(** While the bucket [c] is being scanned, with [remaining] still to
    come: every entry of a bucket that is not pending belongs to the
    category recorded for its player, or is one of the remaining entries. *)
Definition settled (pending : list category_name) (c : category_name)
    (remaining : list thesis) (d : diversity) : Prop :=
  (forall p, is_Some (player_to_category d !! p) -> is_Some (player_to_score d !! p)) /\
  forall c' r p, In r (recommendations d c') -> player r = Some p ->
    In c' pending \/ (c' = c /\ In r remaining) \/
    player_to_category d !! p = Some c'.

Lemma diversity_step_settled pending c rec rest d d' :
  settled pending c (rec :: rest) d ->
  diversity_step c d rec = Ok d' ->
  settled pending c rest d'.
Proof.
  intros [Hdom Hown] H. unfold diversity_step in H.
  destruct (player rec) as [p0 |] eqn:Hp0; cbn [bind index] in H; [| discriminate].
  destruct (confidence rec) as [cf |]; cbn [bind index] in H; [| discriminate].
  destruct (player_to_score d !! p0) as [old |] eqn:Eold.
  - destruct (qltb old _).
    + destruct (player_to_category d !! p0) as [oc |] eqn:Eoc; cbn [bind index] in H;
        [| discriminate].
      destruct (without_player p0 _) as [kept |] eqn:Ew; cbn [bind] in H;
        [| discriminate].
      injection H as <-. pose proof (without_player_removes p0 _ _ Ew) as Hkept.
      split; cbn [player_to_category player_to_score recommendations].
      * intros p Hp. destruct (decide (p0 = p)) as [<- | Hne].
        -- rewrite lookup_insert_eq. eauto.
        -- rewrite lookup_insert_ne in Hp by exact Hne.
           rewrite lookup_insert_ne by exact Hne. now apply Hdom.
      * intros c' r p Hr Hp.
        assert (Hr0 : In r (recommendations d c') /\ (c' = oc -> p <> p0)).
        { unfold set_bucket in Hr. destruct (decide (c' = oc)) as [-> | Hne].
          - destruct (Hkept r Hr) as [Hin Hneq]. split; [exact Hin |].
            intros _ ->. contradiction.
          - split; [exact Hr | intros ?; contradiction]. }
        destruct Hr0 as [Hr0 Hoc].
        destruct (Hown c' r p Hr0 Hp) as [Hpend | [[-> [<- | Hrest]] | Hcat]].
        -- now left.
        -- right. right. assert (p = p0) by congruence. subst p.
           now rewrite lookup_insert_eq.
        -- right. left. auto.
        -- right. right. destruct (decide (p0 = p)) as [<- | Hne].
           ++ exfalso. assert (c' = oc) by congruence. now apply Hoc.
           ++ now rewrite lookup_insert_ne by exact Hne.
    + destruct (without_player p0 _) as [kept |] eqn:Ew; cbn [bind] in H;
        [| discriminate].
      injection H as <-. pose proof (without_player_removes p0 _ _ Ew) as Hkept.
      split; cbn [player_to_category player_to_score recommendations];
        [exact Hdom |].
      intros c' r p Hr Hp.
      assert (Hr0 : In r (recommendations d c') /\ (c' = c -> p <> p0)).
      { unfold set_bucket in Hr. destruct (decide (c' = c)) as [-> | Hne].
        - destruct (Hkept r Hr) as [Hin Hneq]. split; [exact Hin |].
          intros _ ->. contradiction.
        - split; [exact Hr | intros ?; contradiction]. }
      destruct Hr0 as [Hr0 Hc].
      destruct (Hown c' r p Hr0 Hp) as [Hpend | [[-> [<- | Hrest]] | Hcat]].
      * now left.
      * exfalso. apply Hc; congruence.
      * right. left. auto.
      * right. now right.
  - injection H as <-.
    split; cbn [player_to_category player_to_score recommendations].
    + intros p Hp. destruct (decide (p0 = p)) as [<- | Hne].
      * rewrite lookup_insert_eq. eauto.
      * rewrite lookup_insert_ne in Hp by exact Hne.
        rewrite lookup_insert_ne by exact Hne. now apply Hdom.
    + intros c' r p Hr Hp.
      destruct (Hown c' r p Hr Hp) as [Hpend | [[-> [<- | Hrest]] | Hcat]].
      * now left.
      * right. right. assert (p = p0) by congruence. subst p.
        now rewrite lookup_insert_eq.
      * right. left. auto.
      * right. right. destruct (decide (p0 = p)) as [<- | Hne].
        -- exfalso. destruct (Hdom p0) as [x Hx]; [eauto |]. congruence.
        -- now rewrite lookup_insert_ne by exact Hne.
Qed.

Lemma diversity_scan_settled pending c :
  forall remaining d d',
  settled pending c remaining d ->
  foldM (diversity_step c) remaining d = Ok d' ->
  settled pending c [] d'.
Proof.
  induction remaining as [| rec rest IH]; intros d d' Hs H; cbn [foldM] in H.
  - injection H as <-. exact Hs.
  - destruct (diversity_step c d rec) as [d1 |] eqn:E; cbn [bind] in H;
      [| discriminate].
    apply (IH d1 d'); [| exact H].
    now apply (diversity_step_settled pending c rec rest d).
Qed.

(** Between two buckets. *)
Definition owned (pending : list category_name) (d : diversity) : Prop :=
  (forall p, is_Some (player_to_category d !! p) -> is_Some (player_to_score d !! p)) /\
  forall c' r p, In r (recommendations d c') -> player r = Some p ->
    In c' pending \/ player_to_category d !! p = Some c'.

Lemma diversity_loop_owned :
  forall cats d d',
  owned cats d ->
  foldM (fun d c => foldM (diversity_step c) (recommendations d c) d) cats d = Ok d' ->
  owned [] d'.
Proof.
  induction cats as [| c cats IH]; intros d d' Ho H; cbn [foldM] in H.
  - injection H as <-. exact Ho.
  - destruct (foldM (diversity_step c) (recommendations d c) d) as [d1 |] eqn:E;
      cbn [bind] in H; [| discriminate].
    apply (IH d1 d'); [| exact H].
    destruct Ho as [Hdom Hown].
    destruct (diversity_scan_settled cats c (recommendations d c) d d1) as [Hdom1 Hown1];
      [| exact E |].
    + split; [exact Hdom |]. intros c' r p Hr Hp.
      destruct (Hown c' r p Hr Hp) as [[<- | Hpend] | Hcat]; auto.
    + split; [exact Hdom1 |]. intros c' r p Hr Hp.
      destruct (Hown1 c' r p Hr Hp) as [Hpend | [[_ []] | Hcat]]; auto.
Qed.

(** X19.  [_ensure_cross_category_diversity] does what its name says on
    any four buckets: afterwards no player is left in two different
    buckets, and nothing was added; it raises only when an entry lacks a key
    that the engine indexes. *)
Theorem ensure_cross_category_diversity_unique (recs : buckets) :
  match _ensure_cross_category_diversity recs with
  | Ok recs' =>
      (forall c1 c2 r1 r2 p,
         In r1 (recs' c1) -> In r2 (recs' c2) ->
         player r1 = Some p -> player r2 = Some p -> c1 = c2) /\
      (forall c r, In r (recs' c) -> In r (recs c))
  | Raise _ => ~ (forall c r, In r (recs c) -> complete r)
  end.
Proof.
  destruct (_ensure_cross_category_diversity recs) as [recs' | e] eqn:E.
  - split; [| now apply ensure_diversity_spec].
    unfold _ensure_cross_category_diversity in E.
    destruct (foldM _ all_categories _) as [d |] eqn:Ed; cbn [bind] in E;
      [| discriminate].
    injection E as <-.
    apply diversity_loop_owned in Ed as [_ Hown].
    + intros c1 c2 r1 r2 p H1 H2 Hp1 Hp2.
      destruct (Hown c1 r1 p H1 Hp1) as [[] | Hc1].
      destruct (Hown c2 r2 p H2 Hp2) as [[] | Hc2]. congruence.
    + split; cbn.
      * intros p [x Hx]. now rewrite lookup_empty in Hx.
      * intros c' r p _ _. left. destruct c'; cbn; auto.
  - intros Hc. destruct (ensure_diversity_total recs Hc) as [b Eb]. congruence.
Qed.

(** *** Scores *)

Lemma read_counter_fst (d : gmap string nat) k :
  fst (read_counter d k) = default 0%nat (d !! k).
Proof. unfold read_counter. now destruct (d !! k). Qed.

(** X20.  The score adjustment never exceeds +0.23, so the +0.3 cap of
    [apply_correlation_adjustments] is never reached; and when none of the
    three penalties applies, the adjustment is not negative and the adjusted
    confidence is at least the clamped, rounded original confidence. *)
Theorem apply_correlation_adjustments_bonus
    (st : selection) (recommendation : thesis) (game : game_ctx) :
  match apply_correlation_adjustments st recommendation game with
  | Ok (_, enhanced) =>
      exists a adj c m,
        score_adjustment enhanced = Some a /\
        adjusted_confidence enhanced = Some adj /\
        confidence recommendation = Some c /\
        market recommendation = Some m /\
        a <= 23 # 100 /\
        ((default 0 (used_teams st !! default "" (player_team recommendation)) <= 2)%nat ->
         (default 0 (used_markets st !! m) <= 2)%nat ->
         (qabs (default 0 (spread game)) <= 10 \/
          player_role recommendation <> Some "starter") ->
         0 <= a /\ py_round (clamp c 0 1) 3 <= adj)
  | Raise _ => market recommendation = None \/ confidence recommendation = None
  end.
Proof.
  unfold apply_correlation_adjustments.
  destruct (market recommendation) as [m |]; cbn [bind index]; [| now left].
  pose proof (read_counter_fst (used_teams st)
                (default "" (player_team recommendation))) as Ht.
  pose proof (read_counter_fst (used_markets st) m) as Hm.
  destruct (read_counter (used_teams st) _) as [team_count teams].
  destruct (read_counter (used_markets st) m) as [market_count markets].
  cbn [fst] in Ht, Hm.
  destruct (confidence recommendation) as [c |]; cbn [bind index]; [| now right].
  cbn [score_adjustment adjusted_confidence with_adjustment].
  set (spread_ := qabs (default 0 (spread game))).
  set (is_starter := match player_role recommendation with
                     | Some role => String.eqb role "starter"
                     | None => false
                     end).
  set (raw := raw_adjustment team_count market_count (size teams) (size markets)
                spread_ is_starter (String.eqb m "PTS")).
  eexists _, _, c, m. split; [reflexivity |]. split; [reflexivity |].
  split; [reflexivity |]. split; [reflexivity |].
  pose proof (raw_adjustment_round team_count market_count (size teams)
                (size markets) spread_ is_starter (String.eqb m "PTS")) as Hround.
  fold raw in Hround.
  assert (Hraw : raw <= 23 # 100).
  { unfold raw, raw_adjustment.
    destruct (2 <? team_count)%nat, (2 <? market_count)%nat,
             (qltb 10 spread_ && is_starter), (3 <=? size teams)%nat,
             (3 <=? size markets)%nat, (qleb spread_ 5 && String.eqb m "PTS"); lra. }
  assert (Hclamp : clamp_adjustment raw <= 23 # 100).
  { unfold clamp_adjustment. apply qmax_lub; [| lra].
    apply Qle_trans with raw; [apply qmin_l | exact Hraw]. }
  split; [rewrite Hround; exact Hclamp |].
  intros Hteams Hmarkets Hstarter.
  rewrite <- Ht in Hteams. rewrite <- Hm in Hmarkets.
  assert (Hpen : (2 <? team_count)%nat = false /\ (2 <? market_count)%nat = false /\
                 qltb 10 spread_ && is_starter = false).
  { split; [apply Nat.ltb_ge; lia |]. split; [apply Nat.ltb_ge; lia |].
    destruct Hstarter as [Hs | Hs].
    - fold spread_ in Hs. apply qltb_false in Hs. now rewrite Hs.
    - apply andb_false_iff. right. unfold is_starter.
      destruct (player_role recommendation) as [role_ |]; [| reflexivity].
      apply String.eqb_neq. intros ->. now apply Hs. }
  destruct Hpen as (P1 & P2 & P3).
  assert (Hnonneg : 0 <= raw).
  { unfold raw, raw_adjustment. rewrite P1, P2, P3.
    destruct (3 <=? size teams)%nat, (3 <=? size markets)%nat,
             (qleb spread_ 5 && String.eqb m "PTS"); lra. }
  assert (Hid : clamp_adjustment raw == raw).
  { unfold clamp_adjustment, qmax, qmin.
    destruct (Qlt_le_dec (3 # 10) raw); [lra |].
    destruct (Qlt_le_dec raw (- (3 # 10))); lra. }
  split; [rewrite Hround, Hid; exact Hnonneg |].
  apply py_round_mono.
  change (clamp c 0 1 <= clamp (c * (1 + clamp_adjustment raw)) 0 1).
  rewrite (clamp_proper (c * (1 + clamp_adjustment raw)) (c * (1 + raw)))
    by (now rewrite Hid).
  destruct (Qlt_le_dec c 0) as [Hneg | Hpos].
  - assert (E0 : clamp c 0 1 == 0).
    { unfold clamp, qmin, qmax. destruct (Qlt_le_dec c 0); [| lra].
      destruct (Qlt_le_dec 1 0); lra. }
    rewrite E0. apply clamp_bounds. lra.
  - apply clamp_mono.
    unfold raw, raw_adjustment. rewrite P1, P2, P3.
    destruct (3 <=? size teams)%nat, (3 <=? size markets)%nat,
             (qleb spread_ 5 && String.eqb m "PTS"); lra.
Qed.

(** *** The selection *)

Definition priority_boost_of (config : category_config) (ty : string) : Q :=
  if Str.mem ty (priority_theses config) then 12 # 10 else 1.

(** What the filter loop has checked of a candidate it keeps with the
    boost [b]. *)
Definition eligible (config : category_config) (t : thesis) (b : Q) : Prop :=
  exists conf ty,
    confidence t = Some conf /\ min_confidence config <= conf /\
    thesis_type t = Some ty /\ b = priority_boost_of config ty /\
    (allowed_markets config <> [] ->
     exists m, market t = Some m /\ In m (allowed_markets config)).

Lemma filter_one_eligible st config acc t acc' :
  filter_one st config acc t = Ok acc' ->
  acc' = acc \/
  exists b, acc' = ((fst acc ++ [(t, b)])%list, Some b) /\ eligible config t b.
Proof.
  unfold filter_one, eligible. intros H.
  destruct (player t) as [p |]; cbn [bind index] in H; [| discriminate].
  destruct (bool_decide (p ∈ used_players st));
    [left; injection H as <-; reflexivity |].
  destruct (confidence t) as [c |]; cbn [bind index] in H; [| discriminate].
  destruct (qltb c (min_confidence config)) eqn:Hc;
    [left; injection H as <-; reflexivity |].
  apply qltb_false in Hc.
  destruct (allowed (allowed_roles config) _); cbn [negb] in H;
    [| left; congruence].
  destruct (allowed_markets config) as [| m0 ms] eqn:Em.
  - destruct (thesis_type t) as [ty |]; cbn [bind index] in H; [| discriminate].
    right. eexists. split; [symmetry; injection H as <-; reflexivity |].
    exists c, ty. repeat split; auto. intros Hne. now contradiction Hne.
  - destruct (market t) as [m |]; cbn [bind index] in H; [| discriminate].
    destruct (Str.mem m (m0 :: ms)) eqn:Hm; cbn [negb] in H; [| left; congruence].
    apply Str.mem_In in Hm.
    destruct (thesis_type t) as [ty |]; cbn [bind index] in H; [| discriminate].
    right. eexists. split; [symmetry; injection H as <-; reflexivity |].
    exists c, ty. repeat split; auto. intros _. eauto.
Qed.

(** The boost that reaches the selection loop is the one computed for the
    last candidate kept. *)
Definition filtered_eligible (config : category_config)
    (acc : list (thesis * Q) * option Q) : Prop :=
  (forall x, In x (fst acc) -> eligible config (fst x) (snd x)) /\
  snd acc = last (map snd (fst acc)).

Lemma filter_loop_eligible st config candidates acc :
  foldM (filter_one st config) candidates ([], None) = Ok acc ->
  filtered_eligible config acc.
Proof.
  apply (foldM_invariant (filter_one st config) (filtered_eligible config)).
  - intros s a s' Ha [Hs1 Hs2] Hstep.
    apply filter_one_eligible in Hstep as [-> | (b & -> & Hel)];
      [split; assumption |].
    split; cbn [fst snd].
    + intros x Hx. apply in_app_or in Hx as [Hx | [<- | []]]; [now apply Hs1 |].
      exact Hel.
    + rewrite map_app. cbn [map snd]. now rewrite last_snoc.
  - split; [intros x [] | reflexivity].
Qed.

Lemma select_loop_scores c pb :
  forall l st0 sel0 st1 sel1,
  foldM (select_one c pb) l (st0, sel0) = Ok (st1, sel1) ->
  forall r, In r sel1 ->
    In r sel0 \/
    exists t conf, In t l /\ same_keys t r /\ confidence t = Some conf /\
      strategy_category r = Some (category_key c) /\
      selection_score r = Some (conf * pb).
Proof.
  induction l as [| t l IH]; intros st0 sel0 st1 sel1 H; cbn [foldM] in H.
  - injection H as <- <-. auto.
  - unfold select_one at 1 in H. cbn [fst snd] in H.
    destruct (player t) as [p |]; cbn [bind index] in H; [| discriminate].
    destruct (market t) as [m |]; cbn [bind index] in H; [| discriminate].
    destruct (confidence t) as [cf |] eqn:Hcf; cbn [bind index] in H;
      [| discriminate].
    intros r Hr. destruct (IH _ _ _ _ H r Hr) as [Hr0 | (t' & conf & Ht' & Hrest)].
    + apply in_app_or in Hr0 as [Hr0 | [<- | []]]; [now left |].
      right. exists t, cf. split; [now left |]. split; [now repeat split |].
      split; [exact Hcf |]. split; reflexivity.
    + right. exists t', conf. split; [now right | exact Hrest].
Qed.

Lemma last_In {A : Type} (l : list A) (x : A) : last l = Some x -> In x l.
Proof.
  intros H. apply last_Some in H as [l' ->]. apply in_or_app. right. now left.
Qed.

(** The four tests of the filter loop, for a candidate that has the keys
    they read: the player is not used yet, the confidence is not below the
    minimum, the role and the market are allowed (an empty list allows
    everything). *)
Definition passes_filter (st : selection) (config : category_config) (t : thesis)
  : bool :=
  match player t, confidence t with
  | Some p, Some conf =>
      negb (bool_decide (p ∈ used_players st)) &&
      negb (qltb conf (min_confidence config)) &&
      allowed (allowed_roles config) (default "" (player_role t)) &&
      match allowed_markets config, market t with
      | [], _ => true
      | markets, Some m => Str.mem m markets
      | _, None => false
      end
  | _, _ => false
  end.

Lemma filter_one_passes st config acc t acc' :
  filter_one st config acc t = Ok acc' ->
  (passes_filter st config t = false /\ acc' = acc) \/
  (passes_filter st config t = true /\
   exists b, acc' = ((fst acc ++ [(t, b)])%list, Some b)).
Proof.
  unfold filter_one, passes_filter. intros H.
  destruct (player t) as [p |]; cbn [bind index] in H; [| discriminate].
  destruct (bool_decide (p ∈ used_players st)).
  { left. injection H as <-. split; [| reflexivity].
    destruct (confidence t); reflexivity. }
  destruct (confidence t) as [cf |]; cbn [bind index] in H; [| discriminate].
  destruct (qltb cf (min_confidence config));
    [left; injection H as <-; split; reflexivity |].
  destruct (allowed (allowed_roles config) _); cbn [negb andb] in H |- *;
    [| left; injection H as <-; split; reflexivity].
  destruct (allowed_markets config) as [| m0 ms].
  - destruct (thesis_type t) as [ty |]; cbn [bind index] in H; [| discriminate].
    right. split; [reflexivity |]. eexists. injection H as <-. reflexivity.
  - destruct (market t) as [m |]; cbn [bind index] in H; [| discriminate].
    destruct (Str.mem m (m0 :: ms)); cbn [negb] in H;
      [| left; injection H as <-; split; reflexivity].
    destruct (thesis_type t) as [ty |]; cbn [bind index] in H; [| discriminate].
    right. split; [reflexivity |]. eexists. injection H as <-. reflexivity.
Qed.

(** The candidates kept by the filter loop are those that pass the four
    tests, in the order of the candidates. *)
Lemma filter_loop_passes st config :
  forall candidates acc0 acc,
  foldM (filter_one st config) candidates acc0 = Ok acc ->
  map fst (fst acc)
  = (map fst (fst acc0) ++ List.filter (passes_filter st config) candidates)%list.
Proof.
  induction candidates as [| t l IH]; intros acc0 acc H; cbn [foldM] in H.
  - injection H as <-. cbn. now rewrite app_nil_r.
  - destruct (filter_one st config acc0 t) as [acc1 |] eqn:E1;
      cbn [bind] in H; [| discriminate].
    rewrite (IH _ _ H). cbn [List.filter].
    apply filter_one_passes in E1 as [[Hp ->] | [Hp [b ->]]]; rewrite Hp.
    + reflexivity.
    + cbn [fst]. rewrite map_app. cbn [map fst]. now rewrite <- app_assoc.
Qed.

(** X21.  The picks of [select_for_category] have a confidence not below
    the bucket's minimum and a market that the bucket allows, and carry the
    bucket's name; their [selection_score] is the confidence times one and
    the same priority boost for all of them - the boost of the last
    candidate that passed the filter, not their own.  Without picks the
    selection state is unchanged. *)
Theorem select_for_category_scores (st : selection) (candidates : list thesis)
    (c : category_name) (game : game_ctx) (n : nat) :
  match select_for_category st candidates c game n with
  | Ok (st', []) => st' = st
  | Ok (st', selected) =>
      exists last_kept ty,
        last (List.filter (passes_filter st (category_configs c)) candidates)
          = Some last_kept /\
        thesis_type last_kept = Some ty /\
        forall r, In r selected ->
          exists conf m,
            confidence r = Some conf /\ market r = Some m /\
            ~ conf < min_confidence (category_configs c) /\
            In m (allowed_markets (category_configs c)) /\
            strategy_category r = Some (category_key c) /\
            selection_score r
              = Some (conf * priority_boost_of (category_configs c) ty)
  | Raise _ => ~ Forall complete candidates
  end.
Proof.
  destruct (select_for_category st candidates c game n) as [[st' sel] | e] eqn:E.
  2: { intros Hc. destruct (select_for_category_total st candidates c game n Hc)
         as [res E']. congruence. }
  unfold select_for_category in E.
  destruct (foldM (filter_one st _) candidates _) as [[pairs last_boost] |] eqn:Ef;
    cbn [bind fst snd] in E; [| discriminate].
  pose proof (filter_loop_passes _ _ _ _ _ Ef) as Hpass.
  apply filter_loop_eligible in Ef as [Hel Hlast].
  cbn [fst snd map app] in Hel, Hlast, Hpass.
  destruct pairs as [| x pairs]; [now injection E as <- <- |].
  destruct last_boost as [pb |]; [| now injection E as <- <-].
  destruct (last (x :: pairs)) as [[t_last b_last] |] eqn:Hl;
    [| apply last_None in Hl; discriminate Hl].
  pose proof (last_In _ _ Hl) as Hin_last.
  apply last_Some in Hl as [front Hfront].
  rewrite Hfront, map_app in Hlast. cbn [map snd] in Hlast.
  rewrite last_snoc in Hlast. injection Hlast as ->.
  rewrite Hfront, map_app in Hpass. cbn [map fst] in Hpass.
  destruct (Hel _ Hin_last) as (conf_l & ty_l & _ & _ & Hty_l & Hpb & _).
  cbn [fst snd] in Hty_l, Hpb.
  pose proof (select_loop_spec _ _ _ _ _ _ _ E) as (_ & Hlen & _).
  pose proof (select_loop_scores _ _ _ _ _ _ _ E) as Hsel.
  destruct sel as [| r0 sel].
  { cbn [length] in Hlen.
    destruct (map fst (take n (sorted_desc _ (x :: pairs)))) as [| y l] eqn:El;
      [| cbn in Hlen; lia].
    cbn [foldM] in E. now injection E as <-. }
  exists t_last, ty_l.
  split; [rewrite <- Hpass; apply last_snoc |]. split; [exact Hty_l |].
  intros r Hr. destruct (Hsel r Hr) as [[] | (t & conf & Ht & Hk & Hconf & Hcat & Hscore)].
  apply in_map_iff in Ht as (y & <- & Hy).
  apply SortFacts.In_take in Hy. unfold sorted_desc in Hy. apply sort_by_In in Hy.
  destruct (Hel y Hy) as (conf' & ty & Hconf' & Hmin & _ & _ & Hmk).
  destruct Hmk as (m & Hm & Hin); [destruct c; discriminate |].
  destruct Hk as (_ & Kc & Km & _).
  exists conf, m. split; [congruence |]. split; [congruence |].
  split; [assert (conf' = conf) by congruence; subst; lra |].
  split; [exact Hin |]. split; [exact Hcat |]. now rewrite <- Hpb.
Qed.

(** The boost leaks from the filter loop: A's own type is a priority of
    the bucket, but B was filtered last. *)
Example selection_score_example :
  match select_for_category reset_selection
          [with_category (example_thesis "A" "ScorerLine" "PTS" "starter" (8 # 10))
             "conservadora" "MIA" "starter";
           with_category (example_thesis "B" "AssistMatchup" "PTS" "starter" (7 # 10))
             "conservadora" "MIA" "starter"]
          conservadora example_game 4 with
  | Ok (_, [a; b]) =>
      player a = Some "A" /\ player b = Some "B" /\
      match selection_score a, selection_score b with
      | Some sa, Some sb => sa == 8 # 10 /\ sb == 7 # 10
      | _, _ => False
      end
  | _ => False
  end.
Proof. vm_compute. repeat split. Qed.

(** *** [generate_multipla_dia] *)

(** [r['identified_strategy'] = strategy_name]; the key [multipla_type],
    which only repeats the name of the ticket, is left out. *)
Definition with_identified_strategy (t : thesis) (strategy_name : string) : thesis :=
  {| player := player t; th_player_id := th_player_id t; market := market t;
     confidence := confidence t; evidences := evidences t; weights := weights t;
     thesis_type := thesis_type t; suggested_line := suggested_line t;
     is_risk := is_risk t; player_ctx := player_ctx t;
     player_position := player_position t;
     th_team := th_team t; strategy := strategy t;
     category := category t; player_team := player_team t;
     player_role := player_role t;
     strategy_category := strategy_category t; selection_score := selection_score t;
     adjusted_confidence := adjusted_confidence t;
     score_adjustment := score_adjustment t; adjustments := adjustments t;
     identified_strategy := Some strategy_name;
     strategy_description := strategy_description t |}.

(** The loop over the [ousada] candidates, with its [break]. *)
Fixpoint ousada_loop (game : game_ctx) (candidates : list thesis) (st : selection)
    (ousada_multipla : list thesis) : result (selection * list thesis) :=
  match candidates with
  | [] => Ok (st, ousada_multipla)
  | thesis :: rest =>
      if (4 <=? length ousada_multipla)%nat then Ok (st, ousada_multipla)
      else
        p <- index "player" (player thesis) ;;
        if bool_decide (p ∈ used_players st) then
          ousada_loop game rest st ousada_multipla
        else
          let st1 := {| used_players := {[p]} ∪ used_players st;
                        used_teams := used_teams st;
                        used_markets := used_markets st |} in
          res <- apply_correlation_adjustments st1 thesis game ;;
          ousada_loop game rest (fst res) (ousada_multipla ++ [snd res])%list
  end.

Definition tag_strategy (game : game_ctx) (multipla : list thesis)
  : result (list thesis) :=
  match multipla with
  | [] => Ok []
  | _ =>
      strategy_name <- identify_strategy multipla game ;;
      Ok (map (fun r => with_identified_strategy r strategy_name) multipla)
  end.

Record multipla_dia : Type := {
  md_conservadora : list thesis;
  md_ousada : list thesis
}.

Definition generate_multipla_dia (all_theses : list (string * list thesis))
    (game : game_ctx) : result multipla_dia :=
  let st := reset_selection in
  let categorized := categorize_theses all_theses game in
  sel <- select_for_category st (categorized conservadora) conservadora game 6 ;;
  adj <- adjust_all game (fst sel) (snd sel) ;;
  let conservadora_multipla :=
    if (6 <? length (snd adj))%nat then take 6 (snd adj) else snd adj in
  ous <- ousada_loop game (categorized ousada) (fst adj) [] ;;
  conservadora_multipla <- tag_strategy game conservadora_multipla ;;
  ousada_multipla <- tag_strategy game (snd ous) ;;
  Ok {| md_conservadora := conservadora_multipla; md_ousada := ousada_multipla |}.

Lemma NoDup_snoc {A : Type} (l : list A) (x : A) :
  List.NoDup l -> ~ In x l -> List.NoDup (l ++ [x]).
Proof.
  induction l as [| y l IH]; cbn; intros Hnd Hx.
  - constructor; [intros [] | constructor].
  - inversion Hnd as [| ? ? Hy Hl]; subst. constructor.
    + intros Hin. apply in_app_or in Hin as [Hin | [<- | []]]; [contradiction |].
      apply Hx. now left.
    + apply IH; [exact Hl |]. intros Hin. apply Hx. now right.
Qed.

(** The state of the [ousada] loop: at most four legs, of different
    players, all of them marked as used. *)
Definition ousada_ok (st : selection) (legs : list thesis) : Prop :=
  (length legs <= 4)%nat /\
  List.NoDup (map player legs) /\
  forall r, In r legs -> exists p, player r = Some p /\ p ∈ used_players st.

Lemma ousada_loop_spec game :
  forall candidates st legs st' legs',
  ousada_loop game candidates st legs = Ok (st', legs') ->
  ousada_ok st legs ->
  ousada_ok st' legs' /\
  used_players st ⊆ used_players st' /\
  forall r, In r legs' ->
    In r legs \/
    exists x p, In x candidates /\ same_player x r /\ player r = Some p /\
                p ∉ used_players st.
Proof.
  induction candidates as [| t rest IH]; intros st legs st' legs' H Hok;
    cbn [ousada_loop] in H.
  - injection H as <- <-. split; [exact Hok |]. split; [reflexivity | auto].
  - destruct (4 <=? length legs)%nat eqn:Hfull.
    { injection H as <- <-. split; [exact Hok |]. split; [reflexivity | auto]. }
    apply Nat.leb_gt in Hfull.
    destruct (player t) as [p |] eqn:Hp; cbn [bind index] in H; [| discriminate].
    destruct (bool_decide (p ∈ used_players st)) eqn:Hused.
    + apply IH in H as (Hok' & Hsub & Hin); [| exact Hok].
      split; [exact Hok' |]. split; [exact Hsub |].
      intros r Hr. destruct (Hin r Hr) as [? | (x & q & Hx & Hrest)]; [now left |].
      right. exists x, q. split; [now right | exact Hrest].
    + apply bool_decide_eq_false in Hused.
      destruct (apply_correlation_adjustments _ t game) as [[st1 r1] |] eqn:Ea;
        cbn [bind fst snd] in H; [| discriminate].
      apply apply_correlation_adjustments_spec in Ea as [Eu Hsame].
      cbn [used_players] in Eu.
      assert (Hp1 : player r1 = Some p).
      { destruct Hsame as [(Kp & _) _]. congruence. }
      destruct Hok as (Hlen & Hnd & Hmarked).
      apply IH in H as (Hok' & Hsub & Hin).
      * split; [exact Hok' |]. split.
        -- intros q Hq. apply Hsub. rewrite Eu. apply elem_of_union. now right.
        -- intros r Hr. destruct (Hin r Hr) as [Hr0 | (x & q & Hx & Hs & Hq & Hfresh)].
           ++ apply in_app_or in Hr0 as [Hr0 | [<- | []]]; [now left |].
              right. exists t, p. split; [now left |]. auto.
           ++ right. exists x, q. split; [now right |]. split; [exact Hs |].
              split; [exact Hq |]. intros Hq'. apply Hfresh. rewrite Eu.
              apply elem_of_union. now right.
      * split; [rewrite length_app; cbn; lia |]. split.
        -- rewrite map_app. cbn [map]. apply NoDup_snoc; [exact Hnd |].
           intros Ho. apply in_map_iff in Ho as (r & Hr & Hin_r).
           destruct (Hmarked r Hin_r) as (q & Hq & Hq').
           rewrite Hp1 in Hr. assert (q = p) by congruence. subst q.
           contradiction.
        -- intros r Hr. apply in_app_or in Hr as [Hr | [<- | []]].
           ++ destruct (Hmarked r Hr) as (q & Hq & Hq'). exists q.
              split; [exact Hq |]. rewrite Eu. apply elem_of_union. now right.
           ++ exists p. split; [exact Hp1 |]. rewrite Eu. apply elem_of_union.
              left. now apply elem_of_singleton.
Qed.

Lemma ousada_loop_total game :
  forall candidates st legs, Forall complete candidates ->
  exists res, ousada_loop game candidates st legs = Ok res.
Proof.
  induction candidates as [| t rest IH]; intros st legs Hc; cbn [ousada_loop];
    [eauto |].
  apply Forall_cons in Hc as [Ht Hc].
  destruct (4 <=? length legs)%nat; [eauto |].
  destruct Ht as ([p Hp] & Hrest). rewrite Hp. cbn [bind index].
  destruct (bool_decide (p ∈ used_players st)); [now apply IH |].
  destruct (apply_correlation_adjustments_total
              {| used_players := {[p]} ∪ used_players st;
                 used_teams := used_teams st; used_markets := used_markets st |}
              t game) as [res E].
  { split; [eauto | exact Hrest]. }
  rewrite E. cbn [bind]. now apply IH.
Qed.

Lemma tag_strategy_spec game multipla tagged :
  tag_strategy game multipla = Ok tagged ->
  exists strategy_name,
    tagged = map (fun r => with_identified_strategy r strategy_name) multipla.
Proof.
  unfold tag_strategy. destruct multipla as [| r l].
  - intros [= <-]. now exists "".
  - destruct (identify_strategy (r :: l) game) as [s |]; cbn [bind]; [| discriminate].
    intros [= <-]. now exists s.
Qed.

Lemma tag_strategy_total game multipla :
  Forall complete multipla -> exists tagged, tag_strategy game multipla = Ok tagged.
Proof.
  intros Hc. unfold tag_strategy. destruct multipla as [| r l]; [eauto |].
  destruct (identify_strategy_total (r :: l) game Hc) as [s ->]. cbn [bind]. eauto.
Qed.

Lemma In_tagged strategy_name multipla r :
  In r (map (fun r => with_identified_strategy r strategy_name) multipla) ->
  exists r0, In r0 multipla /\ same_player r0 r.
Proof.
  intros H. apply in_map_iff in H as (r0 & <- & Hr0).
  exists r0. split; [exact Hr0 | now repeat split].
Qed.

Lemma same_player_trans a b c : same_player a b -> same_player b c -> same_player a c.
Proof.
  intros [Hab Rab] [Hbc Rbc]. split; [now apply (same_keys_trans a b c) | congruence].
Qed.

(** X22.  The two tickets of [generate_multipla_dia]: at most six and at
    most four legs; the legs of the [ousada] ticket belong to different
    players, none of whom is in the [conservadora] ticket; and every leg is
    the copy of a candidate of its own pool - the [ousada] legs in the order
    of the pool, without the confidence, role and market filters of
    [select_for_category]. *)
Theorem generate_multipla_dia_tickets
    (all_theses : list (string * list thesis)) (game : game_ctx) :
  match generate_multipla_dia all_theses game with
  | Ok m =>
      (length (md_conservadora m) <= 6)%nat /\
      (length (md_ousada m) <= 4)%nat /\
      List.NoDup (map player (md_ousada m)) /\
      (forall r1 r2, In r1 (md_conservadora m) -> In r2 (md_ousada m) ->
         is_Some (player r1) /\ player r1 <> player r2) /\
      (forall r, In r (md_conservadora m) ->
         exists x, In x (categorize_theses all_theses game conservadora) /\
                   same_keys x r) /\
      (forall r, In r (md_ousada m) ->
         exists x, In x (categorize_theses all_theses game ousada) /\
                   same_keys x r)
  | Raise _ => ~ Forall complete (input_theses all_theses)
  end.
Proof.
  unfold generate_multipla_dia.
  set (categorized := categorize_theses all_theses game).
  destruct (select_for_category reset_selection (categorized conservadora)
              conservadora game 6) as [[st1 sel] | e] eqn:Es; cbn [bind fst snd].
  2: { intros Hc.
       destruct (select_for_category_total reset_selection (categorized conservadora)
                   conservadora game 6) as [res E'];
         [now apply categorize_theses_complete | congruence]. }
  apply select_for_category_spec in Es as (_ & Hlen_sel & Hsel).
  destruct (adjust_all game st1 sel) as [[st2 adj] | e] eqn:Ea; cbn [bind fst snd].
  2: { intros _. destruct (adjust_all_total game sel st1) as [res E'].
       - rewrite Forall_forall. intros r Hr. apply list_elem_of_In in Hr.
         destruct (Hsel r Hr) as (_ & _ & _ & _ & _ & _ & _ & _ & Hc & _). exact Hc.
       - congruence. }
  apply adjust_all_spec in Ea as (Hu2 & Hlen_adj & Hadj).
  set (cons := if (6 <? length adj)%nat then take 6 adj else adj).
  assert (Hcons_eq : cons = adj).
  { unfold cons. destruct (6 <? length adj)%nat eqn:E6; [| reflexivity].
    apply Nat.ltb_lt in E6. lia. }
  rewrite Hcons_eq. clear cons Hcons_eq.
  assert (Hadj_full : forall r, In r adj ->
            exists x p, In x (categorized conservadora) /\ same_keys x r /\
              player r = Some p /\ p ∈ used_players st2 /\ complete r).
  { intros r Hr. destruct (Hadj r Hr) as (r0 & Hr0 & (Hk & _)).
    destruct (Hsel r0 Hr0) as (x & p & Hx & Hkx & _ & Hp & _ & Hused & Hc & _).
    exists x, p. split; [exact Hx |]. split; [now apply (same_keys_trans x r0 r) |].
    split; [destruct Hk as [-> _]; exact Hp |]. split; [now rewrite Hu2 |].
    now apply (same_keys_complete r0 r). }
  destruct (ousada_loop game (categorized ousada) st2 []) as [[st3 ous] | e] eqn:Eo;
    cbn [bind fst snd].
  2: { intros Hc. destruct (ousada_loop_total game (categorized ousada) st2 [])
         as [res E']; [now apply categorize_theses_complete | congruence]. }
  apply ousada_loop_spec in Eo as ((Hlen_o & Hnd_o & _) & _ & Hous).
  2: { split; [cbn; lia |]. split; [constructor | intros r []]. }
  destruct (tag_strategy game adj) as [cons' |] eqn:Etc; cbn [bind].
  2: { intros _. destruct (tag_strategy_total game adj) as [res E'].
       - rewrite Forall_forall. intros r Hr. apply list_elem_of_In in Hr.
         destruct (Hadj_full r Hr) as (_ & _ & _ & _ & _ & _ & Hc). exact Hc.
       - congruence. }
  destruct (tag_strategy game ous) as [ous' |] eqn:Eto; cbn [bind].
  2: { intros Hc. destruct (tag_strategy_total game ous) as [res E'].
       - rewrite Forall_forall. intros r Hr. apply list_elem_of_In in Hr.
         destruct (Hous r Hr) as [[] | (x & p & Hx & (Hk & _) & _)].
         apply (same_keys_complete x r Hk).
         pose proof (categorize_theses_complete all_theses game Hc ousada) as Hco.
         rewrite Forall_forall in Hco. apply Hco. now apply list_elem_of_In.
       - congruence. }
  apply tag_strategy_spec in Etc as [s1 ->]. apply tag_strategy_spec in Eto as [s2 ->].
  cbn [md_conservadora md_ousada].
  split; [rewrite length_map; lia |]. split; [now rewrite length_map |].
  split; [rewrite map_map; exact Hnd_o |].
  split; [| split].
  - intros r1 r2 H1 H2.
    apply In_tagged in H1 as (a & Ha & (Ka & _)).
    apply In_tagged in H2 as (b & Hb & (Kb & _)).
    destruct (Hadj_full a Ha) as (_ & p & _ & _ & Hp & Hused & _).
    destruct (Hous b Hb) as [[] | (_ & q & _ & _ & Hq & Hfresh)].
    destruct Ka as [Ka _]. destruct Kb as [Kb _]. rewrite Ka, Kb, Hp, Hq.
    split; [eauto |]. intros [= ->]. contradiction.
  - intros r Hr. apply In_tagged in Hr as (a & Ha & (Ka & _)).
    destruct (Hadj_full a Ha) as (x & _ & Hx & Hk & _).
    exists x. split; [exact Hx | now apply (same_keys_trans x a r)].
  - intros r Hr. apply In_tagged in Hr as (b & Hb & (Kb & _)).
    destruct (Hous b Hb) as [[] | (x & _ & Hx & (Hk & _) & _)].
    exists x. split; [exact Hx | now apply (same_keys_trans x b r)].
Qed.

End StrategyEngineFacts.

(** ** Sublists *)

Module ListFacts.

Section Sublist.

Context {A B : Type}.

Lemma sublist_In (l1 l2 : list A) (x : A) : sublist l1 l2 -> In x l1 -> In x l2.
Proof.
  intros Hs Hx. apply list_elem_of_In. eapply elem_of_sublist; [| exact Hs].
  now apply list_elem_of_In.
Qed.

Lemma filter_sublist (f : A -> bool) (l : list A) : sublist (List.filter f l) l.
Proof.
  induction l as [| x l IH]; cbn; [constructor |].
  destruct (f x); [now apply sublist_skip | now apply sublist_cons].
Qed.

Lemma sublist_filter_length (f : A -> bool) (l1 l2 : list A) :
  sublist l1 l2 -> (length (List.filter f l1) <= length (List.filter f l2))%nat.
Proof.
  induction 1 as [| x l1 l2 _ IH | x l1 l2 _ IH]; cbn; [lia | |].
  - destruct (f x); cbn; lia.
  - destruct (f x); cbn; lia.
Qed.

Lemma sublist_map_NoDup (f : A -> B) (l1 l2 : list A) :
  sublist l1 l2 -> List.NoDup (map f l2) -> List.NoDup (map f l1).
Proof.
  induction 1 as [| x l1 l2 Hs IH | x l1 l2 Hs IH]; cbn; intros Hnd.
  - constructor.
  - inversion Hnd as [| ? ? Hx Hl]; subst. constructor; [| now apply IH].
    intros Hin. apply Hx. apply in_map_iff in Hin as (y & Hy & Hin).
    apply in_map_iff. exists y. split; [exact Hy | now apply (sublist_In l1 l2)].
  - inversion Hnd; subst. now apply IH.
Qed.

Lemma sublist_ordered (le : A -> A -> Prop) (l1 l2 : list A) :
  sublist l1 l2 -> SortFacts.ordered le l2 -> SortFacts.ordered le l1.
Proof.
  induction 1 as [| x l1 l2 Hs IH | x l1 l2 Hs IH]; cbn; intros Ho.
  - exact I.
  - destruct Ho as [Hx Ho]. split; [| now apply IH].
    intros y Hy. apply Hx. now apply (sublist_In l1 l2).
  - destruct Ho as [_ Ho]. now apply IH.
Qed.

End Sublist.

End ListFacts.

(** ** modules/new_modules/daily_multiple.py, continued *)

Module DailyMultipleFacts.

Import Num NumFacts DailyMultiple.
Local Open Scope Q_scope.

(** The state of the loop of [_select_for_multiple]; the set
    [used_markets] is only written and is left out. *)
Record pick_state : Type := {
  selected : list leg;
  used_players : gset (option string);
  used_teams : gmap (option string) nat
}.

Fixpoint select_loop (max_legs max_per_team : nat) (candidates : list leg)
    (s : pick_state) : list leg :=
  match candidates with
  | [] => selected s
  | rec :: rest =>
      if (max_legs <=? length (selected s))%nat then selected s
      else
        let player_id := leg_player_id rec in
        let team := leg_team rec in
        if bool_decide (player_id ∈ used_players s) then
          select_loop max_legs max_per_team rest s
        else if (max_per_team <=? default 0%nat (used_teams s !! team))%nat then
          select_loop max_legs max_per_team rest s
        else
          select_loop max_legs max_per_team rest
            {| selected := (selected s ++ [rec])%list;
               used_players := {[player_id]} ∪ used_players s;
               used_teams :=
                 <[team := S (default 0%nat (used_teams s !! team))]> (used_teams s) |}
  end.

Definition _select_for_multiple (candidates : list leg) (max_legs max_per_team : nat)
  : list leg :=
  select_loop max_legs max_per_team candidates
    {| selected := []; used_players := ∅; used_teams := ∅ |}.

(** The number of legs of a team on a ticket. *)
Definition team_count (team : option string) (multiple : list leg) : nat :=
  length (List.filter (fun x => bool_decide (leg_team x = team)) multiple).

(** The two tables agree with the legs selected so far. *)
Definition tied (s : pick_state) : Prop :=
  (forall player_id,
     player_id ∈ used_players s <-> In player_id (map leg_player_id (selected s))) /\
  (forall team, default 0%nat (used_teams s !! team) = team_count team (selected s)).

Definition within (max_legs max_per_team : nat) (multiple : list leg) : Prop :=
  (length multiple <= max_legs)%nat /\
  List.NoDup (map leg_player_id multiple) /\
  forall team, (team_count team multiple <= max_per_team)%nat.

Lemma team_count_snoc team multiple rec :
  team_count team (multiple ++ [rec]) =
  (team_count team multiple + if bool_decide (leg_team rec = team) then 1 else 0)%nat.
Proof.
  unfold team_count. rewrite List.filter_app, length_app. cbn [List.filter].
  now destruct (bool_decide (leg_team rec = team)).
Qed.

Lemma tied_snoc s rec :
  tied s ->
  tied {| selected := (selected s ++ [rec])%list;
          used_players := {[leg_player_id rec]} ∪ used_players s;
          used_teams :=
            <[leg_team rec := S (default 0%nat (used_teams s !! leg_team rec))]>
              (used_teams s) |}.
Proof.
  intros [Hp Ht]. split; cbn [selected used_players used_teams].
  - intros player_id. rewrite map_app, in_app_iff, elem_of_union, elem_of_singleton.
    rewrite Hp. cbn. intuition.
  - intros team. rewrite team_count_snoc.
    destruct (decide (leg_team rec = team)) as [<- | Hne].
    + rewrite lookup_insert_eq, bool_decide_eq_true_2 by reflexivity.
      cbn. rewrite Ht. lia.
    + rewrite lookup_insert_ne, bool_decide_eq_false_2 by exact Hne.
      rewrite Ht. lia.
Qed.

Lemma select_loop_extends max_legs max_per_team :
  forall candidates s,
  exists extra,
    select_loop max_legs max_per_team candidates s = (selected s ++ extra)%list /\
    sublist extra candidates.
Proof.
  induction candidates as [| rec rest IH]; intros s; cbn [select_loop].
  - exists []. rewrite app_nil_r. split; [reflexivity | constructor].
  - destruct (max_legs <=? length (selected s))%nat.
    { exists []. rewrite app_nil_r. split; [reflexivity | apply sublist_nil_l]. }
    destruct (bool_decide _).
    { destruct (IH s) as (extra & -> & Hsub). exists extra.
      split; [reflexivity | now apply sublist_cons]. }
    destruct (max_per_team <=? _)%nat.
    { destruct (IH s) as (extra & -> & Hsub). exists extra.
      split; [reflexivity | now apply sublist_cons]. }
    match goal with
    | |- context [select_loop _ _ rest ?s1] => destruct (IH s1) as (extra & -> & Hsub)
    end.
    cbn [selected]. exists (rec :: extra). rewrite <- app_assoc.
    split; [reflexivity | now apply sublist_skip].
Qed.

Lemma select_loop_within max_legs max_per_team :
  forall candidates s,
  tied s -> within max_legs max_per_team (selected s) ->
  within max_legs max_per_team (select_loop max_legs max_per_team candidates s).
Proof.
  induction candidates as [| rec rest IH]; intros s Ht Hw; cbn [select_loop];
    [exact Hw |].
  destruct (max_legs <=? length (selected s))%nat eqn:Hfull; [exact Hw |].
  apply Nat.leb_gt in Hfull.
  destruct (bool_decide _) eqn:Hdup; [now apply IH |].
  apply bool_decide_eq_false in Hdup.
  destruct (max_per_team <=? _)%nat eqn:Hteam; [now apply IH |].
  apply Nat.leb_gt in Hteam.
  apply IH; [now apply tied_snoc |]. cbn [selected].
  destruct Hw as (Hlen & Hnd & Hcount). destruct Ht as [Hp Htc].
  split; [rewrite length_app; cbn; lia |]. split.
  - rewrite map_app. cbn [map]. apply StrategyEngineFacts.NoDup_snoc; [exact Hnd |].
    intros Hin. apply Hdup. now apply Hp.
  - intros team. rewrite team_count_snoc.
    destruct (bool_decide (leg_team rec = team)) eqn:E.
    + apply bool_decide_eq_true in E. subst team. rewrite Htc in Hteam. lia.
    + specialize (Hcount team). lia.
Qed.

Lemma team_count_app team l1 l2 :
  team_count team (l1 ++ l2)%list = (team_count team l1 + team_count team l2)%nat.
Proof. unfold team_count. now rewrite List.filter_app, length_app. Qed.

(** A candidate is passed over only for one of the two rules, unless
    the ticket is full. *)
Lemma select_loop_maximal max_legs max_per_team :
  forall candidates s,
  tied s ->
  (length (select_loop max_legs max_per_team candidates s) < max_legs)%nat ->
  forall x, In x candidates ->
    In (leg_player_id x)
       (map leg_player_id (select_loop max_legs max_per_team candidates s)) \/
    (max_per_team <=
       team_count (leg_team x) (select_loop max_legs max_per_team candidates s))%nat.
Proof.
  induction candidates as [| rec rest IH]; intros s Ht Hlen x Hx; [destruct Hx |].
  cbn [select_loop] in *.
  destruct (max_legs <=? length (selected s))%nat eqn:Hfull.
  { apply Nat.leb_le in Hfull. lia. }
  destruct (bool_decide _) eqn:Hdup.
  { destruct Hx as [<- | Hx]; [| now apply IH].
    apply bool_decide_eq_true in Hdup. left.
    destruct (select_loop_extends max_legs max_per_team rest s) as (extra & -> & _).
    rewrite map_app. apply in_or_app. left. now apply Ht. }
  destruct (max_per_team <=? _)%nat eqn:Hteam.
  { destruct Hx as [<- | Hx]; [| now apply IH].
    apply Nat.leb_le in Hteam. right.
    destruct (select_loop_extends max_legs max_per_team rest s) as (extra & -> & _).
    rewrite team_count_app. destruct Ht as [_ Htc]. rewrite <- Htc. lia. }
  destruct Hx as [<- | Hx]; [| apply IH; [now apply tied_snoc | exact Hlen | exact Hx]].
  left.
  match goal with
  | |- context [select_loop _ _ rest ?s1] =>
      destruct (select_loop_extends max_legs max_per_team rest s1) as (extra & -> & _)
  end.
  cbn [selected]. rewrite !map_app. apply in_or_app. left.
  apply in_or_app. right. now left.
Qed.

Lemma tied_initial : tied {| selected := []; used_players := ∅; used_teams := ∅ |}.
Proof.
  split; cbn.
  - intros player_id. rewrite elem_of_empty. tauto.
  - intros team. now rewrite lookup_empty.
Qed.

Lemma select_for_multiple_within candidates max_legs max_per_team :
  sublist (_select_for_multiple candidates max_legs max_per_team) candidates /\
  within max_legs max_per_team
    (_select_for_multiple candidates max_legs max_per_team).
Proof.
  unfold _select_for_multiple.
  set (s0 := {| selected := []; used_players := ∅; used_teams := ∅ |}).
  destruct (select_loop_extends max_legs max_per_team candidates s0)
    as (extra & Hex & Hsub).
  split; [rewrite Hex; exact Hsub |].
  apply select_loop_within; [apply tied_initial |].
  split; [cbn; lia |]. split; [constructor | intros team; cbn; lia].
Qed.

(** X23.  [_select_for_multiple] keeps the order of the candidates and
    returns at most [max_legs] legs, of different players and with at most
    [max_per_team] legs per team; while the ticket is not full, a candidate
    is passed over only because its player is already on the ticket or its
    team has reached the limit. *)
Theorem select_for_multiple_rules (candidates : list leg)
    (max_legs max_per_team : nat) :
  let multiple := _select_for_multiple candidates max_legs max_per_team in
  sublist multiple candidates /\
  (length multiple <= max_legs)%nat /\
  List.NoDup (map leg_player_id multiple) /\
  (forall team, (team_count team multiple <= max_per_team)%nat) /\
  ((length multiple < max_legs)%nat ->
   forall x, In x candidates ->
     In (leg_player_id x) (map leg_player_id multiple) \/
     (max_per_team <= team_count (leg_team x) multiple)%nat).
Proof.
  cbv zeta.
  destruct (select_for_multiple_within candidates max_legs max_per_team)
    as (Hsub & Hlen & Hnd & Hcount).
  split; [exact Hsub |]. split; [exact Hlen |].
  split; [exact Hnd |]. split; [exact Hcount |].
  unfold _select_for_multiple. apply select_loop_maximal, tied_initial.
Qed.

(** *** [_validate_multiple] *)

Lemma option_eqb_qeqb (a b : option Q) :
  option_eqb qeqb a b = true -> default 0 a == default 0 b.
Proof.
  destruct a, b; cbn; try discriminate; [| reflexivity].
  intros H. now apply qeqb_true.
Qed.

Lemma leg_eqb_score y x : leg_eqb y x = true -> score y == score x.
Proof.
  unfold leg_eqb, score. intros H.
  repeat match type of H with _ && _ = true => apply andb_prop in H as [H ?] end.
  now apply option_eqb_qeqb.
Qed.

Lemma remove_first_removes x l :
  In x l ->
  exists y, leg_eqb y x = true /\ l ≡ₚ y :: remove_first x l /\
            sublist (remove_first x l) l.
Proof.
  induction l as [| z l IH]; intros Hin; [destruct Hin |].
  cbn [remove_first]. destruct (leg_eqb z x) eqn:E.
  - exists z. split; [exact E |]. split; [reflexivity | now apply sublist_cons].
  - destruct Hin as [-> | Hin]; [rewrite leg_eqb_refl in E; discriminate |].
    destruct (IH Hin) as (y & Hy & Hperm & Hsub). exists y.
    split; [exact Hy |]. split; [| now apply sublist_skip].
    rewrite Hperm at 1. apply Permutation_swap.
Qed.

Lemma lowest_scored_min first rest x :
  In x (first :: rest) -> score (lowest_scored first rest) <= score x.
Proof.
  intros Hx. unfold lowest_scored, sorted_asc.
  pose proof (SortFacts.sort_by_ordered
                (fun y x => qltb (score y) (score x))
                (fun a b => score a <= score b)) as Hord.
  specialize (Hord (fun a b c Hab Hbc => Qle_trans _ _ _ Hab Hbc)).
  assert (Ht : forall y x, qltb (score y) (score x) = true -> score y <= score x).
  { intros y z H. apply qltb_true in H. lra. }
  assert (Hf : forall y x, qltb (score y) (score x) = false -> score x <= score y).
  { intros y z H. now apply qltb_false in H. }
  specialize (Hord Ht Hf (first :: rest)).
  apply (sort_by_In (fun y x => qltb (score y) (score x))) in Hx.
  destruct (sort_by _ (first :: rest)) as [| m l]; [destruct Hx |].
  cbn [hd]. destruct Hord as [Hm _].
  destruct Hx as [<- | Hx]; [lra | now apply Hm].
Qed.

Section ValidationFacts.

Variable validate_pair : leg -> leg -> option violation.

Lemma _validate_multiple_cases (multiple : list leg) :
  (critical_violations validate_pair multiple = [] /\
   _validate_multiple validate_pair multiple = multiple) \/
  (exists first rest, multiple = first :: rest /\
     _validate_multiple validate_pair multiple
     = _validate_multiple validate_pair (drop_lowest multiple)).
Proof.
  rewrite (_validate_multiple_step validate_pair multiple).
  destruct multiple as [| first rest]; [left; split; reflexivity |].
  destruct (critical_violations validate_pair (first :: rest)) eqn:E;
    [left; split; reflexivity | right; eauto].
Qed.

(** The legs taken off a ticket are its lowest-scored ones. *)
Definition sacrificed (multiple kept : list leg) : Prop :=
  sublist kept multiple /\
  exists removed, multiple ≡ₚ (kept ++ removed)%list /\
    forall x y, In x kept -> In y removed -> score y <= score x.

Lemma _validate_multiple_sacrificed :
  forall n multiple, (length multiple <= n)%nat ->
  sacrificed multiple (_validate_multiple validate_pair multiple).
Proof.
  induction n as [| n IH]; intros multiple Hlen.
  - destruct multiple; [| cbn in Hlen; lia].
    rewrite (_validate_multiple_step validate_pair []).
    split; [constructor |]. exists []. split; [reflexivity | intros ? ? []].
  - destruct (_validate_multiple_cases multiple)
      as [[_ ->] | (first & rest & -> & ->)].
    + split; [reflexivity |]. exists []. rewrite app_nil_r.
      split; [reflexivity | intros ? ? ? []].
    + pose proof (drop_lowest_length first rest) as Hdrop.
      destruct (IH (drop_lowest (first :: rest))) as (Hsub & removed & Hperm & Hlow);
        [cbn in *; lia |].
      destruct (remove_first_removes (lowest_scored first rest) (first :: rest)
                  (lowest_scored_In first rest)) as (y & Hy & Hp & Hs).
      change (remove_first (lowest_scored first rest) (first :: rest))
        with (drop_lowest (first :: rest)) in Hp, Hs.
      split; [now transitivity (drop_lowest (first :: rest)) |].
      exists (y :: removed). split.
      * transitivity (y :: drop_lowest (first :: rest)); [exact Hp |].
        transitivity (y :: (_validate_multiple validate_pair
                              (drop_lowest (first :: rest)) ++ removed))%list;
          [now constructor | apply Permutation_middle].
      * intros x z Hx [<- | Hz]; [| now apply Hlow].
        rewrite (leg_eqb_score _ _ Hy). apply lowest_scored_min.
        apply list_elem_of_In. eapply sublist_subseteq; [exact Hs |].
        eapply sublist_subseteq; [exact Hsub |]. now apply list_elem_of_In.
Qed.

(** X24.  [_validate_multiple] only takes legs off the ticket, keeping the
    order of the others; every leg it takes off scores no higher than any
    leg it keeps, whether or not it took part in a violation; and a
    validated ticket is returned unchanged by a second validation. *)
Theorem validate_multiple_drops_lowest (multiple : list leg) :
  let kept := _validate_multiple validate_pair multiple in
  sublist kept multiple /\
  (exists removed, multiple ≡ₚ (kept ++ removed)%list /\
     forall x y, In x kept -> In y removed -> score y <= score x) /\
  _validate_multiple validate_pair kept = kept.
Proof.
  cbv zeta.
  destruct (_validate_multiple_sacrificed (length multiple) multiple (le_n _))
    as [Hsub Hrem].
  split; [exact Hsub |]. split; [exact Hrem |].
  destruct (_validate_multiple_cases (_validate_multiple validate_pair multiple))
    as [[_ E] | (first & rest & E & _)]; [exact E |].
  pose proof (_validate_multiple_clean validate_pair multiple) as Hclean.
  rewrite (_validate_multiple_step validate_pair
             (_validate_multiple validate_pair multiple)).
  destruct (_validate_multiple validate_pair multiple); [reflexivity |].
  now rewrite Hclean.
Qed.

(** *** [compose_daily_multiples] *)

(** [rec['original_category'] = category] *)
Definition with_original_category (rec : leg) (category : string) : leg :=
  {| leg_player_id := leg_player_id rec; leg_team := leg_team rec;
     leg_market := leg_market rec; score_final := score_final rec;
     original_category := Some category |}.

(** [all_recs]: the recommendations of all categories, each labelled with
    its category.  (The lists hold different dict objects, as the ones
    returned by [compose_recommendations] do.) *)
Definition all_recs (all_recommendations : list (string * list leg)) : list leg :=
  concat (map (fun entry =>
                 map (fun rec => with_original_category rec (fst entry)) (snd entry))
              all_recommendations).

(** [r['original_category'] in categories]; the key was set just before. *)
Definition in_categories (categories : list string) (r : leg) : bool :=
  match original_category r with
  | Some category => Str.mem category categories
  | None => false
  end.

Record daily_multiples : Type := {
  dm_conservadora : list leg;
  dm_ousada : list leg
}.

(** [compose_daily_multiples]; the grouping [confrontos] is built and
    never read, and is left out. *)
Definition compose_daily_multiples (all_recommendations : list (string * list leg))
  : daily_multiples :=
  let all_recs_sorted := sorted_desc score (all_recs all_recommendations) in
  let conservative_candidates :=
    List.filter (in_categories ["conservadora"; "ousada"]) all_recs_sorted in
  let aggressive_candidates :=
    List.filter (in_categories ["ousada"; "banco"; "explosao"]) all_recs_sorted in
  let conservative_selected := _select_for_multiple conservative_candidates 6 2 in
  let aggressive_selected := _select_for_multiple aggressive_candidates 4 1 in
  {| dm_conservadora := _validate_multiple validate_pair conservative_selected;
     dm_ousada := _validate_multiple validate_pair aggressive_selected |}.

(** What holds of a finished ticket.  The fourth part says that no pair
    of legs has a critical violation: at no two positions, the first
    before the second (the order in which the validator is asked), does it
    report severity [critical]. *)
Definition ticket (max_legs max_per_team : nat) (categories : list string)
    (pool multiple : list leg) : Prop :=
  (length multiple <= max_legs)%nat /\
  List.NoDup (map leg_player_id multiple) /\
  (forall team, (team_count team multiple <= max_per_team)%nat) /\
  (forall i j a b v, (i < j)%nat ->
     multiple !! i = Some a -> multiple !! j = Some b ->
     validate_pair a b = Some v -> severity v <> Some "critical") /\
  (forall i j a b, multiple !! i = Some a -> multiple !! j = Some b -> (i < j)%nat ->
     score b <= score a) /\
  forall r, In r multiple ->
    In r pool /\ exists category, original_category r = Some category /\
                                  In category categories.

Lemma select_validate_ticket max_legs max_per_team categories pool :
  ticket max_legs max_per_team categories pool
    (_validate_multiple validate_pair
       (_select_for_multiple
          (List.filter (in_categories categories) (sorted_desc score pool))
          max_legs max_per_team)).
Proof.
  set (candidates := List.filter (in_categories categories) (sorted_desc score pool)).
  destruct (select_for_multiple_within candidates max_legs max_per_team)
    as (Hsub & Hlen & Hnd & Hcount).
  set (selected_ := _select_for_multiple candidates max_legs max_per_team) in *.
  destruct (_validate_multiple_sacrificed (length selected_) selected_ (le_n _))
    as (Hval & _).
  set (multiple := _validate_multiple validate_pair selected_) in *.
  assert (Hcand : sublist multiple candidates) by (now transitivity selected_).
  split; [apply sublist_length in Hval; lia |].
  split; [now apply (ListFacts.sublist_map_NoDup leg_player_id multiple selected_) |].
  split.
  { intros team. specialize (Hcount team). unfold team_count in *.
    pose proof (ListFacts.sublist_filter_length
                  (fun x => bool_decide (leg_team x = team)) multiple selected_ Hval).
    lia. }
  split; [apply _validate_multiple_no_critical_pair |].
  split.
  { apply (SortFacts.ordered_lookup (fun a b => score b <= score a)).
    apply (ListFacts.sublist_ordered _ multiple (sorted_desc score pool)).
    - transitivity candidates; [exact Hcand | apply ListFacts.filter_sublist].
    - apply (SortFacts.sort_by_ordered (fun y x => qltb (score x) (score y))).
      + intros a b c Hab Hbc. lra.
      + intros y x Hb. apply qltb_true in Hb. lra.
      + intros y x Hb. now apply qltb_false in Hb. }
  intros r Hr. apply (ListFacts.sublist_In multiple candidates) in Hr; [| exact Hcand].
  unfold candidates in Hr. apply filter_In in Hr as [Hin Hcat].
  split; [now apply (sort_by_In _ pool) in Hin |].
  unfold in_categories in Hcat. destruct (original_category r) as [category |];
    [| discriminate].
  exists category. split; [reflexivity | now apply Str.mem_In].
Qed.

(** X25.  The two tickets of [compose_daily_multiples]: the conservative
    one has at most six legs, taken from the categories conservadora and
    ousada, at most two per team; the aggressive one at most four legs,
    from ousada, banco and explosao, all of different teams.  On either
    ticket the legs belong to different players, come in decreasing order
    of [score_final], and no pair of legs has a critical violation: for no
    two legs, the earlier one given first, does [validate_pair] report
    severity [critical]. *)
Theorem compose_daily_multiples_tickets
    (all_recommendations : list (string * list leg)) :
  let m := compose_daily_multiples all_recommendations in
  ticket 6 2 ["conservadora"; "ousada"] (all_recs all_recommendations)
    (dm_conservadora m) /\
  ticket 4 1 ["ousada"; "banco"; "explosao"] (all_recs all_recommendations)
    (dm_ousada m).
Proof.
  cbv zeta. unfold compose_daily_multiples. cbn [dm_conservadora dm_ousada].
  split; apply select_validate_ticket.
Qed.

End ValidationFacts.

End DailyMultipleFacts.

(** ** modules/new_modules/multipla_do_dia.py, continued *)

Module MultiplaDoDiaFacts.

Import Num NumFacts Data MultiplaDoDia.
Local Open Scope Q_scope.

(** The number of legs of a team on a ticket; a missing [team] key counts
    as a team of its own. *)
Definition team_legs (team : option string) (recs : list thesis) : nat :=
  length (List.filter (fun r => bool_decide (th_team r = team)) recs).

Lemma id_eqb_eq a b : id_eqb a b = true <-> a = b.
Proof.
  destruct a as [x |], b as [y |]; cbn; try (split; [discriminate | congruence]).
  - rewrite String.eqb_eq. split; congruence.
  - tauto.
Qed.

Lemma seen_In player_id (selected : list thesis) :
  existsb (fun r => id_eqb player_id (th_player_id r)) selected = true <->
  In player_id (map th_player_id selected).
Proof.
  rewrite existsb_exists, in_map_iff. split.
  - intros (r & Hr & E). apply id_eqb_eq in E. eauto.
  - intros (r & E & Hr). exists r. split; [exact Hr |]. now apply id_eqb_eq.
Qed.

Lemma team_legs_snoc team recs rec :
  team_legs team (recs ++ [rec]) =
  (team_legs team recs + if bool_decide (th_team rec = team) then 1 else 0)%nat.
Proof.
  unfold team_legs. rewrite List.filter_app, length_app. cbn [List.filter].
  now destruct (bool_decide (th_team rec = team)).
Qed.

(** The counts agree with the legs selected so far. *)
Definition counted (selected : list thesis) (team_counts : gmap (option string) nat)
  : Prop :=
  forall team, default 0%nat (team_counts !! team) = team_legs team selected.

Definition diversified (max_legs : nat) (selected : list thesis) : Prop :=
  (length selected <= Nat.max max_legs 1)%nat /\
  List.NoDup (map th_player_id selected) /\
  forall team, (team_legs team selected <= max_players_per_team)%nat.

Lemma diversify_extends max_legs :
  forall recs selected team_counts,
  exists extra,
    diversify max_legs recs selected team_counts = (selected ++ extra)%list /\
    sublist extra recs.
Proof.
  induction recs as [| rec rest IH]; intros selected team_counts; cbn [diversify].
  - exists []. rewrite app_nil_r. split; [reflexivity | constructor].
  - destruct (existsb _ selected).
    { destruct (IH selected team_counts) as (extra & -> & Hsub). exists extra.
      split; [reflexivity | now apply sublist_cons]. }
    destruct (max_players_per_team <=? _)%nat.
    { destruct (IH selected team_counts) as (extra & -> & Hsub). exists extra.
      split; [reflexivity | now apply sublist_cons]. }
    destruct (max_legs <=? _)%nat.
    { exists [rec]. split; [reflexivity |]. apply sublist_skip, sublist_nil_l. }
    match goal with
    | |- context [diversify _ rest ?sel ?tc] =>
        destruct (IH sel tc) as (extra & -> & Hsub)
    end.
    exists (rec :: extra). rewrite <- app_assoc.
    split; [reflexivity | now apply sublist_skip].
Qed.

Lemma diversify_diversified max_legs :
  forall recs selected team_counts,
  counted selected team_counts ->
  (length selected < Nat.max max_legs 1)%nat \/ selected = [] ->
  List.NoDup (map th_player_id selected) ->
  (forall team, (team_legs team selected <= max_players_per_team)%nat) ->
  diversified max_legs (diversify max_legs recs selected team_counts).
Proof.
  induction recs as [| rec rest IH]; intros selected team_counts Hc Hlen Hnd Hteams;
    cbn [diversify].
  - split; [destruct Hlen as [? | ->]; cbn; lia | split; assumption].
  - destruct (existsb _ selected) eqn:Hseen; [now apply IH |].
    destruct (max_players_per_team <=? _)%nat eqn:Hfull; [now apply IH |].
    apply Nat.leb_gt in Hfull. rewrite Hc in Hfull.
    assert (Hnd' : List.NoDup (map th_player_id (selected ++ [rec]))).
    { rewrite map_app. apply StrategyEngineFacts.NoDup_snoc; [exact Hnd |].
      intros Hin. apply seen_In in Hin. congruence. }
    assert (Hteams' : forall team,
              (team_legs team (selected ++ [rec]) <= max_players_per_team)%nat).
    { intros team. rewrite team_legs_snoc.
      destruct (bool_decide (th_team rec = team)) eqn:E.
      - apply bool_decide_eq_true in E. subst team. lia.
      - specialize (Hteams team). lia. }
    assert (Hlen' : (length (selected ++ [rec]) <= Nat.max max_legs 1)%nat).
    { rewrite length_app. cbn. destruct Hlen as [? | ->]; cbn; lia. }
    destruct (max_legs <=? _)%nat eqn:Hstop.
    + split; [exact Hlen' | split; assumption].
    + apply Nat.leb_gt in Hstop. apply IH; try assumption.
      * intros team. rewrite team_legs_snoc.
        destruct (decide (th_team rec = team)) as [<- | Hne].
        -- rewrite lookup_insert_eq, bool_decide_eq_true_2 by reflexivity.
           cbn. rewrite Hc. lia.
        -- rewrite lookup_insert_ne, bool_decide_eq_false_2 by exact Hne.
           rewrite Hc. lia.
      * left. lia.
Qed.

Lemma _apply_diversification_diversified recs max_legs :
  sublist (_apply_diversification recs max_legs)
          (sorted_desc (fun x => default 0 (confidence x)) recs) /\
  diversified max_legs (_apply_diversification recs max_legs).
Proof.
  unfold _apply_diversification. destruct recs as [| r0 recs].
  { split; [constructor |]. split; [cbn; lia |]. split; [constructor |].
    intros team. cbn. lia. }
  set (sorted := sorted_desc _ (r0 :: recs)).
  destruct (diversify_extends max_legs sorted [] ∅) as (extra & Hex & Hsub).
  split; [rewrite Hex; exact Hsub |].
  apply diversify_diversified.
  - intros team. now rewrite lookup_empty.
  - now right.
  - constructor.
  - intros team. cbn. lia.
Qed.

(** X26.  [_apply_diversification] returns a selection of its input in
    decreasing order of confidence, with no [player_id] twice and at most
    four legs per [team] - legs without a [team] key counting as one team,
    so that recommendations without that key yield at most four legs
    whatever [max_legs] is.  The number of legs is at most [max_legs], but
    one leg is always taken from a non-empty input. *)
Theorem apply_diversification_rules (recs : list thesis) (max_legs : nat) :
  let selected := _apply_diversification recs max_legs in
  (forall r, In r selected -> In r recs) /\
  (length selected <= Nat.max max_legs 1)%nat /\
  (recs <> [] -> selected <> []) /\
  List.NoDup (map th_player_id selected) /\
  (forall team, (team_legs team selected <= 4)%nat) /\
  ((forall r, In r recs -> th_team r = None) -> (length selected <= 4)%nat) /\
  (forall i j a b, selected !! i = Some a -> selected !! j = Some b -> (i < j)%nat ->
     default 0 (confidence b) <= default 0 (confidence a)).
Proof.
  cbv zeta.
  destruct (_apply_diversification_diversified recs max_legs)
    as (Hsub & Hlen & Hnd & Hteams).
  assert (Hin : forall r, In r (_apply_diversification recs max_legs) -> In r recs).
  { intros r Hr. apply (ListFacts.sublist_In _ _ r Hsub) in Hr.
    now apply (sort_by_In _ recs) in Hr. }
  split; [exact Hin |]. split; [exact Hlen |]. split.
  { intros Hne. unfold _apply_diversification. destruct recs as [| r0 recs];
      [now contradiction Hne |].
    destruct (sorted_desc _ (r0 :: recs)) as [| x l] eqn:Es.
    - apply (f_equal (@length thesis)) in Es. unfold sorted_desc in Es.
      rewrite sort_by_length in Es. discriminate.
    - cbn [diversify existsb]. rewrite lookup_empty. cbn [default].
      unfold max_players_per_team. cbn [Nat.leb].
      destruct (max_legs <=? _)%nat; [discriminate |].
      match goal with
      | |- context [diversify _ l ?sel ?tc] =>
          destruct (diversify_extends max_legs l sel tc) as (extra & -> & _)
      end.
      discriminate. }
  split; [exact Hnd |]. split; [exact Hteams |]. split.
  { intros Hnone. specialize (Hteams None). unfold team_legs in Hteams.
    rewrite List.forallb_filter_id in Hteams; [exact Hteams |].
    apply forallb_forall. intros r Hr. apply bool_decide_eq_true.
    now apply Hnone, Hin. }
  apply (SortFacts.ordered_lookup
           (fun a b => default 0 (confidence b) <= default 0 (confidence a))).
  apply (ListFacts.sublist_ordered _ _ _ Hsub).
  apply (SortFacts.sort_by_ordered
           (fun y x => qltb (default 0 (confidence x)) (default 0 (confidence y)))).
  - intros a b c Hab Hbc. lra.
  - intros y x Hb. apply qltb_true in Hb. lra.
  - intros y x Hb. now apply qltb_false in Hb.
Qed.

(** *** [generate_multipla] *)






End MultiplaDoDiaFacts.

(** ** modules/new_modules/strategy_engine.py: [identify_strategy] *)

Module StrategyNames.

Import Num Data StrategyEngine.
Local Open Scope Q_scope.

Lemma no_big_men (recs : list thesis) :
  (forall r, In r recs -> player_position r = None) ->
  List.filter (fun r => Str.mem (default "" (player_position r)) ["C"; "PF"] &&
                        String.eqb (default "" (market r)) "REB") recs = [].
Proof.
  induction recs as [| r recs IH]; intros H; [reflexivity |].
  cbn [List.filter]. rewrite (H r) by now left. cbn.
  apply IH. intros r' Hr'. apply H. now right.
Qed.

Lemma no_point_guard (recs : list thesis) :
  (forall r, In r recs -> player_position r = None) ->
  Str.mem "PG" (map (fun r => default "" (player_position r)) recs) = false.
Proof.
  induction recs as [| r recs IH]; intros H; [reflexivity |].
  cbn [map Str.mem existsb]. rewrite (H r) by now left. cbn.
  apply IH. intros r' Hr'. apply H. now right.
Qed.

Lemma all_bench (recs : list thesis) :
  (forall r, In r recs -> In (default "" (player_role r)) ["bench"; "rotation"]) ->
  forallb (fun role => Str.mem role ["bench"; "rotation"])
          (map (fun r => default "" (player_role r)) recs) = true.
Proof.
  intros H. apply forallb_forall. intros role Hrole.
  apply in_map_iff in Hrole as (r & <- & Hr). apply Str.mem_In. now apply H.
Qed.

(** X28.  [identify_strategy] answers one of eight names, and
    INDIVIDUAL_PLAY only for an empty list.  Three of the names have no
    template, hence an empty description: INDIVIDUAL_PLAY, CURATED_COMBO and
    GLASS_BANGER_PAIR.  Recommendations without [player_position] never
    give a glass-banger or battery strategy, and a non-empty list of bench
    and rotation players gives none of SHOOTOUT_PAIR, BLOWOUT_SPECIAL and
    CURATED_COMBO. *)
Theorem identify_strategy_names (recs : list thesis) (game : game_ctx) :
  match identify_strategy recs game with
  | Ok strategy_name =>
      In strategy_name
         ["INDIVIDUAL_PLAY"; "GLASS_BANGERS_TRIO"; "GLASS_BANGER_PAIR"; "THE_BATTERY";
          "BENCH_MOB"; "SHOOTOUT_PAIR"; "BLOWOUT_SPECIAL"; "CURATED_COMBO"] /\
      (strategy_name = "INDIVIDUAL_PLAY" <-> recs = []) /\
      (strategy_description_of strategy_name = "" <->
       In strategy_name ["INDIVIDUAL_PLAY"; "GLASS_BANGER_PAIR"; "CURATED_COMBO"]) /\
      ((forall r, In r recs -> player_position r = None) ->
       ~ In strategy_name ["GLASS_BANGERS_TRIO"; "GLASS_BANGER_PAIR"; "THE_BATTERY"]) /\
      (recs <> [] ->
       (forall r, In r recs ->
          In (default "" (player_role r)) ["bench"; "rotation"]) ->
       In strategy_name
          ["GLASS_BANGERS_TRIO"; "GLASS_BANGER_PAIR"; "THE_BATTERY"; "BENCH_MOB"])
  | Raise _ => ~ Forall complete recs
  end.
Proof.
  destruct (identify_strategy recs game) as [s | e] eqn:E.
  2: { intros Hc. destruct (identify_strategy_total recs game Hc) as [s E']. congruence. }
  unfold identify_strategy in E. destruct recs as [| r0 recs].
  { injection E as <-. cbn. repeat split; auto; try discriminate.
    - intros _ H. repeat destruct H as [H | H]; try discriminate; destruct H.
    - intros H. now contradiction H. }
  set (R := r0 :: recs) in *.
  destruct (foldM _ R []) as [players |]; cbn [bind] in E; [| discriminate].
  destruct (foldM _ R []) as [markets |]; cbn [bind] in E; [| discriminate].
  assert (Hne : R <> []) by discriminate.
  assert (Hcases :
    (s = "GLASS_BANGERS_TRIO" \/ s = "GLASS_BANGER_PAIR") /\
      (2 <=? length (List.filter
                       (fun r => Str.mem (default "" (player_position r)) ["C"; "PF"] &&
                                 String.eqb (default "" (market r)) "REB") R))%nat = true \/
    s = "THE_BATTERY" /\
      Str.mem "PG" (map (fun r => default "" (player_position r)) R) = true \/
    s = "BENCH_MOB" \/
    (s = "SHOOTOUT_PAIR" \/ s = "BLOWOUT_SPECIAL" \/ s = "CURATED_COMBO") /\
      forallb (fun role => Str.mem role ["bench"; "rotation"])
              (map (fun r => default "" (player_role r)) R) = false).
  { repeat match type of E with
           | (if ?b then _ else _) = _ => destruct b eqn:?
           | Ok (if ?b then _ else _) = _ => destruct b
           end; injection E as <-;
      repeat match goal with
             | H : _ && _ = true |- _ => apply andb_prop in H as [? ?]
             end; auto 10. }
  clear E. clearbody R. clear r0 recs players markets.
  split.
  { destruct Hcases as [[[-> | ->] _] | [[-> _] | [-> | [[-> | [-> | ->]] _]]]];
      cbn; auto 10. }
  split.
  { split; [| intros ->; now contradiction Hne].
    destruct Hcases as [[[-> | ->] _] | [[-> _] | [-> | [[-> | [-> | ->]] _]]]];
      discriminate. }
  split.
  { destruct Hcases as [[[-> | ->] _] | [[-> _] | [-> | [[-> | [-> | ->]] _]]]];
      cbn; (split; [try discriminate; auto | intros H; try reflexivity;
                    repeat destruct H as [H | H]; try discriminate; destruct H]). }
  split.
  { intros Hpos Hin.
    destruct Hcases as [[_ Hbig] | [[_ Hpg] | [-> | [[-> | [-> | ->]] _]]]].
    - rewrite (no_big_men R Hpos) in Hbig. discriminate.
    - rewrite (no_point_guard R Hpos) in Hpg. discriminate.
    - cbn in Hin. repeat destruct Hin as [Hin | Hin]; try discriminate; destruct Hin.
    - cbn in Hin. repeat destruct Hin as [Hin | Hin]; try discriminate; destruct Hin.
    - cbn in Hin. repeat destruct Hin as [Hin | Hin]; try discriminate; destruct Hin.
    - cbn in Hin. repeat destruct Hin as [Hin | Hin]; try discriminate; destruct Hin. }
  intros _ Hroles.
  destruct Hcases as [[[-> | ->] _] | [[-> _] | [-> | [_ Hmob]]]]; cbn; auto.
  rewrite (all_bench R Hroles) in Hmob. discriminate.
Qed.

End StrategyNames.

(** ** modules/new_modules/pace_adjuster.py: the direction of the adjustment *)

Module PaceDirection.

Import Num NumFacts PaceAdjuster.
Local Open Scope Q_scope.

(** X29.  A positive volume stat is never lowered by a game pace of at
    least 100 nor raised by one of at most 100, both relative to the stat
    rounded to one decimal. *)
Theorem adjust_player_stats_direction (pace_data : gmap string Q)
    (player_stats : dict) (home_team away_team : option string)
    (stat : string) (v : Q) :
  player_stats ≠ ∅ ->
  truthy home_team = true -> truthy away_team = true ->
  (forall k, In k volume_stats -> numeric_or_absent player_stats k) ->
  In stat volume_stats -> player_stats !! stat = Some (VNum v) -> 0 < v ->
  let game_pace := calculate_game_pace pace_data home_team away_team in
  exists adjusted v',
    adjust_player_stats pace_data player_stats home_team away_team = Ok adjusted /\
    adjusted !! stat = Some (VNum v') /\
    (100 <= game_pace -> py_round v 1 <= v') /\
    (game_pace <= 100 -> v' <= py_round v 1).
Proof.
  intros Hne Hh Ha Hnum Hstat Hv Hpos game_pace. unfold adjust_player_stats.
  rewrite (dict_empty_false _ Hne), Hh, Ha. cbn [orb negb]. fold game_pace.
  destruct (scale_stats_ok (fun v => qltb 0 v) (game_pace / 100) volume_stats
              player_stats) as (d' & E & Hin & _);
    [apply volume_stats_NoDup | exact Hnum |].
  rewrite E. cbn [bind].
  exists (<["pace_factor" := VNum (py_round (game_pace / 100) 3)]>
            (<["game_pace" := VNum (py_round game_pace 1)]>
               (<["pace_adjusted" := VBool true]> d'))),
         (py_round (v * (game_pace / 100)) 1).
  split; [reflexivity |]. split.
  { rewrite !lookup_insert_ne by (intros <-; cbn in Hstat; intuition discriminate).
    rewrite (Hin stat Hstat), Hv. unfold scaled.
    now rewrite (proj2 (qltb_true 0 v) Hpos). }
  clearbody game_pace.
  assert (E2 : v * (game_pace / 100) == v + v * ((game_pace - 100) * (1 # 100)))
    by field.
  split; intros Hpace; apply py_round_mono; rewrite E2.
  - assert (0 <= v * ((game_pace - 100) * (1 # 100)))
      by (apply Qmult_le_0_compat; lra).
    lra.
  - assert (0 <= v * ((100 - game_pace) * (1 # 100)))
      by (apply Qmult_le_0_compat; lra).
    assert (E3 : v * ((game_pace - 100) * (1 # 100))
                 == - (v * ((100 - game_pace) * (1 # 100)))) by ring.
    rewrite E3. lra.
Qed.

Lemma adjust_player_stats_direction_witness :
  exists adjusted v',
    adjust_player_stats TEAM_PACE_DATA (<["pts_L5" := VNum 20]> ∅)
      (Some "IND") (Some "SAC") = Ok adjusted /\
    adjusted !! "pts_L5" = Some (VNum v') /\
    (100 <= calculate_game_pace TEAM_PACE_DATA (Some "IND") (Some "SAC") ->
     py_round 20 1 <= v') /\
    (calculate_game_pace TEAM_PACE_DATA (Some "IND") (Some "SAC") <= 100 ->
     v' <= py_round 20 1).
Proof.
  apply (adjust_player_stats_direction TEAM_PACE_DATA (<["pts_L5" := VNum 20]> ∅)
           (Some "IND") (Some "SAC") "pts_L5" 20).
  - intros H. apply (f_equal (fun m => m !! "pts_L5")) in H. discriminate H.
  - reflexivity.
  - reflexivity.
  - intros k [<- | [<- | [<- | [<- | []]]]]; [right; eexists | left | left | left];
      reflexivity.
  - now left.
  - reflexivity.
  - reflexivity.
Defined.

End PaceDirection.

(** ** modules/new_modules/thesis_engine.py: the suggested lines *)

Module ThesisLines.

Import Num NumFacts Data ThesisEngine.
Local Open Scope Q_scope.

(** The season and last-five averages behind the line of a market. *)
Definition market_stats (ctx : thesis_ctx) (market : string)
  : option (option Q * option Q) :=
  if String.eqb market "REB" then Some (rpg ctx, last_5_rpg ctx)
  else if String.eqb market "AST" then Some (apg ctx, last_5_apg ctx)
  else if String.eqb market "PTS" then Some (ppg ctx, last_5_ppg ctx)
  else if String.eqb market "PRA" then Some (pra ctx, last_5_pra ctx)
  else None.

(** [max(season, last_5)] with the defaults of the [.get] calls. *)
Definition recent_form (season last_5 : option Q) : Q :=
  qmax (default 0 season) (default (default 0 season) last_5).

Definition lined (ctx : thesis_ctx) (t : thesis) : Prop :=
  exists market_, market t = Some market_ /\
    suggested_line t =
      match market_stats ctx market_ with
      | Some (season, last_5) => Some (suggest_line season last_5 ctx)
      | None => None
      end.

Ltac gate_pair :=
  lazymatch goal with
  | |- yields _ _ (if ?b then _ else _) => destruct b; [exact I |]
  | |- yields _ _ (bind (index _ ?o) _) =>
      destruct o eqn:?; [cbn [bind index] | assumption]
  | |- yields _ _ (match ?l with [] => _ | _ :: _ => _ end) => destruct l; [exact I |]
  | |- yields _ _ (let '(_, _) := if ?a then _ else _ in _) => destruct a
  end.

Lemma thesis_generators_lined ctx game :
  Forall (fun generator => yields (lined ctx) ctx (generator ctx game))
         thesis_generators.
Proof.
  unfold thesis_generators.
  repeat apply Forall_cons_2; [| | | | | | apply Forall_nil_2].
  - unfold generate_big_rebound_thesis. cbv zeta. repeat gate_pair.
    cbn [yields]. eexists. split; reflexivity.
  - unfold generate_assist_matchup_thesis. cbv zeta. repeat gate_pair.
    cbn [yields]. eexists. split; reflexivity.
  - unfold generate_scorer_line_thesis. cbv zeta. repeat gate_pair.
    cbn [yields]. eexists. split; reflexivity.
  - unfold generate_value_hunter_thesis. cbv zeta. repeat gate_pair.
    cbn [yields]. eexists. split; reflexivity.
  - unfold generate_pace_boost_thesis. cbv zeta. repeat gate_pair.
    all: cbn [yields]; eexists; split; reflexivity.
  - unfold generate_blowout_risk_thesis. cbv zeta. repeat gate_pair.
    all: cbn [yields]; eexists; split; reflexivity.
Qed.

Lemma collect_lined ctx game
    (generators : list (thesis_ctx -> game_ctx -> result (option thesis))) :
  Forall (fun generator => yields (lined ctx) ctx (generator ctx game)) generators ->
  forall theses, Forall (lined ctx) theses ->
  match foldM (fun theses generator =>
                 o <- generator ctx game ;;
                 match o with
                 | Some t => if keeps t then Ok (theses ++ [t])%list else Ok theses
                 | None => Ok theses
                 end) generators theses with
  | Ok theses' => Forall (lined ctx) theses'
  | Raise _ => name ctx = None
  end.
Proof.
  induction 1 as [| g gs Hg _ IH]; intros theses Hth; cbn [foldM]; [exact Hth |].
  unfold yields in Hg. destruct (g ctx game) as [[t |] | e]; cbn [bind].
  - destruct (keeps t); cbn [bind].
    + apply IH. apply Forall_app. split; [exact Hth |]. now constructor.
    + now apply IH.
  - now apply IH.
  - exact Hg.
Qed.

(** X30.  The suggested line: for non-negative averages it lies between 0
    and the better of the season and the last-five average rounded to one
    decimal, which it equals for a starter.  Every thesis returned by
    [generate_all_theses] carries the line computed from the averages of its
    own market (REB, AST, PTS or PRA), and the RISK signal carries none. *)
Theorem suggested_line_of_market (ctx : thesis_ctx) (game : game_ctx) :
  (forall season last_5,
     0 <= recent_form season last_5 ->
     0 <= suggest_line season last_5 ctx /\
     suggest_line season last_5 ctx <= py_round (recent_form season last_5) 1 /\
     (role ctx = Some "starter" ->
      suggest_line season last_5 ctx == py_round (recent_form season last_5) 1)) /\
  match generate_all_theses ctx game with
  | Ok theses =>
      forall t, In t theses ->
        exists market_, market t = Some market_ /\
          suggested_line t =
            match market_stats ctx market_ with
            | Some (season, last_5) => Some (suggest_line season last_5 ctx)
            | None => None
            end
  | Raise _ => name ctx = None
  end.
Proof.
  split.
  - intros season last_5 Hform. unfold suggest_line. fold (recent_form season last_5).
    set (form := recent_form season last_5) in *. clearbody form.
    unfold role_multiplier.
    split; [| split].
    + apply (ThesisEngineFacts.py_round_lower _ _ 0); [reflexivity |].
      repeat match goal with
             | |- context [if ?b then _ else _] => destruct b
             end; apply Qmult_le_0_compat; lra.
    + apply py_round_mono.
      repeat match goal with
             | |- context [if ?b then _ else _] => destruct b
             end; lra.
    + intros ->. cbn. apply py_round_proper. ring.
  - unfold generate_all_theses.
    pose proof (collect_lined ctx game thesis_generators
                  (thesis_generators_lined ctx game) [] (Forall_nil_2 _)) as H.
    destruct (foldM _ thesis_generators []) as [theses | e]; cbn [bind]; [| exact H].
    intros t Ht. apply SortFacts.In_take in Ht. apply sort_by_In in Ht.
    rewrite Forall_forall in H. apply H. now apply list_elem_of_In.
Qed.

End ThesisLines.
